(** * brain: ingestion, chunking, graph episodes and fusion retrieval

    A shallow embedding of the core of the [brain] package
    ([brain.ingest.chunker], [brain.ingest.pipeline], [brain.stores],
    [brain.graph.client], [brain.chat.retriever]) together with the
    properties its design document states about it.

    Python [str] values are lists of code points, Python [int]s are [Z],
    an operation that can raise returns an explicit outcome, and the SQLite
    and Qdrant tables are lists of rows with their uniqueness constraints
    written out. *)

From Stdlib Require Import List ZArith NArith Lia Bool String Ascii.
From Stdlib Require Import DecimalString PrimFloat.
From Stdlib.Strings Require Import Byte.
From Stdlib Require Import Sorted Permutation.
From Equations Require Import Equations.
Import ListNotations.

Open Scope Z_scope.

(* ===================================================================== *)
(** * Python string primitives *)
(* ===================================================================== *)

Module PyStr.

(** A Python [str] is a sequence of Unicode code points. *)
Definition char := N.
Definition str := list char.

(** [of_string] reads a string literal. *)
Fixpoint of_string (s : string) : str :=
  match s with
  | EmptyString => []
  | String a r => N_of_ascii a :: of_string r
  end.

(** The code points [str.isspace] accepts, which [str.strip()] removes. *)
Definition is_space (c : char) : bool :=
  ((9 <=? c) && (c <=? 13) || (28 <=? c) && (c <=? 32)
   || (c =? 133) || (c =? 160) || (c =? 5760)
   || (8192 <=? c) && (c <=? 8202)
   || (c =? 8232) || (c =? 8233) || (c =? 8239) || (c =? 8287)
   || (c =? 12288))%N.

(** [len(s)], for strings and lists alike. *)
Definition len {A} (s : list A) : Z := Z.of_nat (List.length s).

(** [a == b] on strings. *)
Fixpoint str_eqb (a b : str) : bool :=
  match a, b with
  | [], [] => true
  | x :: a', y :: b' => (x =? y)%N && str_eqb a' b'
  | _, _ => false
  end.

(** [a < b] on strings: code point by code point. *)
Fixpoint str_ltb (a b : str) : bool :=
  match a, b with
  | _, [] => false
  | [], _ :: _ => true
  | x :: a', y :: b' => (x <? y)%N || ((x =? y)%N && str_ltb a' b')
  end.

(** [str(n)] for an [int], as the f-strings print it. *)
Definition str_of_Z (n : Z) : str :=
  of_string (NilZero.string_of_int (Z.to_int n)).

(** [s.lower()] as far as a look-up of the lowered string in a table of
    ASCII keys without the letter [k] goes, which is the one use made of
    it (the suffix of a file name in [NORMALIZERS]): the ASCII letters are
    lowered, every other character is left as it is.  Python also maps the
    cased letters outside ASCII, but the result of that either holds a
    character outside ASCII or is the [k] of the Kelvin sign, so such a
    string is no key of the table before or after the mapping.  Where the
    lowered string itself is returned, Python's [lower()] is taken as
    given instead. *)
Definition lower (s : str) : str :=
  map (fun c => if (65 <=? c) && (c <=? 90) then c + 32 else c)%N s.

(** Truth value of a string: [if s:]. *)
Definition truthy (s : str) : bool :=
  match s with [] => false | _ :: _ => true end.

Fixpoint lstrip (s : str) : str :=
  match s with
  | [] => []
  | c :: r => if is_space c then lstrip r else s
  end.

Definition rstrip (s : str) : str := rev (lstrip (rev s)).

(** [s.strip()] *)
Definition strip (s : str) : str := rstrip (lstrip s).

(** [sep.join(pieces)] *)
Fixpoint join (sep : str) (pieces : list str) : str :=
  match pieces with
  | [] => []
  | [p] => p
  | p :: rest => p ++ sep ++ join sep rest
  end.

Fixpoint is_prefix (p s : str) : bool :=
  match p, s with
  | [], _ => true
  | a :: p', b :: s' => (a =? b)%N && is_prefix p' s'
  | _ :: _, [] => false
  end.

(** The scan behind [text.split(sep)]: leftmost occurrences of [sep], not
    overlapping.  [skip] counts the characters of a separator just matched
    that are still to be passed over; [cur] is the piece being read, in
    reverse. *)
Fixpoint split_aux (sep : str) (skip : nat) (cur : str) (text : str)
  : list str :=
  match text with
  | [] => [rev cur]
  | c :: rest =>
      match skip with
      | S k => split_aux sep k cur rest
      | O =>
          if is_prefix sep text
          then rev cur :: split_aux sep (List.length sep - 1) [] rest
          else split_aux sep O (c :: cur) rest
      end
  end.

(** [text.split(sep)] for a non-empty [sep] (the chunker tests [if not sep]
    before it splits; Python refuses an empty separator). *)
Definition split (text sep : str) : list str := split_aux sep O [] text.

(** An index of a slice, as Python clamps it. *)
Definition clamp_index (n i : Z) : Z :=
  if i <? 0 then Z.max 0 (i + n) else Z.min i n.

(** [s[i:j]], for strings and lists alike. *)
Definition slice {A} (s : list A) (i j : Z) : list A :=
  let a := clamp_index (len s) i in
  let b := clamp_index (len s) j in
  firstn (Z.to_nat (b - a)) (skipn (Z.to_nat a) s).

(** The first position at or after [pos] (the position of the head of
    [text]) where [sub] occurs. *)
Fixpoint find_from (sub text : str) (pos : nat) : option nat :=
  if is_prefix sub text then Some pos
  else match text with
       | [] => None
       | _ :: r => find_from sub r (S pos)
       end.

(** [text.find(sub, start)]: the lowest index at or after [start] where
    [sub] occurs, [-1] when there is none. *)
Definition find (text sub : str) (start : Z) : Z :=
  let n := len text in
  let s := if start <? 0 then Z.max 0 (start + n) else start in
  if n <? s then -1
  else match find_from sub (skipn (Z.to_nat s) text) (Z.to_nat s) with
       | Some i => Z.of_nat i
       | None => -1
       end.

(** The number of elements of [range(start, stop, step)], [step] not 0. *)
Definition range_len (start stop step : Z) : Z :=
  if 0 <? step
  then (if start <? stop then (stop - start - 1) / step + 1 else 0)
  else (if stop <? start then (start - stop - 1) / (- step) + 1 else 0).

(** [range(start, stop, step)]; [None] is the [ValueError] of a zero step. *)
Definition range (start stop step : Z) : option (list Z) :=
  if step =? 0 then None
  else Some (map (fun k => start + Z.of_nat k * step)
                 (seq 0 (Z.to_nat (range_len start stop step)))).

End PyStr.

(* ===================================================================== *)
(** * brain.models and brain.config *)
(* ===================================================================== *)

Module Models.
Import PyStr.

(** The exceptions the core can meet.  [ServiceError] stands for any other
    [Exception] raised by an external library or service. *)
Inductive exn :=
| ValueError
| RuntimeError
| IndexError
| AttributeError
| FileNotFoundError
| RateLimitError
| ServiceError (msg : str).

(** The result of a call that can raise. *)
Inductive outcome (A : Type) :=
| Ok (a : A)
| Raise (e : exn).
Arguments Ok {A} a.
Arguments Raise {A} e.

Definition bytes := list byte.

(** A JSON-like [dict] of string keys and values, in insertion order. *)
Definition metadata_t := list (str * str).

(** A [datetime]: an instant, and whether it carries a time zone. *)
Record datetime := mkDatetime {
  instant : Z;
  tz_aware : bool
}.

Inductive DocType := DOCX | PPTX | TEXT | IMAGE.

(** [doc_type.value] *)
Definition doc_type_value (t : DocType) : str :=
  match t with
  | DOCX => of_string "docx"
  | PPTX => of_string "pptx"
  | TEXT => of_string "text"
  | IMAGE => of_string "image"
  end.

Record Document := mkDocument {
  doc_id : str;
  source_path : str;
  doc_type : DocType;
  title : str;
  text : str;
  metadata : metadata_t;
  content_hash : str;
  mtime : float;
  ingested_at : datetime
}.

Definition set_doc_id (d : Document) (new_id : str) : Document :=
  mkDocument new_id (source_path d) (doc_type d) (title d) (text d)
    (metadata d) (content_hash d) (mtime d) (ingested_at d).

(** The fields [doc_id], [text] and [metadata] of a chunk are written
    [chunk_doc_id], [chunk_text] and [chunk_metadata]. *)
Record Chunk := mkChunk {
  chunk_id : str;
  chunk_doc_id : str;
  chunk_text : str;
  index : Z;
  start_char : Z;
  end_char : Z;
  chunk_metadata : metadata_t
}.

Record Citation := mkCitation {
  cit_doc_id : str;
  cit_chunk_id : str;
  cit_source_path : str;
  cit_title : str;
  chunk_index : Z;
  snippet : str;
  score : float
}.

(** ** Settings *)

Record ChunkerConfig := mkChunkerConfig {
  chunk_size : Z;
  chunk_overlap : Z
}.

Record ChatConfig := mkChatConfig {
  top_k : Z;
  graph_results : Z;
  snippet_length : Z
}.

(** Knowledge graph defaults: the five fields the [GraphConfig] class of
    config.py declares. *)
Record GraphConfig := mkGraphConfig {
  group_id : str;
  num_results : Z;
  episode_size : Z;
  max_coroutines : Z;
  episode_delay : Z
}.

Record Settings := mkSettings {
  chunker : ChunkerConfig;
  chat : ChatConfig;
  graph : GraphConfig
}.

(** ** The outside world *)

(** A file: its bytes and its modification time. *)
Record File := mkFile {
  content : bytes;
  st_mtime : float
}.

(** A resolved path, as its components below the root. *)
Definition Path := list str.

(** The file system: the regular files and what they hold. *)
Definition FS := list (Path * File).

Inductive Normalizer :=
| normalize_docx
| normalize_pptx
| normalize_text
| normalize_image.

(** What the extraction behind a normalizer yields. *)
Record Extracted := mkExtracted {
  ex_title : str;
  ex_text : str;
  ex_metadata : metadata_t
}.

(** One call of [Graphiti.add_episode]. *)
Record EpisodeRequest := mkEpisodeRequest {
  ep_name : str;
  episode_body : str;
  source_description : str;
  reference_time : datetime;
  ep_group_id : str
}.

(** An edge returned by [Graphiti.search]. *)
Record EntityEdge := mkEntityEdge {
  edge_fact : str;
  source_node_name : str;
  target_node_name : str;
  edge_created_at : option datetime;
  edge_uuid : str
}.

(** A point of the vector collection with its payload. *)
Record Point := mkPoint {
  point_id : str;
  vector : list float;
  p_chunk_id : str;
  p_doc_id : str;
  p_text : str;
  p_index : Z;
  p_metadata : metadata_t
}.

(** What the core does to the outside, in order. *)
Inductive event :=
| EvExtract (n : Normalizer) (path : Path)
| EvEmbedding (input : list str)
| EvAddEpisode (req : EpisodeRequest)
| EvGraphSearch (query : str) (group_ids : list str) (num : Z)
| EvSleep (seconds : Z).

(** The external services.  Each answers as a function of everything the
    core has done so far and of the request. *)
Record World := mkWorld {
  (** [hashlib.sha256(b).hexdigest()] *)
  sha256 : bytes -> str;
  (** [str(uuid.uuid4())]: the [n]-th identifier drawn *)
  uuid4 : nat -> str;
  (** [datetime.now(timezone.utc)] *)
  now : list event -> datetime;
  (** [str(d)] for a [datetime] *)
  datetime_str : datetime -> str;
  (** python-docx, python-pptx, UTF-8 decoding, image transcription *)
  extract : list event -> Normalizer -> FS -> Path -> outcome Extracted;
  (** [litellm.aembedding(model, input)], the embeddings of the reply *)
  aembedding : list event -> list str -> outcome (list (list float));
  (** [Graphiti.add_episode]: the numbers of nodes and edges created *)
  add_episode : list event -> EpisodeRequest -> outcome (Z * Z);
  (** [Graphiti.search] *)
  graphiti_search :
    list event -> str -> list str -> Z -> outcome (list EntityEdge);
  (** Qdrant's [query_points]: the nearest points and their scores *)
  query_points : list Point -> list float -> Z -> list (Point * float)
}.

End Models.

(* ===================================================================== *)
(** * brain.ingest.chunker *)
(* ===================================================================== *)

Module Chunker.
Import PyStr Models.

(** Separators ordered by preference (coarsest to finest):
    ["\n\n", "\n", ". ", " ", ""]. *)
Definition _SEPARATORS : list str :=
  [ [10; 10]; [10]; [46; 32]; [32]; [] ]%N.

(** What [_split_recursive] returns when the text fits. *)
Definition whole (text : str) : list str :=
  if truthy (strip text) then [strip text] else [].

(** Character-level split (last resort). *)
Definition split_chars (text : str) (chunk_size : Z) : option (list str) :=
  match range 0 (len text) chunk_size with
  | None => None
  | Some starts =>
      Some (flat_map
              (fun i => let part := strip (slice text i (i + chunk_size)) in
                        if truthy part then [part] else [])
              starts)
  end.

(** Flushing [current]: the merged segment is appended to [result], or
    split further by [recurse] when it is still too big. *)
Definition flush (recurse : str -> option (list str)) (chunk_size : Z)
    (sep : str) (current result : list str) : option (list str) :=
  let merged := strip (join sep current) in
  if truthy merged then
    if chunk_size <? len merged then
      match recurse merged with
      | Some parts => Some (result ++ parts)
      | None => None
      end
    else Some (result ++ [merged])
  else Some result.

(** The loop variables of [_split_recursive]. *)
Record acc := mkAcc {
  result : list str;
  current : list str;
  current_len : Z
}.

(** One iteration of [for piece in pieces]. *)
Definition step (recurse : str -> option (list str)) (chunk_size : Z)
    (sep : str) (a : acc) (piece : str) : option acc :=
  let piece_len := len piece + len sep in
  if (chunk_size <? current_len a + piece_len)
     && (match current a with [] => false | _ => true end)
  then
    match flush recurse chunk_size sep (current a) (result a) with
    | Some r => Some (mkAcc r [piece] (len piece))
    | None => None
    end
  else Some (mkAcc (result a) (current a ++ [piece])
                   (current_len a + piece_len)).

Fixpoint loop (recurse : str -> option (list str)) (chunk_size : Z)
    (sep : str) (a : acc) (pieces : list str) : option acc :=
  match pieces with
  | [] => Some a
  | piece :: rest =>
      match step recurse chunk_size sep a piece with
      | Some a' => loop recurse chunk_size sep a' rest
      | None => None
      end
  end.

(** The body of [_split_recursive] for a non-empty separator; [recurse] is
    the call on [remaining_seps]. *)
Definition split_on (recurse : str -> option (list str)) (chunk_size : Z)
    (sep : str) (text : str) : option (list str) :=
  match loop recurse chunk_size sep (mkAcc [] [] 0) (split text sep) with
  | None => None
  | Some a =>
      match current a with
      | [] => Some (result a)
      | _ :: _ => flush recurse chunk_size sep (current a) (result a)
      end
  end.

(** The recursion descends the separator list; a one-element list with a
    non-empty separator continues on [[""]]. *)
Definition sep_rank (separators : list str) : nat :=
  match separators with
  | [] => 0
  | [] :: _ => 2 * List.length separators
  | (_ :: _) :: _ => 2 * List.length separators + 1
  end.

Equations? _split_recursive (text : str) (chunk_size : Z)
    (separators : list str) : option (list str)
    by wf (sep_rank separators) lt :=
  _split_recursive text chunk_size separators
    with (len text <=? chunk_size) := {
    | true := Some (whole text)
    | false with separators := {
      | [] := split_chars text chunk_size
      | [] :: _ := split_chars text chunk_size
      | (c :: s) :: [] :=
          split_on (fun merged => _split_recursive merged chunk_size [[]])
                   chunk_size (c :: s) text
      | (c :: s) :: (s' :: rest) :=
          split_on (fun merged =>
                      _split_recursive merged chunk_size (s' :: rest))
                   chunk_size (c :: s) text } }.
Proof.
  all: simpl; destruct s'; simpl; lia.
Qed.

(** The offset loop of [chunk_document]: [i] is the index of the next chunk
    and [offset] the search cursor. *)
Fixpoint locate (uuid4 : nat -> str) (doc_id : str) (text : str)
    (chunk_overlap : Z) (metadata : metadata_t)
    (i : nat) (offset : Z) (raw_chunks : list str) : list Chunk :=
  match raw_chunks with
  | [] => []
  | chunk_text :: rest =>
      let found := find text chunk_text offset in
      let start := if found =? -1 then offset else found in
      let end_ := start + len chunk_text in
      mkChunk (uuid4 i) doc_id chunk_text (Z.of_nat i) start end_ metadata
      :: locate uuid4 doc_id text chunk_overlap metadata (S i)
           (Z.max (start + 1) (end_ - chunk_overlap)) rest
  end.

(** [chunk_document(doc_id, text, chunk_size=, chunk_overlap=, metadata=)].
    [uuid4 i] is the identifier the default factory of [Chunk.chunk_id]
    draws for the [i]-th chunk built by this call; [None] is the
    [ValueError] of [range] with a zero step. *)
Definition chunk_document (uuid4 : nat -> str) (doc_id : str)
    (text : str) (chunk_size chunk_overlap : Z)
    (metadata : option metadata_t) : option (list Chunk) :=
  if negb (truthy (strip text)) then Some []
  else
    match _split_recursive text chunk_size _SEPARATORS with
    | None => None
    | Some raw_chunks =>
        Some (locate uuid4 doc_id text chunk_overlap
                (match metadata with Some m => m | None => [] end)
                0%nat 0 raw_chunks)
    end.

End Chunker.

(* ===================================================================== *)
(** * brain.stores.docstore *)
(* ===================================================================== *)

Module DocStore.
Import PyStr Models.

(** The two SQLite tables, as their rows in insertion order.  A row holds
    the fields of the model object it was written from. *)
Record t := mk {
  documents : list Document;
  chunks : list Chunk
}.

Definition empty : t := mk [] [].

(** [INSERT OR REPLACE INTO documents]: the rows that clash with the new
    one, on the primary key [doc_id] or on the unique index over
    [source_path], are deleted before it is inserted. *)
Definition upsert_document (s : t) (doc : Document) : t :=
  mk (filter (fun d => negb (str_eqb (doc_id d) (doc_id doc))
                       && negb (str_eqb (source_path d) (source_path doc)))
        (documents s)
      ++ [doc])
     (chunks s).

Definition get_document (s : t) (id : str) : option Document :=
  List.find (fun d => str_eqb (doc_id d) id) (documents s).

Definition get_document_by_path (s : t) (path : str) : option Document :=
  List.find (fun d => str_eqb (source_path d) path) (documents s).

Definition is_unchanged (s : t) (path : str) (hash : str) : bool :=
  match List.find (fun d => str_eqb (source_path d) path) (documents s) with
  | Some row => str_eqb (content_hash row) hash
  | None => false
  end.

(** [INSERT OR REPLACE INTO chunks] for one row; the primary key is
    [chunk_id]. *)
Definition upsert_chunk (rows : list Chunk) (c : Chunk) : list Chunk :=
  filter (fun r => negb (str_eqb (chunk_id r) (chunk_id c))) rows ++ [c].

Definition upsert_chunks (s : t) (cs : list Chunk) : t :=
  mk (documents s) (fold_left upsert_chunk cs (chunks s)).

Definition get_chunk (s : t) (id : str) : option Chunk :=
  List.find (fun c => str_eqb (chunk_id c) id) (chunks s).

(** [ORDER BY idx], keeping rows of equal [idx] in table order. *)
Fixpoint insert_by_idx (c : Chunk) (sorted : list Chunk) : list Chunk :=
  match sorted with
  | [] => [c]
  | x :: rest =>
      if index c <=? index x then c :: sorted
      else x :: insert_by_idx c rest
  end.

Definition order_by_idx (rows : list Chunk) : list Chunk :=
  fold_right insert_by_idx [] rows.

Definition get_chunks_for_doc (s : t) (id : str) : list Chunk :=
  order_by_idx (filter (fun c => str_eqb (chunk_doc_id c) id) (chunks s)).

Definition delete_doc_chunks (s : t) (id : str) : t :=
  mk (documents s)
     (filter (fun c => negb (str_eqb (chunk_doc_id c) id)) (chunks s)).

End DocStore.

(* ===================================================================== *)
(** * brain.stores.vectorstore *)
(* ===================================================================== *)

Module VectorStore.
Import PyStr Models.

(** The points of the collection. *)
Definition t := list Point.

(** Upserting a point overwrites the point with the same id. *)
Definition upsert_point (points : t) (p : Point) : t :=
  filter (fun q => negb (str_eqb (point_id q) (point_id p))) points ++ [p].

(** [upsert_chunks(chunks, embeddings)]: one point per pair of the [zip]. *)
Definition upsert_chunks (points : t) (chunks : list Chunk)
    (embeddings : list (list float)) : t :=
  fold_left upsert_point
    (map (fun ce : Chunk * list float =>
            let (chunk, embedding) := ce in
            mkPoint (chunk_id chunk) embedding (chunk_id chunk)
              (chunk_doc_id chunk) (chunk_text chunk) (index chunk)
              (chunk_metadata chunk))
         (combine chunks embeddings))
    points.

(** One result of [search]. *)
Record Hit := mkHit {
  hit_chunk_id : str;
  hit_doc_id : str;
  hit_text : str;
  hit_index : Z;
  hit_score : float;
  hit_metadata : metadata_t
}.

Definition search (w : World) (points : t) (query_embedding : list float)
    (top_k : Z) : list Hit :=
  map (fun r : Point * float =>
         let (p, sc) := r in
         mkHit (p_chunk_id p) (p_doc_id p) (p_text p) (p_index p) sc
           (p_metadata p))
      (query_points w points query_embedding top_k).

Definition delete_by_doc_id (points : t) (id : str) : t :=
  filter (fun q => negb (str_eqb (p_doc_id q) id)) points.

Definition count (points : t) : Z := len points.

End VectorStore.

(* ===================================================================== *)
(** * brain.graph.client *)
(* ===================================================================== *)

Module GraphClient.
Import PyStr Models.

(** The Graphiti instance created by [initialize]. *)
Inductive Graphiti := graphiti_instance.

Record t := mk {
  _graphiti : option Graphiti
}.

Definition is_initialized (g : t) : bool :=
  match _graphiti g with Some _ => true | None => false end.

(** The summary [add_document] returns. *)
Record Summary := mkSummary {
  total_nodes : Z;
  total_edges : Z;
  episodes_processed : Z;
  episodes_failed : Z
}.

(** Split into episodes if the document exceeds [episode_size]. *)
Definition split_blocks (text : str) (episode_size : Z)
  : outcome (list str) :=
  if len text <=? episode_size then Ok [text]
  else
    match range 0 (len text) episode_size with
    | None => Raise ValueError
    | Some starts =>
        Ok (map (fun i => slice text i (i + episode_size)) starts)
    end.

(** The name and description of episode [i] (0-based) of [total]. *)
Definition episode_request (doc : Document) (ref_time : datetime)
    (group : str) (total : Z) (i : Z) (block : str) : EpisodeRequest :=
  let part :=
    str_of_Z (i + 1) ++ of_string "/" ++ str_of_Z total in
  if 1 <? total then
    mkEpisodeRequest
      (title doc ++ of_string " [part " ++ part ++ of_string "]")
      block
      (of_string "Document: " ++ source_path doc
         ++ of_string " (part " ++ part ++ of_string ")")
      ref_time group
  else
    mkEpisodeRequest (title doc) block
      (of_string "Document: " ++ source_path doc) ref_time group.

(** [for attempt in range(1, max_retries + 1)]: [todo] holds the attempt
    numbers still to come.  The result is what the successful call
    returned, or [None] when the episode did not succeed. *)
Fixpoint attempts (w : World) (req : EpisodeRequest)
    (max_retries retry_delay : Z) (todo : list Z) (h : list event)
  : option (Z * Z) * list event :=
  match todo with
  | [] => (None, h)
  | attempt :: rest =>
      let h1 := h ++ [EvAddEpisode req] in
      match add_episode w h req with
      | Ok counts => (Some counts, h1)
      | Raise RateLimitError =>
          if attempt <? max_retries
          then attempts w req max_retries retry_delay rest
                 (h1 ++ [EvSleep retry_delay])
          else attempts w req max_retries retry_delay rest h1
      | Raise _ => (None, h1)  (* non-rate-limit errors don't retry *)
      end
  end.

(** The counters of the loop over the episodes. *)
Record progress := mkProgress {
  nodes_so_far : Z;
  edges_so_far : Z;
  failed : Z
}.

Definition attempt_numbers (max_retries : Z) : list Z :=
  match range 1 (max_retries + 1) 1 with
  | Some l => l
  | None => []
  end.

(** Pause between episodes to respect API rate limits. *)
Definition cooldown (cfg : GraphConfig) (total : Z) (i : nat)
    (h : list event) : list event :=
  if (0 <? Z.of_nat i) && (1 <? total)
  then h ++ [EvSleep (episode_delay cfg)] else h.

(** The integer fields of a [GraphConfig], by name; [group_id], the one
    field left, is a string. *)
Definition int_fields (cfg : GraphConfig) : list (str * Z) :=
  [ (of_string "num_results", num_results cfg);
    (of_string "episode_size", episode_size cfg);
    (of_string "max_coroutines", max_coroutines cfg);
    (of_string "episode_delay", episode_delay cfg) ].

(** [cfg.graph.<name>], for a name other than [group_id]: the value of
    the field.  [GraphConfig] is a plain pydantic model, so reading an
    attribute the class does not declare raises [AttributeError]. *)
Definition getattr (cfg : GraphConfig) (name : str) : outcome Z :=
  match List.find (fun field => str_eqb (fst field) name)
          (int_fields cfg) with
  | Some (_, value) => Ok value
  | None => Raise AttributeError
  end.

(** One iteration of [for i, block in enumerate(blocks)].  The two reads
    that follow the pause, [cfg.graph.max_episode_retries] and
    [cfg.graph.episode_retry_delay], are outside the [try]. *)
Definition episode (w : World) (cfg : GraphConfig) (doc : Document)
    (ref_time : datetime) (group : str) (total : Z) (i : nat) (block : str)
    (p : progress) (h : list event) : outcome progress * list event :=
  let req := episode_request doc ref_time group total (Z.of_nat i) block in
  let h1 := cooldown cfg total i h in
  match getattr cfg (of_string "max_episode_retries") with
  | Raise e => (Raise e, h1)
  | Ok max_retries =>
      match getattr cfg (of_string "episode_retry_delay") with
      | Raise e => (Raise e, h1)
      | Ok retry_delay =>
          match attempts w req max_retries retry_delay
                  (attempt_numbers max_retries) h1 with
          | (Some (n, e), h2) =>
              (Ok (mkProgress (nodes_so_far p + n) (edges_so_far p + e)
                     (failed p)),
               h2)
          | (None, h2) =>
              (Ok (mkProgress (nodes_so_far p) (edges_so_far p)
                     (failed p + 1)),
               h2)
          end
      end
  end.

Fixpoint episodes (w : World) (cfg : GraphConfig) (doc : Document)
    (ref_time : datetime) (group : str) (total : Z) (i : nat)
    (blocks : list str) (p : progress) (h : list event)
  : outcome progress * list event :=
  match blocks with
  | [] => (Ok p, h)
  | block :: rest =>
      match episode w cfg doc ref_time group total i block p h with
      | (Raise e, h') => (Raise e, h')
      | (Ok p', h') =>
          episodes w cfg doc ref_time group total (S i) rest p' h'
      end
  end.

(** [GraphClient.add_document(doc, group_id=...)] *)
Definition add_document (w : World) (cfg : GraphConfig) (g : t)
    (doc : Document) (group_id_arg : option str) (h : list event)
  : outcome Summary * list event :=
  match _graphiti g with
  | None => (Raise RuntimeError, h)
  | Some _ =>
      let group :=
        match group_id_arg with Some x => x | None => group_id cfg end in
      let ref_time :=
        if tz_aware (ingested_at doc) then ingested_at doc
        else mkDatetime (instant (ingested_at doc)) true in
      match split_blocks (text doc) (episode_size cfg) with
      | Raise e => (Raise e, h)
      | Ok blocks =>
          let total_episodes := len blocks in
          match episodes w cfg doc ref_time group total_episodes 0 blocks
                  (mkProgress 0 0 0) h with
          | (Raise e, h') => (Raise e, h')
          | (Ok p, h') =>
              (Ok (mkSummary (nodes_so_far p) (edges_so_far p)
                     (total_episodes - failed p) (failed p)),
               h')
          end
      end
  end.

(** A fact of the knowledge graph, as [search] returns it. *)
Record GraphFact := mkGraphFact {
  fact : str;
  source_node : str;
  target_node : str;
  created_at : option str;
  fact_uuid : str
}.

(** [GraphClient.search(query, group_id=..., num_results=...)] *)
Definition search (w : World) (cfg : GraphConfig) (g : t) (query : str)
    (group_id_arg : option str) (num_results_arg : option Z)
    (h : list event) : outcome (list GraphFact) * list event :=
  match _graphiti g with
  | None => (Raise RuntimeError, h)
  | Some _ =>
      let group :=
        match group_id_arg with Some x => x | None => group_id cfg end in
      let num :=
        match num_results_arg with Some n => n | None => num_results cfg end in
      let h1 := h ++ [EvGraphSearch query [group] num] in
      match graphiti_search w h query [group] num with
      | Raise e => (Raise e, h1)
      | Ok edges =>
          (Ok (map (fun edge =>
                      mkGraphFact (edge_fact edge) (source_node_name edge)
                        (target_node_name edge)
                        (option_map (datetime_str w) (edge_created_at edge))
                        (edge_uuid edge))
                   edges),
           h1)
      end
  end.

End GraphClient.

(* ===================================================================== *)
(** * brain.ingest.normalizers, brain.llm and brain.ingest.pipeline *)
(* ===================================================================== *)

Module Pipeline.
Import PyStr Models.

(** ** Paths *)

(** [str(path)] *)
Definition path_str (p : Path) : str :=
  match p with
  | [] => of_string "/"
  | _ :: _ => flat_map (fun part => of_string "/" ++ part) p
  end.

Fixpoint path_eqb (a b : Path) : bool :=
  match a, b with
  | [], [] => true
  | x :: a', y :: b' => str_eqb x y && path_eqb a' b'
  | _, _ => false
  end.

(** [a < b] on paths: component by component. *)
Fixpoint path_ltb (a b : Path) : bool :=
  match a, b with
  | _, [] => false
  | [], _ :: _ => true
  | x :: a', y :: b' => str_ltb x y || (str_eqb x y && path_ltb a' b')
  end.

(** The position of the last ['.'] of a name, counted from [pos]. *)
Fixpoint rfind_dot (name : str) (pos : nat) : option nat :=
  match name with
  | [] => None
  | c :: rest =>
      match rfind_dot rest (S pos) with
      | Some i => Some i
      | None => if (c =? 46)%N then Some pos else None
      end
  end.

(** [path.suffix] *)
Definition suffix (p : Path) : str :=
  let name := last p [] in
  match rfind_dot name 0 with
  | Some i =>
      if (0 <? i)%nat && (i <? List.length name - 1)%nat
      then skipn i name else []
  | None => []
  end.

Definition fs_lookup (fs : FS) (p : Path) : option File :=
  option_map snd (List.find (fun e => path_eqb (fst e) p) fs).

(** [p] lies below [folder]. *)
Fixpoint is_under (folder p : Path) : bool :=
  match folder, p with
  | [], _ :: _ => true
  | x :: f', y :: p' => str_eqb x y && is_under f' p'
  | _, _ => false
  end.

(** The regular files among [folder.rglob("*")]. *)
Definition rglob_files (fs : FS) (folder : Path) : list Path :=
  filter (is_under folder) (map fst fs).

(** [sorted(paths)] *)
Fixpoint insert_path (p : Path) (sorted : list Path) : list Path :=
  match sorted with
  | [] => [p]
  | x :: rest =>
      if path_ltb x p then x :: insert_path p rest else p :: sorted
  end.

Definition sorted (paths : list Path) : list Path :=
  fold_right insert_path [] paths.

(** ** Normalizers *)

(** Dispatch table *)
Definition NORMALIZERS : list (str * Normalizer) :=
  [ (of_string ".docx", normalize_docx);
    (of_string ".pptx", normalize_pptx);
    (of_string ".txt", normalize_text);
    (of_string ".md", normalize_text);
    (of_string ".csv", normalize_text);
    (of_string ".json", normalize_text);
    (of_string ".yaml", normalize_text);
    (of_string ".yml", normalize_text);
    (of_string ".png", normalize_image);
    (of_string ".jpg", normalize_image);
    (of_string ".jpeg", normalize_image);
    (of_string ".webp", normalize_image);
    (of_string ".heic", normalize_image) ].

(** [NORMALIZERS.get(key)] *)
Definition normalizers_get (key : str) : option Normalizer :=
  option_map snd (List.find (fun e => str_eqb (fst e) key) NORMALIZERS).

Definition get_normalizer (path : Path) : option Normalizer :=
  normalizers_get (lower (suffix path)).

Definition doc_type_of (n : Normalizer) : DocType :=
  match n with
  | normalize_docx => DOCX
  | normalize_pptx => PPTX
  | normalize_text => TEXT
  | normalize_image => IMAGE
  end.

(** [Document.compute_hash]: SHA-256 of the source file content. *)
Definition compute_hash (w : World) (fs : FS) (path : Path) (d : Document)
  : Document :=
  match fs_lookup fs path with
  | Some f =>
      mkDocument (doc_id d) (source_path d) (doc_type d) (title d) (text d)
        (metadata d) (sha256 w (content f)) (st_mtime f) (ingested_at d)
  | None => d
  end.

(** ** State and effects *)

(** What a run threads along: the two stores, what has been done to the
    outside so far, and how many identifiers have been drawn. *)
Record State := mkState {
  docstore : DocStore.t;
  vectorstore : option VectorStore.t;
  history : list event;
  drawn : nat
}.

Definition M (A : Type) : Type := State -> outcome A * State.

Definition ret {A} (a : A) : M A := fun s => (Ok a, s).

Definition raise {A} (e : exn) : M A := fun s => (Raise e, s).

Definition bind {A B} (m : M A) (k : A -> M B) : M B :=
  fun s =>
    match m s with
    | (Ok a, s') => k a s'
    | (Raise e, s') => (Raise e, s')
    end.

Notation "x <- m ;; k" := (bind m (fun x => k))
  (at level 61, m at next level, right associativity).
Notation "m ;;; k" := (bind m (fun _ => k))
  (at level 61, right associativity).

Definition get_docstore : M DocStore.t := fun s => (Ok (docstore s), s).

Definition update_docstore (f : DocStore.t -> DocStore.t) : M unit :=
  fun s => (Ok tt, mkState (f (docstore s)) (vectorstore s) (history s)
                     (drawn s)).

(** An operation on the vector store, when one was passed. *)
Definition update_vectorstore (f : VectorStore.t -> VectorStore.t)
  : M unit :=
  fun s => (Ok tt, mkState (docstore s) (option_map f (vectorstore s))
                     (history s) (drawn s)).

Definition record (e : event) (s : State) : State :=
  mkState (docstore s) (vectorstore s) (history s ++ [e]) (drawn s).

Definition set_history (h : list event) (s : State) : State :=
  mkState (docstore s) (vectorstore s) h (drawn s).

Definition draw (n : nat) (s : State) : State :=
  mkState (docstore s) (vectorstore s) (history s) (drawn s + n).

(** [path.read_bytes()] *)
Definition read_bytes (fs : FS) (path : Path) : M bytes :=
  fun s =>
    match fs_lookup fs path with
    | Some f => (Ok (content f), s)
    | None => (Raise FileNotFoundError, s)
    end.

(** A normalizer: the extraction, then the [Document] with a fresh
    [doc_id], then [compute_hash]. *)
Definition run_normalizer (w : World) (fs : FS) (n : Normalizer)
    (path : Path) : M Document :=
  fun s =>
    let s1 := record (EvExtract n path) s in
    match extract w (history s) n fs path with
    | Raise e => (Raise e, s1)
    | Ok ex =>
        let d := mkDocument (uuid4 w (drawn s)) (path_str path)
                   (doc_type_of n) (ex_title ex) (ex_text ex)
                   (ex_metadata ex) [] 0%float (now w (history s1)) in
        (Ok (compute_hash w fs path d), draw 1 s1)
    end.

(** ** brain.llm.embed *)

Definition batch_size : Z := 128.

Definition aembedding_call (w : World) (input : list str)
  : M (list (list float)) :=
  fun s =>
    match aembedding w (history s) input with
    | Ok v => (Ok v, record (EvEmbedding input) s)
    | Raise e => (Raise e, record (EvEmbedding input) s)
    end.

Fixpoint embed_batches (w : World) (batches : list (list str))
    (all_embeddings : list (list float)) : M (list (list float)) :=
  match batches with
  | [] => ret all_embeddings
  | batch :: rest =>
      r <- aembedding_call w batch ;;
      embed_batches w rest (all_embeddings ++ r)
  end.

Definition embed (w : World) (texts : list str) : M (list (list float)) :=
  if len texts <=? batch_size then aembedding_call w texts
  else
    match range 0 (len texts) batch_size with
    | None => raise ValueError
    | Some starts =>
        embed_batches w
          (map (fun i => slice texts i (i + batch_size)) starts) []
    end.

(** ** ingest_file *)

(** Check if file has changed since last ingestion. *)
Definition check_unchanged (w : World) (fs : FS) (path : Path)
    (force : bool) : M bool :=
  if force then ret false
  else
    data <- read_bytes fs path ;;
    store <- get_docstore ;;
    ret (DocStore.is_unchanged store (path_str path) (sha256 w data)).

(** Check for re-ingestion: if this path was previously ingested, reuse the
    [doc_id] and clean up old chunks/vectors. *)
Definition reuse_existing (path : Path) (doc : Document) : M Document :=
  store <- get_docstore ;;
  match DocStore.get_document_by_path store (path_str path) with
  | Some existing =>
      update_docstore
        (fun d => DocStore.delete_doc_chunks d (doc_id existing)) ;;;
      update_vectorstore
        (fun v => VectorStore.delete_by_doc_id v (doc_id existing)) ;;;
      ret (set_doc_id doc (doc_id existing))
  | None => ret doc
  end.

(** Chunk: every chunk built draws its [chunk_id]. *)
Definition chunk_step (w : World) (cfg : ChunkerConfig) (doc : Document)
  : M (list Chunk) :=
  fun s =>
    match Chunker.chunk_document (fun i => uuid4 w (drawn s + i))
            (doc_id doc) (text doc) (chunk_size cfg) (chunk_overlap cfg)
            (Some [ (of_string "source_path", source_path doc);
                    (of_string "doc_type", doc_type_value (doc_type doc)) ])
    with
    | Some chunks => (Ok chunks, draw (List.length chunks) s)
    | None => (Raise ValueError, s)
    end.

(** Store text + metadata. *)
Definition persist_step (doc : Document) (chunks : list Chunk) : M unit :=
  update_docstore (fun d => DocStore.upsert_document d doc) ;;;
  update_docstore (fun d => DocStore.upsert_chunks d chunks).

(** Embed and store vectors. *)
Definition embed_step (w : World) (chunks : list Chunk) : M unit :=
  fun s =>
    match vectorstore s, chunks with
    | Some _, _ :: _ =>
        (embeddings <- embed w (map chunk_text chunks) ;;
         update_vectorstore
           (fun v => VectorStore.upsert_chunks v chunks embeddings)) s
    | _, _ => (Ok tt, s)
    end.

(** Graph extraction (after vector store, so retrieval works even if graph
    fails): whatever [add_document] raises is logged and dropped. *)
Definition graph_step (w : World) (cfg : GraphConfig)
    (graph_client : option GraphClient.t) (doc : Document) : M unit :=
  fun s =>
    match graph_client with
    | Some g =>
        if GraphClient.is_initialized g then
          match GraphClient.add_document w cfg g doc None (history s) with
          | (Ok _, h) => (Ok tt, set_history h s)
          | (Raise _, h) => (Ok tt, set_history h s)
          end
        else (Ok tt, s)
    | None => (Ok tt, s)
    end.

(** The work of [ingest_file] once the file is known to need it, up to and
    including the vector write. *)
Definition ingest_steps (w : World) (cfg : Settings) (fs : FS)
    (normalizer : Normalizer) (path : Path) : M (Document * list Chunk) :=
  doc <- run_normalizer w fs normalizer path ;;
  doc <- reuse_existing path doc ;;
  chunks <- chunk_step w (chunker cfg) doc ;;
  persist_step doc chunks ;;;
  embed_step w chunks ;;;
  ret (doc, chunks).

(** [ingest_file(path, docstore, vectorstore, graph_client, force=...)]:
    the [Document] if ingested, [None] if skipped.  [path] is resolved. *)
Definition ingest_file (w : World) (cfg : Settings) (fs : FS) (path : Path)
    (graph_client : option GraphClient.t) (force : bool)
  : M (option Document) :=
  match get_normalizer path with
  | None => ret None
  | Some normalizer =>
      unchanged <- check_unchanged w fs path force ;;
      if unchanged then ret None
      else
        dc <- ingest_steps w cfg fs normalizer path ;;
        graph_step w (graph cfg) graph_client (fst dc) ;;;
        ret (Some (fst dc))
  end.

(** ** ingest_folder *)

Definition supported_files (fs : FS) (folder : Path) : list Path :=
  sorted (filter (fun p => match normalizers_get (lower (suffix p)) with
                           | Some _ => true
                           | None => false
                           end)
            (rglob_files fs folder)).

(** [for path in supported_files] *)
Fixpoint ingest_files (w : World) (cfg : Settings) (fs : FS)
    (graph_client : option GraphClient.t) (force : bool)
    (paths : list Path) (docs : list Document) : M (list Document) :=
  match paths with
  | [] => ret docs
  | path :: rest =>
      doc <- ingest_file w cfg fs path graph_client force ;;
      ingest_files w cfg fs graph_client force rest
        (match doc with Some d => docs ++ [d] | None => docs end)
  end.

(** [ingest_folder(folder, docstore, vectorstore, graph_client, force=...)]:
    the list of ingested documents (skipped files are excluded). *)
Definition ingest_folder (w : World) (cfg : Settings) (fs : FS)
    (folder : Path) (graph_client : option GraphClient.t) (force : bool)
  : M (list Document) :=
  ingest_files w cfg fs graph_client force (supported_files fs folder) [].

End Pipeline.

(* ===================================================================== *)
(** * brain.chat.retriever *)
(* ===================================================================== *)

Module Retriever.
Import PyStr Models Pipeline.

(** [retrieve_chunks(query, vectorstore, docstore, top_k=...)]: embed the
    query, search the vector store, and build the citations.  The list
    [[query]] is below the batch size of [embed], which therefore makes a
    single embedding call. *)
Definition retrieve_chunks (w : World) (cfg : Settings) (query : str)
    (points : VectorStore.t) (store : DocStore.t) (top_k_arg : option Z)
    (h : list event) : outcome (list Citation) * list event :=
  let k := match top_k_arg with Some k => k | None => top_k (chat cfg) end in
  let snippet_len := snippet_length (chat cfg) in
  let h1 := h ++ [EvEmbedding [query]] in
  match aembedding w h [query] with
  | Raise e => (Raise e, h1)
  | Ok [] => (Raise IndexError, h1)
  | Ok (query_emb :: _) =>
      let results := VectorStore.search w points query_emb k in
      (Ok (map (fun r =>
                  let doc := DocStore.get_document store
                               (VectorStore.hit_doc_id r) in
                  mkCitation
                    (VectorStore.hit_doc_id r)
                    (VectorStore.hit_chunk_id r)
                    (match doc with Some d => source_path d | None => [] end)
                    (match doc with Some d => title d | None => [] end)
                    (VectorStore.hit_index r)
                    (slice (VectorStore.hit_text r) 0 snippet_len)
                    (VectorStore.hit_score r))
               results),
       h1)
  end.

(** [retrieve_fusion(query, vectorstore, docstore, graph_client, ...)]:
    the citations from vector search and the facts from graph search. *)
Definition retrieve_fusion (w : World) (cfg : Settings) (query : str)
    (points : VectorStore.t) (store : DocStore.t) (graph_client : GraphClient.t)
    (top_k_arg graph_results_arg : option Z) (h : list event)
  : outcome (list Citation * list GraphClient.GraphFact) * list event :=
  let n := match graph_results_arg with
           | Some n => n
           | None => graph_results (chat cfg)
           end in
  match retrieve_chunks w cfg query points store top_k_arg h with
  | (Raise e, h1) => (Raise e, h1)
  | (Ok citations, h1) =>
      if GraphClient.is_initialized graph_client then
        match GraphClient.search w (graph cfg) graph_client query None
                (Some n) h1 with
        | (Raise e, h2) => (Raise e, h2)
        | (Ok graph_facts, h2) => (Ok (citations, graph_facts), h2)
        end
      else (Ok (citations, []), h1)
  end.

End Retriever.


(* ===================================================================== *)
(** * brain.config: the settings of the model calls *)
(* ===================================================================== *)

Module Config.
Import PyStr Models.

(** One named LLM configuration profile. *)
Record LLMProfile := mkLLMProfile {
  chat_model : str;
  embed_model : str;
  embed_dim : Z;
  graph_extract_model : str;
  graph_extract_small_model : str;
  vision_model : str;
  temperature : float;
  max_tokens : Z
}.

(** System prompts used by the chat engine. *)
Record PromptsConfig := mkPromptsConfig {
  system_prompt : str;
  system_prompt_fusion : str
}.

End Config.

(* ===================================================================== *)
(** * brain.graph.bridge *)
(* ===================================================================== *)

Module Bridge.
Import PyStr Models Config.

(** [sub in text] *)
Definition contains (text sub : str) : bool :=
  match find_from sub text 0 with
  | Some _ => true
  | None => false
  end.

(** [text.split(sep, 1)], for a separator that is not empty: the text cut
    at the leftmost occurrence of [sep], or the text alone.  [cur] is the
    part read so far, in reverse. *)
Fixpoint split_once (sep : str) (cur : str) (text : str) : list str :=
  if is_prefix sep text then [rev cur; skipn (List.length sep) text]
  else match text with
       | [] => [rev cur]
       | c :: rest => split_once sep (c :: cur) rest
       end.

(** Split ['provider/model-name'] into [('provider', 'model-name')].  The
    unpacking of the split raises [ValueError] unless it has two parts.
    [str_lower] is Python's [str.lower]: the provider can hold any letter
    and is returned, so the case mapping of the interpreter's Unicode
    tables is taken as it is given. *)
Definition _parse_provider_model (str_lower : str -> str)
    (litellm_model : str) : outcome (str * str) :=
  if contains litellm_model (of_string "/") then
    match split_once (of_string "/") [] litellm_model with
    | [provider; model] => Ok (str_lower provider, model)
    | _ => Raise ValueError
    end
  else Ok (of_string "openai", litellm_model).

(** [os.environ.get] *)
Definition Environ : Type := str -> option str.

(** Graphiti's [LLMConfig], with the arguments the bridge passes. *)
Record LLMConfig := mkLLMConfig {
  llm_base_url : option str;
  llm_api_key : option str;
  llm_model : str;
  llm_small_model : str
}.

(** The Graphiti LLM clients the bridge can build. *)
Inductive LLMClient :=
| AnthropicClient (config : LLMConfig)
| OpenAIClient (config : LLMConfig)
| GroqClient (config : LLMConfig).

(** [build_graphiti_llm_client(profile)], for the profile in force. *)
Definition build_graphiti_llm_client (str_lower : str -> str)
    (environ : Environ) (profile : LLMProfile) : outcome LLMClient :=
  match _parse_provider_model str_lower (graph_extract_model profile) with
  | Raise e => Raise e
  | Ok (provider, model) =>
      match _parse_provider_model str_lower
              (graph_extract_small_model profile) with
      | Raise e => Raise e
      | Ok (_, small_model) =>
          if str_eqb provider (of_string "anthropic") then
            Ok (AnthropicClient
                  (mkLLMConfig None (environ (of_string "ANTHROPIC_API_KEY"))
                     model small_model))
          else if str_eqb provider (of_string "openai") then
            Ok (OpenAIClient
                  (mkLLMConfig None (environ (of_string "OPENAI_API_KEY"))
                     model small_model))
          else if str_eqb provider (of_string "ollama")
                  || str_eqb provider (of_string "ollama_chat") then
            Ok (OpenAIClient
                  (mkLLMConfig (Some (of_string "http://localhost:11434/v1"))
                     (Some (of_string "ollama")) model small_model))
          else if str_eqb provider (of_string "groq") then
            Ok (GroqClient
                  (mkLLMConfig None (environ (of_string "GROQ_API_KEY"))
                     model small_model))
          else Raise ValueError
      end
  end.

(** The embedder configurations of Graphiti, with the arguments the bridge
    passes. *)
Record EmbedderConfig := mkEmbedderConfig {
  emb_base_url : option str;
  emb_api_key : option str;
  embedding_model : str;
  embedding_dim : option Z
}.

(** The Graphiti embedders the bridge can build. *)
Inductive Embedder :=
| VoyageAIEmbedder (config : EmbedderConfig)
| OpenAIEmbedder (config : EmbedderConfig).

(** [build_graphiti_embedder(profile)], for the profile in force. *)
Definition build_graphiti_embedder (str_lower : str -> str)
    (environ : Environ) (profile : LLMProfile) : outcome Embedder :=
  match _parse_provider_model str_lower (embed_model profile) with
  | Raise e => Raise e
  | Ok (provider, model) =>
      if str_eqb provider (of_string "voyage") then
        Ok (VoyageAIEmbedder
              (mkEmbedderConfig None (environ (of_string "VOYAGE_API_KEY"))
                 model None))
      else if str_eqb provider (of_string "openai") then
        Ok (OpenAIEmbedder
              (mkEmbedderConfig None (environ (of_string "OPENAI_API_KEY"))
                 model (Some (embed_dim profile))))
      else if str_eqb provider (of_string "ollama")
              || str_eqb provider (of_string "ollama_chat") then
        Ok (OpenAIEmbedder
              (mkEmbedderConfig (Some (of_string "http://localhost:11434/v1"))
                 (Some (of_string "ollama")) model
                 (Some (embed_dim profile))))
      else Raise ValueError
  end.

End Bridge.

(* ===================================================================== *)
(** * brain.llm.complete and brain.chat.engine *)
(* ===================================================================== *)

Module Engine.
Import PyStr Models Config Retriever.

(** A chat message: [{"role": ..., "content": ...}]. *)
Record Message := mkMessage {
  msg_role : str;
  msg_content : str
}.

(** What [litellm.acompletion] is called with. *)
Record CompletionRequest := mkCompletionRequest {
  req_model : str;
  req_messages : list Message;
  req_temperature : float;
  req_max_tokens : Z;
  req_stream : bool
}.

(** The completion service.  It answers as a function of what the core has
    asked of the outside so far, of the requests it has received and of
    the request: with the content of the reply, or, when streaming, with
    the [delta.content] of every piece of the reply. *)
Record LLM := mkLLM {
  acompletion :
    list event -> list CompletionRequest -> CompletionRequest -> outcome str;
  acompletion_stream :
    list event -> list CompletionRequest -> CompletionRequest ->
    outcome (list (option str))
}.

(** [str | AsyncIterator[str]] *)
Inductive Answer :=
| Text (content : str)
| Iterator (pieces : list str).

(** [llm.complete(messages, stream=...)], with the profile in force:
    [sent] is the list of the requests sent so far. *)
Definition complete (service : LLM) (profile : LLMProfile)
    (messages : list Message) (stream : bool)
    (h : list event) (sent : list CompletionRequest)
  : outcome Answer * list CompletionRequest :=
  let req := mkCompletionRequest (chat_model profile) messages
               (temperature profile) (max_tokens profile) stream in
  let sent1 := sent ++ [req] in
  if stream then
    match acompletion_stream service h sent req with
    | Raise e => (Raise e, sent1)
    | Ok deltas =>
        (Ok (Iterator
               (flat_map (fun delta =>
                            match delta with
                            | Some d => if truthy d then [d] else []
                            | None => []
                            end)
                  deltas)),
         sent1)
    end
  else
    match acompletion service h sent req with
    | Raise e => (Raise e, sent1)
    | Ok content => (Ok (Text content), sent1)
    end.

(** [enumerate(items, start)] *)
Fixpoint enumerate {A} (items : list A) (start : Z) : list (Z * A) :=
  match items with
  | [] => []
  | x :: rest => (start, x) :: enumerate rest (start + 1)
  end.

Definition newline : str := [10%N].

(** The arrow of the graph parts, U+2192. *)
Definition arrow : str := [8594%N].

(** [f"[D{i}] ({source}):\n{c.snippet}"] *)
Definition document_part (ic : Z * Citation) : str :=
  let (i, c) := ic in
  let source := if truthy (cit_title c) then cit_title c
                else cit_source_path c in
  of_string "[D" ++ str_of_Z i ++ of_string "] (" ++ source
    ++ of_string "):" ++ newline ++ snippet c.

(** [f"[G{i}] {gf['source_node']} -> {gf['target_node']}: {gf['fact']}"],
    the arrow being U+2192 *)
Definition graph_part (igf : Z * GraphClient.GraphFact) : str :=
  let (i, gf) := igf in
  of_string "[G" ++ str_of_Z i ++ of_string "] "
    ++ GraphClient.source_node gf ++ of_string " " ++ arrow ++ of_string " "
    ++ GraphClient.target_node gf ++ of_string ": " ++ GraphClient.fact gf.

(** Format citations and graph facts as a numbered context block. *)
Definition _build_context (citations : list Citation)
    (graph_facts : option (list GraphClient.GraphFact)) : str :=
  let parts := map document_part (enumerate citations 1) in
  let parts :=
    match graph_facts with
    | Some ((_ :: _) as gfs) => parts ++ map graph_part (enumerate gfs 1)
    | _ => parts
    end in
  join (newline ++ newline) parts.

(** [chat(query, vectorstore, docstore, graph_client=..., history=...,
    top_k=..., stream=...)]: the answer, the citations and the graph
    facts.  [h] is what has been asked of the outside so far and [sent]
    the completion requests sent so far. *)
Definition chat (w : World) (service : LLM) (cfg : Settings)
    (prompts : PromptsConfig) (profile : LLMProfile) (query : str)
    (points : VectorStore.t) (store : DocStore.t)
    (graph_client : option GraphClient.t)
    (history_arg : option (list Message)) (top_k_arg : option Z)
    (stream : bool) (h : list event) (sent : list CompletionRequest)
  : outcome (Answer * list Citation * list GraphClient.GraphFact)
    * list event * list CompletionRequest :=
  (* [if graph_client and graph_client.is_initialized] *)
  let usable :=
    match graph_client with
    | Some g => if GraphClient.is_initialized g then Some g else None
    | None => None
    end in
  let retrieved :=
    match usable with
    | Some g =>
        (retrieve_fusion w cfg query points store g top_k_arg None h,
         system_prompt_fusion prompts)
    | None =>
        (match retrieve_chunks w cfg query points store top_k_arg h with
         | (Ok citations, h1) => (Ok (citations, []), h1)
         | (Raise e, h1) => (Raise e, h1)
         end,
         system_prompt prompts)
    end in
  match retrieved with
  | ((Raise e, h1), _) => (Raise e, h1, sent)
  | ((Ok (citations, graph_facts), h1), system) =>
      let context := _build_context citations (Some graph_facts) in
      let messages :=
        [mkMessage (of_string "system") system]
        ++ match history_arg with
           | Some ((_ :: _) as past) => past
           | _ => []
           end
        ++ [mkMessage (of_string "user")
              (of_string "Context:" ++ newline ++ context ++ newline
                 ++ newline ++ of_string "Question: " ++ query)] in
      match complete service profile messages stream h1 sent with
      | (Raise e, sent1) => (Raise e, h1, sent1)
      | (Ok answer, sent1) => (Ok (answer, citations, graph_facts), h1, sent1)
      end
  end.

End Engine.

(* ===================================================================== *)
(** * Predicates used to state the properties *)
(* ===================================================================== *)

Module Spec.
Import PyStr Models Chunker Pipeline.

(** [scattered cs t]: the strings [cs] occur in [t] one after the other,
    without overlapping, possibly with gaps between them. *)
Inductive scattered : list str -> str -> Prop :=
| scattered_nil : forall t, scattered [] t
| scattered_cons : forall gap c cs t,
    scattered cs t -> scattered (c :: cs) (gap ++ c ++ t).

(** The span of a chunk lies inside a text of length [n] and is not empty. *)
Definition span_ok (n : Z) (c : Chunk) : Prop :=
  0 <= start_char c /\ start_char c < end_char c /\ end_char c <= n.

(** The indices of [chunks] are [0, 1, ..., n-1] in list order. *)
Definition contiguous (chunks : list Chunk) : Prop :=
  map index chunks = map Z.of_nat (seq 0 (List.length chunks)).

(** The pieces returned for [text] are non-empty and scattered in it. *)
Definition pieces_of (text : str) (parts : list str) : Prop :=
  scattered parts text /\ Forall (fun p => truthy p = true) parts.

(** What a level of the separator cascade returns is made of such pieces. *)
Definition sound (f : str -> option (list str)) : Prop :=
  forall text parts, f text = Some parts -> pieces_of text parts.

(** A level of the cascade that never raises. *)
Definition total (f : str -> option (list str)) : Prop :=
  forall text, exists parts, f text = Some parts.

(** What one step of the character-level split contributes. *)
Definition char_part (text : str) (chunk_size i : Z) : list str :=
  let part := strip (slice text i (i + chunk_size)) in
  if truthy part then [part] else [].

(** The invariant of the loop over the pieces of one separator, after the
    pieces [done]: the flushed segments cover a prefix [A] of the text read
    so far, and [current] holds the rest of it. *)
Definition level_inv (sep : str) (done : list str) (a : acc) : Prop :=
  exists A,
    pieces_of A (result a)
    /\ join sep done = A ++ join sep (current a)
    /\ (current a = [] <-> done = []).

(** Two states with the same stores and the same identifier count. *)
Definition same_stores (s s' : State) : Prop :=
  docstore s' = docstore s /\ vectorstore s' = vectorstore s
  /\ drawn s' = drawn s.

(** The stores the new document, chunks and vectors are written to: the
    old chunks and vectors of the path's document, when there is one, are
    gone. *)
Definition cleaned_docstore (s : State) (path : Path) : DocStore.t :=
  match DocStore.get_document_by_path (docstore s) (path_str path) with
  | Some existing => DocStore.delete_doc_chunks (docstore s) (doc_id existing)
  | None => docstore s
  end.

Definition cleaned_vectorstore (s : State) (path : Path)
  : option VectorStore.t :=
  match DocStore.get_document_by_path (docstore s) (path_str path) with
  | Some existing =>
      option_map (fun v => VectorStore.delete_by_doc_id v (doc_id existing))
        (vectorstore s)
  | None => vectorstore s
  end.

(** The ceiling of [a / b], for a positive [b]. *)
Definition ceil_div (a b : Z) : Z := - ((- a) / b).

(** [n] calls of [add_episode] for [req], with a sleep of [delay] between
    each call and the next. *)
Fixpoint retry_trace (req : EpisodeRequest) (delay : Z) (n : nat)
  : list event :=
  match n with
  | O => []
  | S O => [EvAddEpisode req]
  | S m => EvAddEpisode req :: EvSleep delay :: retry_trace req delay m
  end.

(** How many [add_episode] calls, and how many sleeps, a history holds. *)
Definition count_calls (h : list event) : nat :=
  List.length
    (filter (fun e => match e with EvAddEpisode _ => true | _ => false end)
       h).

Definition count_sleeps (h : list event) : nat :=
  List.length
    (filter (fun e => match e with EvSleep _ => true | _ => false end) h).

End Spec.

(* ===================================================================== *)
(** * Concrete worlds and inputs *)
(* ===================================================================== *)

Module Examples.
Import PyStr Models.

(** A world whose services all answer: identifiers are ["0"], ["1"], ...,
    a file extracts to its name as title and its bytes as text, every text
    embeds to the same vector and every point is a hit. *)
Definition quiet_world : World :=
  mkWorld
    (fun data => map Byte.to_N data)
    (fun n => str_of_Z (Z.of_nat n))
    (fun _ => mkDatetime 0 true)
    (fun _ => of_string "1970-01-01 00:00:00+00:00")
    (fun _ _ fs path =>
       match Pipeline.fs_lookup fs path with
       | Some f =>
           Ok (mkExtracted (last path []) (map Byte.to_N (content f)) [])
       | None => Raise FileNotFoundError
       end)
    (fun _ input => Ok (map (fun _ => [0%float]) input))
    (fun _ _ => Ok (1, 1))
    (fun _ _ _ _ => Ok [])
    (fun points _ _ => map (fun p => (p, 1%float)) points).

(** The same world with a graph backend that is always rate limited. *)
Definition rate_limited_world : World :=
  let w := quiet_world in
  mkWorld (sha256 w) (uuid4 w) (now w) (datetime_str w) (extract w)
    (aembedding w) (fun _ _ => Raise RateLimitError) (graphiti_search w)
    (query_points w).

(** A world in which the extraction of [a.txt] fails. *)
Definition failing_world : World :=
  let w := quiet_world in
  mkWorld (sha256 w) (uuid4 w) (now w) (datetime_str w)
    (fun h n fs path =>
       if str_eqb (last path []) (of_string "a.txt")
       then Raise (ServiceError (of_string "cannot decode"))
       else extract w h n fs path)
    (aembedding w) (add_episode w) (graphiti_search w) (query_points w).

Definition a_txt : Path := [of_string "notes"; of_string "a.txt"].
Definition b_txt : Path := [of_string "notes"; of_string "b.txt"].

Definition file_of (s : string) : File :=
  mkFile (map (fun c => match Byte.of_N c with Some b => b | None => x00 end)
            (of_string s))
         0%float.

(** A folder with two text files. *)
Definition two_files : FS :=
  [ (b_txt, file_of "beta beta"); (a_txt, file_of "alpha") ].

(** The same folder after [b.txt] was edited. *)
Definition two_files_edited : FS :=
  [ (b_txt, file_of "gamma delta epsilon"); (a_txt, file_of "alpha") ].

Definition start : Pipeline.State :=
  Pipeline.mkState DocStore.empty (Some []) [] 0.

Definition graph_config (size : Z) : GraphConfig :=
  mkGraphConfig (of_string "brain") 10 size 3 15.

Definition settings (chunk size : Z) : Settings :=
  mkSettings (mkChunkerConfig chunk 0) (mkChatConfig 5 10 300)
    (graph_config size).

Definition note : Document :=
  mkDocument (of_string "doc-1") (of_string "/notes/a.txt") TEXT
    (of_string "a") (of_string "alpha beta gamma") [] [] 0%float
    (mkDatetime 0 true).

Definition ready : GraphClient.t :=
  GraphClient.mk (Some GraphClient.graphiti_instance).

Definition not_ready : GraphClient.t := GraphClient.mk None.

(** The state after [b.txt] was ingested once, and the document that
    ingestion returned. *)
Definition once : Pipeline.State :=
  Eval vm_compute in
    snd (Pipeline.ingest_file quiet_world (settings 5 100) two_files b_txt
           None false start).

Definition b_doc : Document :=
  mkDocument (of_string "0") (of_string "/notes/b.txt") TEXT
    (of_string "b.txt") (of_string "beta beta") [] (of_string "beta beta")
    0%float (mkDatetime 0 true).

(** A vector collection holding one point of a document that the document
    store does not know. *)
Definition orphan_point : Point :=
  mkPoint (of_string "c-9") [0%float] (of_string "c-9") (of_string "ghost")
    (of_string "left behind") 0 [].

(** The spans of a chunk list. *)
Definition spans (chunks : list Chunk) : list (Z * Z) :=
  map (fun c => (start_char c, end_char c)) chunks.

End Examples.

(* ===================================================================== *)
(** * Further predicates *)
(* ===================================================================== *)

Module SpecMore.
Import PyStr Models Chunker Pipeline Config Bridge Engine.

(** A string with no whitespace at either end. *)
Definition trimmed (s : str) : Prop := strip s = s.

(** Every piece a level of the cascade returns has at most [n]
    characters. *)
Definition bounded (n : Z) (f : str -> option (list str)) : Prop :=
  forall text parts, f text = Some parts -> Forall (fun p => len p <= n) parts.

(** Every piece a level of the cascade returns is trimmed. *)
Definition trims (f : str -> option (list str)) : Prop :=
  forall text parts, f text = Some parts -> Forall trimmed parts.

(** The number of leading whitespace characters of a string. *)
Definition leading_space (s : str) : Z := len s - len (lstrip s).

(** A chunk that starts before another one. *)
Definition starts_before (a b : Chunk) : Prop := start_char a < start_char b.

(** The recorded span of a chunk holds the chunk's text. *)
Definition span_exact (text : str) (c : Chunk) : Prop :=
  slice text (start_char c) (end_char c) = chunk_text c.

(** No two stored documents share a [doc_id] or a [source_path]. *)
Definition well_keyed (s : DocStore.t) : Prop :=
  NoDup (map doc_id (DocStore.documents s))
  /\ NoDup (map source_path (DocStore.documents s)).

(** A chunk whose index is not above another one's. *)
Definition idx_le (a b : Chunk) : Prop := index a <= index b.

(** A path that does not come after another one. *)
Definition not_after (a b : Path) : Prop := path_ltb b a = false.

(** The paths [ingest_folder] keeps: those with a normalizer. *)
Definition supported (p : Path) : bool :=
  match normalizers_get (lower (suffix p)) with
  | Some _ => true
  | None => false
  end.

(** The messages [chat] sends: the system prompt, the past messages, and
    the user's message with the context block above the question. *)
Definition chat_messages (system : str) (past : list Message)
    (context query : str) : list Message :=
  mkMessage (of_string "system") system
  :: past
  ++ [mkMessage (of_string "user")
        (of_string "Context:" ++ newline ++ context ++ newline ++ newline
           ++ of_string "Question: " ++ query)].

(** The past messages that count: [None] and the empty list alike give
    none. *)
Definition past_messages (history_arg : option (list Message))
  : list Message :=
  match history_arg with
  | Some past => past
  | None => []
  end.

(** The providers [build_graphiti_llm_client] knows. *)
Definition llm_providers : list str :=
  [of_string "anthropic"; of_string "openai"; of_string "ollama";
   of_string "ollama_chat"; of_string "groq"].

(** The providers [build_graphiti_embedder] knows. *)
Definition embedder_providers : list str :=
  [of_string "voyage"; of_string "openai"; of_string "ollama";
   of_string "ollama_chat"].

(** The configuration a client was built with. *)
Definition client_config (client : LLMClient) : LLMConfig :=
  match client with
  | AnthropicClient c => c
  | OpenAIClient c => c
  | GroqClient c => c
  end.

(** The configuration an embedder was built with. *)
Definition embedder_config (embedder : Embedder) : EmbedderConfig :=
  match embedder with
  | VoyageAIEmbedder c => c
  | OpenAIEmbedder c => c
  end.

(** The last thing that was asked of the outside, if anything was. *)
Definition last_event (h : list event) : option event :=
  last (map Some h) None.

End SpecMore.

(* ===================================================================== *)
(** * Further concrete inputs *)
(* ===================================================================== *)

Module ExamplesMore.
Import PyStr Models.

Definition two_paragraphs : str :=
  of_string "First paragraph.

Second paragraph.".

(** The chunks of [two_paragraphs] for [chunk_size = 20] and no overlap. *)
Definition two_paragraph_chunks : list Chunk :=
  Eval vm_compute in
    match Chunker.chunk_document (fun n => str_of_Z (Z.of_nat n))
            (of_string "doc-1") two_paragraphs 20 0 None with
    | Some chunks => chunks
    | None => []
    end.

(** A world whose embedding service is down. *)
Definition embedding_down_world : World :=
  let w := Examples.quiet_world in
  mkWorld (sha256 w) (uuid4 w) (now w) (datetime_str w) (extract w)
    (fun _ _ => Raise (ServiceError (of_string "embedding service down")))
    (add_episode w) (graphiti_search w) (query_points w).

(** A world whose graph search is down. *)
Definition graph_down_world : World :=
  let w := Examples.quiet_world in
  mkWorld (sha256 w) (uuid4 w) (now w) (datetime_str w) (extract w)
    (aembedding w) (add_episode w)
    (fun _ _ _ _ => Raise (ServiceError (of_string "graph down")))
    (query_points w).

(** A completion service that always gives the same reply. *)
Definition laconic : Engine.LLM :=
  Engine.mkLLM (fun _ _ _ => Ok (of_string "yes"))
    (fun _ _ _ =>
       Ok [Some (of_string "y"); None; Some []; Some (of_string "es")]).

Definition prompts : Config.PromptsConfig :=
  Config.mkPromptsConfig (of_string "Answer from the excerpts.")
    (of_string "Answer from the excerpts and the graph.").

Definition profile : Config.LLMProfile :=
  Config.mkLLMProfile (of_string "anthropic/claude-sonnet")
    (of_string "voyage/voyage-4-lite") 1024
    (of_string "Anthropic/claude-haiku") (of_string "groq/llama")
    (of_string "anthropic/claude-sonnet") 0%float 4096.

(** The state in which a first ingestion of [b.txt] leaves the stores when
    the embedding service is down. *)
Definition half_ingested : Pipeline.State :=
  Eval vm_compute in
    snd (Pipeline.ingest_file embedding_down_world
           (Examples.settings 5 100) Examples.two_files Examples.b_txt
           None false Examples.start).

End ExamplesMore.

(* ===================================================================== *)
(** * Facts about the string primitives *)
(* ===================================================================== *)

Module PyStrFacts.
Import PyStr.

(** [test_is b v]: the comparison [b] on integers has the value [v]. *)
Ltac test_is b v :=
  replace b with v
    by (symmetry;
        first [ apply Z.ltb_lt | apply Z.ltb_ge | apply Z.leb_le
              | apply Z.leb_gt | apply Z.eqb_eq | apply Z.eqb_neq ];
        lia).

Lemma len_nonneg {A} (s : list A) : 0 <= len s.
Proof. unfold len. lia. Qed.

Lemma len_app {A} (a b : list A) : len (a ++ b) = len a + len b.
Proof. unfold len. rewrite length_app. lia. Qed.

Lemma truthy_len (s : str) : truthy s = true <-> 0 < len s.
Proof.
  destruct s; unfold len; simpl; split; intros; try lia; try discriminate;
    reflexivity.
Qed.

Lemma lstrip_suffix (s : str) : exists a, s = a ++ lstrip s.
Proof.
  induction s as [|c r [a Ha]]; simpl.
  - exists []. reflexivity.
  - destruct (is_space c).
    + exists (c :: a). simpl. now rewrite <- Ha.
    + exists []. reflexivity.
Qed.

Lemma rstrip_prefix (s : str) : exists b, s = rstrip s ++ b.
Proof.
  unfold rstrip. destruct (lstrip_suffix (rev s)) as [a Ha].
  exists (rev a). rewrite <- rev_app_distr, <- Ha. now rewrite rev_involutive.
Qed.

(** [strip] only removes characters at the two ends. *)
Lemma strip_middle (s : str) : exists a b, s = a ++ strip s ++ b.
Proof.
  unfold strip. destruct (lstrip_suffix s) as [a Ha].
  destruct (rstrip_prefix (lstrip s)) as [b Hb].
  exists a, b. now rewrite <- Hb.
Qed.

Lemma is_prefix_app (p s : str) : is_prefix p (p ++ s) = true.
Proof.
  induction p as [|a p IH]; simpl; [reflexivity|].
  now rewrite N.eqb_refl, IH.
Qed.

Lemma is_prefix_true (p s : str) :
  is_prefix p s = true -> s = p ++ skipn (List.length p) s.
Proof.
  revert s. induction p as [|a p IH]; intros s H; simpl in *.
  - reflexivity.
  - destruct s as [|b s]; [discriminate|].
    apply andb_prop in H. destruct H as [Hab Hp].
    apply N.eqb_eq in Hab. subst b. simpl. f_equal. now apply IH.
Qed.

Lemma split_aux_not_nil sep k cur text : split_aux sep k cur text <> [].
Proof.
  revert k cur. induction text as [|c rest IH]; intros k cur; simpl.
  - discriminate.
  - destruct k; [|apply IH].
    destruct (is_prefix sep (c :: rest)); [discriminate|apply IH].
Qed.

Lemma join_cons sep p ps :
  ps <> [] -> join sep (p :: ps) = p ++ sep ++ join sep ps.
Proof. destruct ps; [congruence|reflexivity]. Qed.

Lemma join_snoc sep ps p :
  ps <> [] -> join sep (ps ++ [p]) = join sep ps ++ sep ++ p.
Proof.
  induction ps as [|q qs IH]; intros Hne; [congruence|].
  destruct qs as [|q' qs'].
  - reflexivity.
  - change ((q :: q' :: qs') ++ [p]) with (q :: (q' :: qs') ++ [p]).
    rewrite join_cons by (simpl; discriminate).
    rewrite IH by discriminate.
    rewrite (join_cons sep q (q' :: qs')) by discriminate.
    now rewrite <- !app_assoc.
Qed.

Lemma join_split_aux sep text :
  sep <> [] ->
  forall k cur, (k <= List.length text)%nat ->
  join sep (split_aux sep k cur text) = rev cur ++ skipn k text.
Proof.
  intros Hsep. induction text as [|c rest IH]; intros k cur Hk; simpl in *.
  - assert (k = 0%nat) by lia. subst. simpl. now rewrite app_nil_r.
  - destruct k as [|k].
    + destruct (is_prefix sep (c :: rest)) eqn:Hp.
      * rewrite join_cons by apply split_aux_not_nil.
        apply is_prefix_true in Hp.
        destruct sep as [|s0 sep']; [congruence|].
        simpl in Hp. injection Hp as Hc Hrest. subst s0.
        assert (Hlen : (List.length sep' <= List.length rest)%nat).
        { rewrite Hrest, length_app. lia. }
        replace (List.length (c :: sep') - 1)%nat with (List.length sep')
          by (simpl; lia).
        rewrite IH by exact Hlen. simpl.
        rewrite <- Hrest. reflexivity.
      * rewrite IH by lia. simpl. now rewrite <- app_assoc.
    + apply IH. lia.
Qed.

(** Joining the pieces of a split gives the text back. *)
Lemma join_split text sep : sep <> [] -> join sep (split text sep) = text.
Proof.
  intros Hsep. unfold split.
  rewrite join_split_aux by (auto; lia). reflexivity.
Qed.

Lemma find_from_occurrence sub p q pos :
  exists r, find_from sub (p ++ sub ++ q) pos = Some r
            /\ (pos <= r <= pos + List.length p)%nat.
Proof.
  revert pos. induction p as [|c p IH]; intros pos.
  - simpl app. exists pos. split; [|simpl; lia].
    destruct (sub ++ q) eqn:E; simpl; rewrite <- E, is_prefix_app;
      reflexivity.
  - simpl app. simpl find_from.
    destruct (is_prefix sub (c :: p ++ sub ++ q)).
    + exists pos. split; [reflexivity|simpl; lia].
    + destruct (IH (S pos)) as [r [Hr Hb]].
      exists r. split; [exact Hr|simpl; lia].
Qed.

(** [find] succeeds, at or after the cursor and no later than a known
    occurrence, when the cursor is not past that occurrence. *)
Lemma find_occurrence text sub p q start :
  text = p ++ sub ++ q -> 0 <= start <= len p ->
  start <= find text sub start <= len p.
Proof.
  intros -> [H0 Hp]. unfold find.
  assert (Hs : (start <? 0) = false) by (apply Z.ltb_ge; lia).
  rewrite Hs.
  assert (Hn : (len (p ++ sub ++ q) <? start) = false).
  { apply Z.ltb_ge. rewrite len_app. pose proof (len_nonneg (sub ++ q)). lia. }
  rewrite Hn.
  assert (Hk : (Z.to_nat start <= List.length p)%nat) by (unfold len in Hp; lia).
  rewrite skipn_app.
  replace (Z.to_nat start - List.length p)%nat with 0%nat by lia.
  simpl skipn.
  destruct (find_from_occurrence sub (skipn (Z.to_nat start) p) q
              (Z.to_nat start)) as [r [Hr Hb]].
  rewrite Hr. rewrite length_skipn in Hb. unfold len. lia.
Qed.

(** ** Slices *)

Lemma skipn_add {A} (a b : nat) (l : list A) :
  skipn b (skipn a l) = skipn (a + b) l.
Proof.
  revert l. induction a as [|a IH]; intros l; simpl.
  - reflexivity.
  - destruct l; [now rewrite skipn_nil|apply IH].
Qed.

Lemma firstn_then_firstn {A} (a b : nat) (l : list A) :
  firstn a l ++ firstn b (skipn a l) = firstn (a + b) l.
Proof.
  revert l. induction a as [|a IH]; intros l; simpl.
  - reflexivity.
  - destruct l as [|x l]; simpl.
    + now rewrite firstn_nil.
    + f_equal. apply IH.
Qed.

(** A slice with indices in order and not negative. *)
Lemma slice_window {A} (s : list A) i j :
  0 <= i <= j ->
  slice s i j
  = firstn (Z.to_nat (Z.min j (len s) - Z.min i (len s)))
      (skipn (Z.to_nat (Z.min i (len s))) s).
Proof.
  intros H. unfold slice, clamp_index.
  test_is (i <? 0) false. test_is (j <? 0) false. reflexivity.
Qed.

Lemma slice_length {A} (s : list A) i j :
  0 <= i <= j -> len (slice s i j) <= j - i.
Proof.
  intros H. rewrite slice_window by exact H. unfold len.
  rewrite length_firstn. lia.
Qed.

End PyStrFacts.

(* ===================================================================== *)
(** * The chunker *)
(* ===================================================================== *)

Module ChunkerFacts.
Import PyStr Models Chunker Spec PyStrFacts.

(** ** Strings scattered in a text *)

Lemma scattered_at cs c t t' gap :
  t' = gap ++ c ++ t -> scattered cs t -> scattered (c :: cs) t'.
Proof. intros -> H. now constructor. Qed.

Lemma scattered_gap_l cs t g : scattered cs t -> scattered cs (g ++ t).
Proof.
  intros H. destruct H as [t|gap c cs t H].
  - constructor.
  - apply (scattered_at cs c t _ (g ++ gap)); [|exact H].
    now rewrite <- app_assoc.
Qed.

Lemma scattered_gap_r cs t g : scattered cs t -> scattered cs (t ++ g).
Proof.
  induction 1 as [t|gap c cs t H IH].
  - constructor.
  - apply (scattered_at cs c (t ++ g) _ gap); [|exact IH].
    now rewrite <- !app_assoc.
Qed.

Lemma scattered_app xs ys a b :
  scattered xs a -> scattered ys b -> scattered (xs ++ ys) (a ++ b).
Proof.
  induction 1 as [t|gap c cs t H IH]; intros Hy.
  - simpl. now apply scattered_gap_l.
  - simpl. apply (scattered_at (cs ++ ys) c (t ++ b) _ gap); [|now apply IH].
    now rewrite <- !app_assoc.
Qed.

Lemma scattered_one c : scattered [c] c.
Proof.
  apply (scattered_at [] c [] _ []); [|constructor].
  simpl. now rewrite app_nil_r.
Qed.

Lemma scattered_strip cs t : scattered cs (strip t) -> scattered cs t.
Proof.
  intros H. destruct (strip_middle t) as [a [b Hab]].
  rewrite Hab. apply scattered_gap_l, scattered_gap_r, H.
Qed.

(** ** What every level of the cascade guarantees *)

Lemma pieces_of_app a b xs ys :
  pieces_of a xs -> pieces_of b ys -> pieces_of (a ++ b) (xs ++ ys).
Proof.
  intros [Hx Fx] [Hy Fy]. split.
  - now apply scattered_app.
  - apply Forall_app. now split.
Qed.

Lemma whole_pieces text : pieces_of text (whole text).
Proof.
  unfold whole. destruct (truthy (strip text)) eqn:E.
  - split.
    + apply scattered_strip, scattered_one.
    + constructor; [exact E|constructor].
  - split; constructor.
Qed.

(** ** The character-level split *)

Lemma char_part_truthy text chunk_size starts :
  Forall (fun p => truthy p = true)
         (flat_map (char_part text chunk_size) starts).
Proof.
  induction starts as [|i starts IH]; simpl; [constructor|].
  apply Forall_app. split; [|exact IH].
  unfold char_part. destruct (truthy _) eqn:E; repeat constructor. exact E.
Qed.

Lemma char_parts_scattered text chunk_size :
  0 < chunk_size ->
  forall m a,
    scattered
      (flat_map (char_part text chunk_size)
         (map (fun k => 0 + Z.of_nat k * chunk_size) (seq a m)))
      (skipn (Z.to_nat (Z.min (Z.of_nat a * chunk_size) (len text))) text).
Proof.
  intros Hcs. induction m as [|m IH]; intros a; simpl.
  - constructor.
  - set (i := Z.of_nat a * chunk_size).
    set (lo := Z.min i (len text)).
    set (hi := Z.min (i + chunk_size) (len text)).
    assert (Hi : 0 <= i) by (unfold i; nia).
    assert (Hslice : slice text i (i + chunk_size)
                     = firstn (Z.to_nat (hi - lo)) (skipn (Z.to_nat lo) text))
      by (apply slice_window; lia).
    assert (Hrest : skipn (Z.to_nat lo) text
                    = slice text i (i + chunk_size)
                      ++ skipn (Z.to_nat hi) text).
    { rewrite Hslice.
      rewrite <- (firstn_skipn (Z.to_nat (hi - lo))
                    (skipn (Z.to_nat lo) text)) at 1.
      f_equal. rewrite skipn_add. f_equal.
      pose proof (len_nonneg text). unfold lo, hi. lia. }
    rewrite Hrest.
    apply scattered_app.
    + unfold char_part. fold i.
      destruct (truthy (strip (slice text i (i + chunk_size)))).
      * apply scattered_strip, scattered_one.
      * constructor.
    + specialize (IH (S a)).
      replace (Z.of_nat (S a) * chunk_size) with (i + chunk_size) in IH
        by (unfold i; lia).
      exact IH.
Qed.

Lemma split_chars_sound chunk_size :
  sound (fun text => split_chars text chunk_size).
Proof.
  intros text parts H. unfold split_chars, range in H.
  destruct (chunk_size =? 0) eqn:E0; [discriminate|].
  apply Z.eqb_neq in E0. injection H as <-.
  split; [|apply char_part_truthy].
  destruct (Z.ltb_spec 0 chunk_size) as [Hpos|Hneg].
  - pose proof (char_parts_scattered text chunk_size Hpos
                  (Z.to_nat (range_len 0 (len text) chunk_size)) 0%nat) as H.
    pose proof (len_nonneg text).
    replace (Z.to_nat (Z.min (Z.of_nat 0 * chunk_size) (len text)))
      with 0%nat in H by lia.
    exact H.
  - unfold range_len.
    test_is (0 <? chunk_size) false.
    pose proof (len_nonneg text).
    test_is (len text <? 0) false.
    simpl. constructor.
Qed.

Lemma split_chars_total chunk_size :
  chunk_size <> 0 -> total (fun text => split_chars text chunk_size).
Proof.
  intros Hcs text. unfold split_chars, range.
  apply Z.eqb_neq in Hcs. rewrite Hcs. eexists. reflexivity.
Qed.

(** ** The loop over the pieces of one separator *)

Section Level.
Variable recurse : str -> option (list str).
Variable chunk_size : Z.
Variable sep : str.

Lemma flush_sound cur res r :
  sound recurse ->
  flush recurse chunk_size sep cur res = Some r ->
  exists parts, r = res ++ parts /\ pieces_of (join sep cur) parts.
Proof.
  intros Hrec. unfold flush.
  destruct (truthy (strip (join sep cur))) eqn:Et.
  - destruct (chunk_size <? len (strip (join sep cur))).
    + destruct (recurse (strip (join sep cur))) as [parts|] eqn:Er;
        [|discriminate].
      intros [= <-]. exists parts. split; [reflexivity|].
      destruct (Hrec _ _ Er) as [Hs Hf]. split; [|exact Hf].
      now apply scattered_strip.
    + intros [= <-]. eexists. split; [reflexivity|].
      pose proof (whole_pieces (join sep cur)) as Hw.
      unfold whole in Hw. now rewrite Et in Hw.
  - intros [= <-]. exists []. split; [now rewrite app_nil_r|].
    split; constructor.
Qed.

Lemma flush_total cur res :
  total recurse -> exists r, flush recurse chunk_size sep cur res = Some r.
Proof.
  intros Hrec. unfold flush.
  destruct (truthy _); [|eexists; reflexivity].
  destruct (chunk_size <? _); [|eexists; reflexivity].
  destruct (Hrec (strip (join sep cur))) as [parts ->].
  eexists; reflexivity.
Qed.

Lemma step_inv done a piece a' :
  sound recurse ->
  level_inv sep done a ->
  step recurse chunk_size sep a piece = Some a' ->
  level_inv sep (done ++ [piece]) a'.
Proof.
  intros Hrec [A [HA [Hjoin Hnil]]]. unfold step.
  destruct ((chunk_size <? current_len a + (len piece + len sep))
            && match current a with [] => false | _ :: _ => true end)
    eqn:Econd.
  - apply andb_prop in Econd. destruct Econd as [_ Hcur].
    assert (Hne : current a <> []) by (destruct (current a); congruence).
    assert (Hdone : done <> []) by (intros E; apply Hne, Hnil, E).
    destruct (flush recurse chunk_size sep (current a) (result a))
      as [r|] eqn:Ef; [|discriminate].
    intros [= <-]. simpl.
    destruct (flush_sound _ _ _ Hrec Ef) as [parts [-> Hparts]].
    exists (A ++ join sep (current a) ++ sep). simpl. repeat split.
    + apply pieces_of_app; [exact HA|].
      destruct Hparts as [Hs Hf]. split; [|exact Hf].
      now apply scattered_gap_r.
    + apply Forall_app. split; [apply HA|apply Hparts].
    + rewrite join_snoc by exact Hdone. rewrite Hjoin.
      now rewrite <- !app_assoc.
    + discriminate.
    + intros E. destruct done; discriminate.
  - intros [= <-]. simpl. exists A. repeat split.
    + apply HA.
    + apply HA.
    + destruct (current a) as [|c0 cur] eqn:Ec.
      * assert (done = []) by (now apply Hnil). subst done.
        simpl in Hjoin. simpl.
        destruct A; [reflexivity|discriminate].
      * rewrite join_snoc.
        2:{ intros E. assert (c0 :: cur = []) by (now apply Hnil).
            discriminate. }
        rewrite Hjoin.
        cbn [current].
        rewrite (join_snoc sep (c0 :: cur) piece) by discriminate.
        now rewrite <- !app_assoc.
    + intros E. destruct (current a); discriminate.
    + intros E. destruct done; discriminate.
Qed.

Lemma loop_inv pieces :
  sound recurse ->
  forall done a a',
    level_inv sep done a ->
    loop recurse chunk_size sep a pieces = Some a' ->
    level_inv sep (done ++ pieces) a'.
Proof.
  intros Hrec. induction pieces as [|p ps IH]; intros done a a' Hinv; simpl.
  - intros [= <-]. now rewrite app_nil_r.
  - destruct (step recurse chunk_size sep a p) as [a1|] eqn:Es;
      [|discriminate].
    intros Hl.
    replace (done ++ p :: ps) with ((done ++ [p]) ++ ps)
      by (now rewrite <- app_assoc).
    eapply IH; [|exact Hl].
    eapply step_inv; eauto.
Qed.

Lemma loop_total pieces :
  total recurse ->
  forall a, exists a', loop recurse chunk_size sep a pieces = Some a'.
Proof.
  intros Hrec. induction pieces as [|p ps IH]; intros a; simpl.
  - eexists; reflexivity.
  - assert (Hs : exists a1, step recurse chunk_size sep a p = Some a1).
    { unfold step. destruct (_ && _); [|eexists; reflexivity].
      destruct (flush_total (current a) (result a) Hrec) as [r ->].
      eexists; reflexivity. }
    destruct Hs as [a1 ->]. apply IH.
Qed.

Lemma split_on_sound :
  sep <> [] -> sound recurse ->
  sound (split_on recurse chunk_size sep).
Proof.
  intros Hsep Hrec text parts. unfold split_on.
  destruct (loop recurse chunk_size sep (mkAcc [] [] 0) (split text sep))
    as [a|] eqn:El; [|discriminate].
  assert (Hinv : level_inv sep (split text sep) a).
  { apply (loop_inv (split text sep) Hrec [] (mkAcc [] [] 0) a); [|exact El].
    exists []. simpl. repeat split; constructor. }
  destruct Hinv as [A [HA [Hjoin Hnil]]].
  rewrite join_split in Hjoin by exact Hsep.
  destruct (current a) as [|c0 cur] eqn:Ec.
  - intros [= <-]. simpl in Hjoin. rewrite app_nil_r in Hjoin.
    now subst A.
  - intros Hf.
    destruct (flush_sound _ _ _ Hrec Hf) as [ps [-> Hps]].
    rewrite Hjoin. now apply pieces_of_app.
Qed.

Lemma split_on_total :
  total recurse -> total (split_on recurse chunk_size sep).
Proof.
  intros Hrec text. unfold split_on.
  destruct (loop_total (split text sep) Hrec (mkAcc [] [] 0)) as [a ->].
  destruct (current a); [eexists; reflexivity|].
  apply flush_total, Hrec.
Qed.

End Level.

End ChunkerFacts.

Module ChunkDocument.
Import PyStr Models Chunker Spec PyStrFacts ChunkerFacts.

(** ** The cascade as a whole *)

Lemma split_recursive_sound chunk_size separators :
  sound (fun text => _split_recursive text chunk_size separators).
Proof.
  intros text.
  apply (_split_recursive_elim
           (fun text _ _ r => forall parts, r = Some parts ->
                                            pieces_of text parts)).
  - intros t cs seps _ parts [= <-]. apply whole_pieces.
  - intros t cs seps _ _. apply (split_chars_sound cs).
  - intros t cs seps l _ _. apply (split_chars_sound cs).
  - intros t cs seps c s IH _ _.
    apply (split_on_sound _ cs (c :: s)); [discriminate|exact IH].
  - intros t cs seps c s s' rest IH _ _.
    apply (split_on_sound _ cs (c :: s)); [discriminate|exact IH].
Qed.

(** Only a zero [chunk_size] makes the cascade raise. *)
Lemma split_recursive_total chunk_size separators :
  chunk_size <> 0 ->
  total (fun text => _split_recursive text chunk_size separators).
Proof.
  intros Hcs text.
  apply (_split_recursive_elim
           (fun text cs _ r => cs <> 0 -> exists parts, r = Some parts));
    [| | | | |exact Hcs].
  - intros; eexists; reflexivity.
  - intros t cs seps _ _ H. now apply split_chars_total.
  - intros t cs seps l _ _ H. now apply split_chars_total.
  - intros t cs seps c s IH _ _ H.
    apply split_on_total. intros m. now apply IH.
  - intros t cs seps c s s' rest IH _ _ H.
    apply split_on_total. intros m. now apply IH.
Qed.

(** ** Offsets *)

Section Locate.
Variable uuid4 : nat -> str.
Variable doc_id : str.
Variable text : str.
Variable chunk_overlap : Z.
Variable metadata : metadata_t.
Hypothesis overlap_nonneg : 0 <= chunk_overlap.

(** While the cursor has not passed the place where the next raw chunk
    really is, [find] succeeds and every span stays inside the text. *)
Lemma locate_spans raw rest :
  scattered raw rest ->
  Forall (fun p => truthy p = true) raw ->
  forall A i offset,
    text = A ++ rest -> 0 <= offset <= len A ->
    Forall (span_ok (len text))
      (locate uuid4 doc_id text chunk_overlap metadata i offset raw).
Proof.
  induction 1 as [t|gap c cs t Hsc IH]; intros Hne A i offset Htext Hoff.
  - constructor.
  - apply Forall_cons_iff in Hne. destruct Hne as [Hc Hcs].
    apply truthy_len in Hc.
    simpl locate.
    assert (Hocc : text = (A ++ gap) ++ c ++ t)
      by (rewrite Htext; now rewrite <- app_assoc).
    assert (Hcur : 0 <= offset <= len (A ++ gap)).
    { rewrite len_app. pose proof (len_nonneg gap). lia. }
    pose proof (find_occurrence text c (A ++ gap) t offset Hocc Hcur)
      as Hfind.
    set (found := find text c offset) in *.
    assert (Hnot : (found =? -1) = false) by (apply Z.eqb_neq; lia).
    rewrite Hnot.
    assert (Hlen : len text = len (A ++ gap) + len c + len t).
    { rewrite Hocc at 1. rewrite !len_app. lia. }
    pose proof (len_nonneg t).
    constructor.
    + unfold span_ok. simpl. lia.
    + apply (IH Hcs ((A ++ gap) ++ c)).
      * rewrite Hocc. now rewrite <- !app_assoc.
      * rewrite len_app. lia.
Qed.

Lemma locate_length raw i offset :
  List.length (locate uuid4 doc_id text chunk_overlap metadata i offset raw)
  = List.length raw.
Proof.
  revert i offset. induction raw as [|c raw IH]; intros i offset; simpl.
  - reflexivity.
  - now rewrite IH.
Qed.

Lemma locate_index raw i offset :
  map index (locate uuid4 doc_id text chunk_overlap metadata i offset raw)
  = map Z.of_nat (seq i (List.length raw)).
Proof.
  revert i offset. induction raw as [|c raw IH]; intros i offset; simpl.
  - reflexivity.
  - now rewrite IH.
Qed.

Lemma locate_ids raw i offset :
  Forall (fun c => chunk_doc_id c = doc_id)
    (locate uuid4 doc_id text chunk_overlap metadata i offset raw)
  /\ map chunk_id
       (locate uuid4 doc_id text chunk_overlap metadata i offset raw)
     = map uuid4 (seq i (List.length raw)).
Proof.
  revert i offset. induction raw as [|c raw IH]; intros i offset; simpl.
  - split; constructor.
  - destruct (IH (S i)
                (Z.max ((if find text c offset =? -1 then offset
                         else find text c offset) + 1)
                   ((if find text c offset =? -1 then offset
                     else find text c offset) + len c - chunk_overlap)))
      as [Hd Hi].
    split; [constructor; [reflexivity|exact Hd]|].
    now rewrite Hi.
Qed.

End Locate.

(** Every chunk carries the document's id, and the chunk ids are the
    identifiers drawn, in order. *)
Lemma chunk_document_ids uuid4 doc_id text chunk_size chunk_overlap metadata
    chunks :
  chunk_document uuid4 doc_id text chunk_size chunk_overlap metadata
  = Some chunks ->
  Forall (fun c => chunk_doc_id c = doc_id) chunks
  /\ map chunk_id chunks = map uuid4 (seq 0 (List.length chunks)).
Proof.
  unfold chunk_document. destruct (negb (truthy (strip text))).
  - intros [= <-]. split; constructor.
  - destruct (_split_recursive text chunk_size _SEPARATORS) as [raw|];
      [|discriminate].
    intros [= <-]. rewrite locate_length. apply locate_ids.
Qed.

(** C1, as amended.  For every text, every non-zero [chunk_size] and every
    [chunk_overlap >= 0], [chunk_document] returns a list of chunks; and
    whenever it returns one, each chunk satisfies
    [0 <= start_char < end_char <= len(text)] and the [index] fields are
    [0, 1, ..., n-1] in emission order.  (A zero [chunk_size] makes Python's
    [range] raise, so no chunk is produced then.) *)
Theorem chunk_document_spans :
  forall uuid4 doc_id text chunk_size chunk_overlap metadata,
    0 <= chunk_overlap ->
    (chunk_size <> 0 ->
     exists chunks,
       chunk_document uuid4 doc_id text chunk_size chunk_overlap metadata
       = Some chunks)
    /\ (forall chunks,
          chunk_document uuid4 doc_id text chunk_size chunk_overlap metadata
          = Some chunks ->
          Forall (span_ok (len text)) chunks /\ contiguous chunks).
Proof.
  intros uuid4 doc_id text chunk_size chunk_overlap metadata Hov.
  unfold chunk_document. split.
  - intros Hcs. destruct (negb (truthy (strip text))); [eexists; reflexivity|].
    destruct (split_recursive_total chunk_size _SEPARATORS Hcs text)
      as [raw ->].
    eexists; reflexivity.
  - intros chunks.
    destruct (negb (truthy (strip text))).
    + intros [= <-]. split; [constructor|reflexivity].
    + destruct (_split_recursive text chunk_size _SEPARATORS) as [raw|] eqn:Er;
        [|discriminate].
      intros [= <-].
      destruct (split_recursive_sound chunk_size _SEPARATORS text raw Er)
        as [Hsc Hne].
      split.
      * apply (locate_spans uuid4 doc_id text chunk_overlap _ Hov raw text
                 Hsc Hne [] 0%nat 0); [reflexivity|].
        unfold len; simpl; lia.
      * unfold contiguous. rewrite locate_index, locate_length. reflexivity.
Qed.

Lemma chunk_document_spans_witness :
  exists chunks,
    chunk_document (fun _ => []) []
      (of_string "First paragraph.

Second paragraph.") 20 0 None = Some chunks
    /\ Forall (span_ok 35) chunks /\ contiguous chunks.
Proof.
  destruct (chunk_document_spans (fun _ => []) []
              (of_string "First paragraph.

Second paragraph.") 20 0 None ltac:(lia)) as [Hret Hspan].
  destruct Hret as [chunks Hc]; [lia|].
  exists chunks. split; [exact Hc|].
  exact (Hspan chunks Hc).
Defined.

(** C1 as stated, for every overlap, fails.  A negative overlap moves the
    cursor past the end of a chunk, [find] can then miss, and the fallback
    places the chunk at the cursor: for ["aa bb"] with [chunk_size = 2] and
    [chunk_overlap = -10] the second chunk gets the span [(12, 14)], beyond
    the five characters of the text. *)
Example negative_overlap_leaves_text :
  exists chunks,
    chunk_document (fun _ => []) [] (of_string "aa bb") 2 (-10) None
    = Some chunks
    /\ Examples.spans chunks = [(0, 2); (12, 14)]
    /\ ~ Forall (span_ok (len (of_string "aa bb"))) chunks.
Proof.
  eexists. split; [vm_compute; reflexivity|].
  split; [reflexivity|].
  intros H. inversion H as [|c0 rest _ Hrest]; subst.
  inversion Hrest as [|c1 rest' [_ [_ Hend]] _]; subst.
  vm_compute in Hend. now apply Hend.
Qed.

End ChunkDocument.

(* ===================================================================== *)
(** * Episode segmentation and retries *)
(* ===================================================================== *)

Module GraphFacts.
Import PyStr Models Spec PyStrFacts GraphClient.

(** ** Fixed-size blocks *)

(** The slices at [a*E, (a+1)*E, ...] put end to end. *)
Lemma concat_slices {A} (s : list A) E :
  0 < E ->
  forall m a,
    List.concat (map (fun i => slice s i (i + E))
              (map (fun k => 0 + Z.of_nat k * E) (seq a m)))
    = firstn (Z.to_nat (Z.min (Z.of_nat (a + m) * E) (len s)
                        - Z.min (Z.of_nat a * E) (len s)))
        (skipn (Z.to_nat (Z.min (Z.of_nat a * E) (len s))) s).
Proof.
  intros HE. induction m as [|m IH]; intros a.
  - simpl. replace (a + 0)%nat with a by lia.
    rewrite Z.sub_diag. reflexivity.
  - simpl map. simpl List.concat. rewrite IH.
    rewrite slice_window by nia.
    pose proof (len_nonneg s) as Hs.
    set (lo := Z.min (Z.of_nat a * E) (len s)).
    set (mid := Z.min (Z.of_nat (S a) * E) (len s)).
    set (hi := Z.min (Z.of_nat (S a + m) * E) (len s)).
    assert (Hlo : 0 <= lo <= mid) by (unfold lo, mid; nia).
    assert (Hmid : mid <= hi) by (unfold mid, hi; nia).
    replace (Z.min (Z.of_nat a * E + E) (len s)) with mid
      by (unfold mid; f_equal; lia).
    replace (Z.min (Z.of_nat (a + S m) * E) (len s)) with hi
      by (unfold hi; f_equal; f_equal; lia).
    replace (skipn (Z.to_nat mid) s)
      with (skipn (Z.to_nat (mid - lo)) (skipn (Z.to_nat lo) s))
      by (rewrite skipn_add; f_equal; lia).
    replace (Z.to_nat (hi - lo))
      with (Z.to_nat (mid - lo) + Z.to_nat (hi - mid))%nat by lia.
    apply firstn_then_firstn.
Qed.

Lemma ceil_div_range L E :
  0 < E -> 0 < L -> (L - 1) / E + 1 = ceil_div L E.
Proof.
  intros HE HL. unfold ceil_div.
  pose proof (Z.div_mod (L - 1) E ltac:(lia)) as Hd.
  pose proof (Z.mod_pos_bound (L - 1) E HE) as Hm.
  symmetry.
  assert (Hq : (- L) / E = - ((L - 1) / E + 1)).
  { symmetry. apply (Z.div_unique_pos _ _ _ (E - 1 - (L - 1) mod E)); lia. }
  lia.
Qed.

(** The blocks of [split_blocks], for a positive [episode_size]. *)
Lemma split_blocks_spec (text : str) E :
  0 < E ->
  exists blocks,
    split_blocks text E = Ok blocks
    /\ List.concat blocks = text
    /\ Forall (fun b => len b <= E) blocks
    /\ len blocks = (if E <? len text then ceil_div (len text) E else 1).
Proof.
  intros HE. unfold split_blocks.
  destruct (Z.leb_spec (len text) E) as [Hfit|Hbig].
  - exists [text]. repeat split.
    + simpl. now rewrite app_nil_r.
    + constructor; [exact Hfit|constructor].
    + test_is (E <? len text) false.
      reflexivity.
  - unfold range. test_is (E =? 0) false.
    eexists. split; [reflexivity|].
    assert (Hn : range_len 0 (len text) E = (len text - 1) / E + 1).
    { unfold range_len.
      test_is (0 <? E) true.
      test_is (0 <? len text) true.
      f_equal. f_equal. lia. }
    assert (Hq : 0 <= (len text - 1) / E) by (apply Z.div_pos; lia).
    repeat split.
    + rewrite (concat_slices text E HE).
      pose proof (len_nonneg text) as Hlen.
      assert (Hcover :
                len text
                <= Z.of_nat (0 + Z.to_nat (range_len 0 (len text) E)) * E).
      { rewrite Hn. simpl Nat.add. rewrite Z2Nat.id by lia.
        pose proof (Z.div_mod (len text - 1) E ltac:(lia)).
        pose proof (Z.mod_pos_bound (len text - 1) E HE). nia. }
      rewrite (Z.min_r _ (len text)) by exact Hcover.
      change (Z.of_nat 0 * E) with 0.
      rewrite (Z.min_l 0 (len text)) by exact Hlen.
      simpl skipn. rewrite Z.sub_0_r.
      apply firstn_all2. unfold len. lia.
    + apply Forall_forall. intros b Hb.
      apply in_map_iff in Hb. destruct Hb as [i [<- Hi]].
      apply in_map_iff in Hi. destruct Hi as [k [<- _]].
      pose proof (slice_length text (0 + Z.of_nat k * E)
                    (0 + Z.of_nat k * E + E) ltac:(nia)).
      lia.
    + test_is (E <? len text) true.
      unfold len at 1. rewrite !length_map, length_seq.
      rewrite Hn. rewrite <- ceil_div_range by lia. lia.
Qed.


(** ** The retry loop *)

Lemma attempt_numbers_spec (n : nat) :
  attempt_numbers (Z.of_nat n)
  = map (fun k => 1 + Z.of_nat k * 1) (seq 0 n).
Proof.
  unfold attempt_numbers, range, range_len.
  change (1 =? 0) with false. change (0 <? 1) with true. cbv iota.
  f_equal. f_equal.
  destruct (Z.ltb_spec 1 (Z.of_nat n + 1)).
  - rewrite Z.div_1_r. lia.
  - lia.
Qed.

(** [retry_trace] holds [n] calls and, between them, [n - 1] sleeps. *)
Lemma retry_trace_counts (req : EpisodeRequest) (delay : Z) (n : nat) :
  count_calls (retry_trace req delay n) = n
  /\ count_sleeps (retry_trace req delay n) = (n - 1)%nat.
Proof.
  unfold count_calls, count_sleeps.
  induction n as [|[|n] IH]; [split; reflexivity..|].
  destruct IH as [Hc Hs].
  change (retry_trace req delay (S (S n)))
    with (EvAddEpisode req :: EvSleep delay :: retry_trace req delay (S n)).
  cbn [filter List.length]. rewrite Hc, Hs. split; lia.
Qed.

Section Attempts.
Variable w : World.
Variable req : EpisodeRequest.
Variable delay : Z.

(** Rate-limited every time: the remaining [m] attempts are all made,
    with a sleep after each one but the last. *)
Lemma attempts_rate_limited (n : nat) :
  (forall h, add_episode w h req = Raise RateLimitError) ->
  forall m a h,
    (a + m = n)%nat ->
    attempts w req (Z.of_nat n) delay
      (map (fun k => 1 + Z.of_nat k * 1) (seq a m)) h
    = (None, h ++ retry_trace req delay m).
Proof.
  intros Hlim. induction m as [|m IH]; intros a h Ham.
  - simpl. now rewrite app_nil_r.
  - cbn [seq map attempts]. rewrite Hlim.
    destruct (Z.ltb_spec (1 + Z.of_nat a * 1) (Z.of_nat n)) as [Hlt|Hge].
    + rewrite IH by lia.
      destruct m as [|m]; [lia|].
      f_equal. rewrite <- !app_assoc. reflexivity.
    + assert (m = 0%nat) by lia. subst m. reflexivity.
Qed.

(** A failure that is not a rate limit ends the episode at once. *)
Lemma attempts_not_retried max_retries attempt rest h e :
  add_episode w h req = Raise e -> e <> RateLimitError ->
  attempts w req max_retries delay (attempt :: rest) h
  = (None, h ++ [EvAddEpisode req]).
Proof.
  intros He Hne. simpl. rewrite He.
  destruct e; try reflexivity. congruence.
Qed.

End Attempts.

(** ** The loop over the episodes *)

Section Episodes.
Variable w : World.
Variable cfg : GraphConfig.
Variable doc : Document.
Variable ref_time : datetime.
Variable group : str.
Variable total : Z.

(** Neither retry setting is a field of [GraphConfig]. *)
Lemma retry_settings_undeclared :
  getattr cfg (of_string "max_episode_retries") = Raise AttributeError
  /\ getattr cfg (of_string "episode_retry_delay") = Raise AttributeError.
Proof. split; reflexivity. Qed.

(** An iteration ends at the first of the two reads, after the pause and
    before the retry loop. *)
Lemma episode_stops i block p h :
  episode w cfg doc ref_time group total i block p h
  = (Raise AttributeError, cooldown cfg total i h).
Proof.
  unfold episode. now rewrite (proj1 retry_settings_undeclared).
Qed.

(** So does the loop, in its first iteration, which has no pause. *)
Lemma episodes_stop block rest p h :
  episodes w cfg doc ref_time group total 0 (block :: rest) p h
  = (Raise AttributeError, h).
Proof.
  cbn [episodes]. rewrite episode_stops. reflexivity.
Qed.

End Episodes.

(** A positive [episode_size] always gives at least one block. *)
Lemma split_blocks_some (text : str) E :
  0 < E -> exists block rest, split_blocks text E = Ok (block :: rest).
Proof.
  intros HE.
  destruct (split_blocks_spec text E HE)
    as [blocks [Hsplit [Hcat [_ Hcount]]]].
  destruct blocks as [|block rest]; [|now exists block, rest].
  exfalso. simpl in Hcat. subst text.
  change (len (@nil char)) with 0 in Hcount.
  replace (E <? 0) with false in Hcount
    by (symmetry; apply Z.ltb_ge; lia).
  discriminate Hcount.
Qed.

(** What [add_document] does, case by case. *)
Lemma add_document_cases w cfg g doc group_id_arg h :
  add_document w cfg g doc group_id_arg h
  = match _graphiti g with
    | None => (Raise RuntimeError, h)
    | Some _ =>
        match split_blocks (text doc) (episode_size cfg) with
        | Raise e => (Raise e, h)
        | Ok [] => (Ok (mkSummary 0 0 0 0), h)
        | Ok (_ :: _) => (Raise AttributeError, h)
        end
    end.
Proof.
  unfold add_document. destruct (_graphiti g); [|reflexivity].
  destruct (split_blocks (text doc) (episode_size cfg))
    as [[|block rest]|e]; [reflexivity| |reflexivity].
  now rewrite episodes_stop.
Qed.

(** [add_document] asks nothing of the outside. *)
Lemma add_document_history w cfg g doc group_id_arg h :
  snd (add_document w cfg g doc group_id_arg h) = h.
Proof.
  rewrite add_document_cases. destruct (_graphiti g); [|reflexivity].
  now destruct (split_blocks (text doc) (episode_size cfg)) as [[|b r]|e].
Qed.

End GraphFacts.

Module GraphClaims.
Import PyStr Models Spec PyStrFacts GraphClient GraphFacts.

(** C5.  The retry loop is never reached.  On an initialized client and
    with a positive [episode_size], whatever the backend would answer (a
    rate-limit error on every attempt included), [add_document] raises
    [AttributeError] in its first iteration, where it reads
    [cfg.graph.max_episode_retries], a setting that [GraphConfig] does not
    declare: [add_episode] is not called once, nothing is slept, no
    episode is counted as failed and no summary is returned. *)
Theorem add_document_retry_unreached :
  forall (w : World) (cfg : GraphConfig) (g : GraphClient.t)
         (doc : Document) (group_id_arg : option str) (h : list event),
    is_initialized g = true ->
    0 < episode_size cfg ->
    add_document w cfg g doc group_id_arg h = (Raise AttributeError, h)
    /\ count_calls (snd (add_document w cfg g doc group_id_arg h))
       = count_calls h.
Proof.
  intros w cfg g doc group_id_arg h Hinit HE.
  assert (Hrun : add_document w cfg g doc group_id_arg h
                 = (Raise AttributeError, h)).
  { rewrite add_document_cases. unfold is_initialized in Hinit.
    destruct (_graphiti g); [|discriminate].
    destruct (split_blocks_some (text doc) (episode_size cfg) HE)
      as [block [rest ->]].
    reflexivity. }
  split; [exact Hrun|]. now rewrite Hrun.
Qed.

Lemma add_document_retry_unreached_witness :
  add_document Examples.rate_limited_world (Examples.graph_config 100)
    Examples.ready Examples.note None []
  = (Raise AttributeError, [])
  /\ count_calls
       (snd (add_document Examples.rate_limited_world
               (Examples.graph_config 100) Examples.ready Examples.note
               None []))
     = count_calls [].
Proof.
  apply (add_document_retry_unreached Examples.rate_limited_world
           (Examples.graph_config 100) Examples.ready Examples.note None []).
  - reflexivity.
  - simpl. lia.
Defined.

(** C6, as amended.  For a text of length [L] and a positive
    [episode_size = E], the blocks [add_document] splits the text into,
    put end to end, give the text back; each has at most [E] characters;
    there are [ceil(L/E)] of them when [L > E] and one otherwise. *)
Theorem add_document_episode_count :
  forall (cfg : GraphConfig) (doc : Document),
    0 < episode_size cfg ->
    exists blocks,
      split_blocks (text doc) (episode_size cfg) = Ok blocks
      /\ List.concat blocks = text doc
      /\ Forall (fun b => len b <= episode_size cfg) blocks
      /\ len blocks
         = (if episode_size cfg <? len (text doc)
            then ceil_div (len (text doc)) (episode_size cfg) else 1).
Proof.
  intros cfg doc HE.
  exact (split_blocks_spec (text doc) (episode_size cfg) HE).
Qed.

Lemma add_document_episode_count_witness :
  exists blocks,
    split_blocks (of_string "alpha beta gamma") 5 = Ok blocks
    /\ List.concat blocks = of_string "alpha beta gamma"
    /\ Forall (fun b => len b <= 5) blocks
    /\ len blocks = 4.
Proof.
  exact (add_document_episode_count (Examples.graph_config 5) Examples.note
           eq_refl).
Defined.

(** C6 as stated fails.  With [episode_size = 0]
    the text of 16 characters is not split at all: the [range] with a zero
    step raises [ValueError].  With [episode_size = 100], where the text is
    one block, no summary comes back: [add_document] raises
    [AttributeError] before the block is sent. *)
Example add_document_returns_no_summary :
  add_document Examples.quiet_world (Examples.graph_config 0)
    Examples.ready Examples.note None []
  = (Raise ValueError, [])
  /\ add_document Examples.quiet_world (Examples.graph_config 100)
       Examples.ready Examples.note None []
     = (Raise AttributeError, []).
Proof. split; vm_compute; reflexivity. Qed.

End GraphClaims.

(* ===================================================================== *)
(** * The stores *)
(* ===================================================================== *)

Module StoreFacts.
Import PyStr Models.

Lemma str_eqb_refl (a : str) : str_eqb a a = true.
Proof. induction a as [|x a IH]; simpl; [reflexivity|]. now rewrite N.eqb_refl. Qed.

Lemma str_eqb_eq (a b : str) : str_eqb a b = true <-> a = b.
Proof.
  split.
  - revert b. induction a as [|x a IH]; intros [|y b] H; simpl in H;
      try discriminate; [reflexivity|].
    apply andb_prop in H. destruct H as [Hxy Hab].
    apply N.eqb_eq in Hxy. subst y. f_equal. now apply IH.
  - intros <-. apply str_eqb_refl.
Qed.

Lemma str_eqb_neq (a b : str) : str_eqb a b = false <-> a <> b.
Proof.
  split.
  - intros H E. apply str_eqb_eq in E. congruence.
  - intros H. destruct (str_eqb a b) eqn:E; [|reflexivity].
    apply str_eqb_eq in E. contradiction.
Qed.

Lemma find_app_skip {A} (f : A -> bool) (l1 l2 : list A) :
  (forall x, In x l1 -> f x = false) ->
  List.find f (l1 ++ l2) = List.find f l2.
Proof.
  induction l1 as [|x l1 IH]; intros H; simpl; [reflexivity|].
  rewrite (H x) by (now left). apply IH. intros y Hy. apply H. now right.
Qed.

Lemma filter_comm {A} (f g : A -> bool) (l : list A) :
  filter f (filter g l) = filter g (filter f l).
Proof.
  induction l as [|x l IH]; simpl; [reflexivity|].
  destruct (g x) eqn:Eg, (f x) eqn:Ef; simpl; rewrite ?Eg, ?Ef, IH;
    reflexivity.
Qed.

Lemma filter_all {A} (f : A -> bool) (l : list A) :
  (forall x, In x l -> f x = true) -> filter f l = l.
Proof.
  induction l as [|x l IH]; intros H; simpl; [reflexivity|].
  rewrite (H x) by (now left). f_equal. apply IH. intros y Hy. apply H.
  now right.
Qed.

Lemma filter_none {A} (f : A -> bool) (l : list A) :
  (forall x, In x l -> f x = false) -> filter f l = [].
Proof.
  induction l as [|x l IH]; intros H; simpl; [reflexivity|].
  rewrite (H x) by (now left). apply IH. intros y Hy. apply H. now right.
Qed.

(** ** Documents *)

(** After an upsert the row found at the document's path is the document
    just written. *)
Lemma get_by_path_upserted (s : DocStore.t) (doc : Document) :
  DocStore.get_document_by_path (DocStore.upsert_document s doc)
    (source_path doc) = Some doc.
Proof.
  unfold DocStore.get_document_by_path, DocStore.upsert_document. simpl.
  rewrite find_app_skip.
  - simpl. now rewrite str_eqb_refl.
  - intros x Hx. apply filter_In in Hx. destruct Hx as [_ Hx].
    apply andb_prop in Hx. destruct Hx as [_ Hp].
    now apply negb_true_iff in Hp.
Qed.

Lemma is_unchanged_upserted (s : DocStore.t) (doc : Document) :
  DocStore.is_unchanged (DocStore.upsert_document s doc) (source_path doc)
    (content_hash doc) = true.
Proof.
  pose proof (get_by_path_upserted s doc) as H.
  unfold DocStore.is_unchanged, DocStore.get_document_by_path in *.
  rewrite H. apply str_eqb_refl.
Qed.

(** ** Chunks *)

Lemma upsert_chunks_filter (id : str) (cs : list Chunk) :
  Forall (fun c => chunk_doc_id c = id) cs ->
  forall rows pre,
    filter (fun c => str_eqb (chunk_doc_id c) id) rows = pre ->
    NoDup (map chunk_id (pre ++ cs)) ->
    filter (fun c => str_eqb (chunk_doc_id c) id)
      (fold_left DocStore.upsert_chunk cs rows)
    = pre ++ cs.
Proof.
  induction 1 as [|c cs Hc Hcs IH]; intros rows pre Hpre Hnd; simpl.
  - now rewrite app_nil_r.
  - replace (pre ++ c :: cs) with ((pre ++ [c]) ++ cs) in *
      by (now rewrite <- app_assoc).
    apply IH; [|exact Hnd].
    unfold DocStore.upsert_chunk. rewrite filter_app. simpl.
    rewrite Hc, str_eqb_refl. f_equal.
    rewrite filter_comm, Hpre.
    apply filter_all. intros x Hx. apply negb_true_iff, str_eqb_neq.
    intros E.
    rewrite map_app, map_app in Hnd. apply NoDup_app_remove_r in Hnd.
    apply NoDup_remove_2 in Hnd. simpl in Hnd. rewrite app_nil_r in Hnd.
    apply Hnd. rewrite <- E. now apply in_map.
Qed.

(** Rows whose indices count up from [i] are already in [idx] order. *)
Lemma order_by_idx_counted (cs : list Chunk) :
  forall i,
    map index cs = map Z.of_nat (seq i (List.length cs)) ->
    DocStore.order_by_idx cs = cs.
Proof.
  induction cs as [|c cs IH]; intros i H; [reflexivity|].
  simpl in H. injection H as Hc Hrest.
  change (DocStore.order_by_idx (c :: cs))
    with (DocStore.insert_by_idx c (DocStore.order_by_idx cs)).
  rewrite (IH (S i) Hrest).
  destruct cs as [|c' cs']; [reflexivity|].
  simpl in Hrest. injection Hrest as Hc' _.
  simpl. replace (index c <=? index c') with true; [reflexivity|].
  symmetry. apply Z.leb_le. lia.
Qed.

(** Deleting the chunks of a document and upserting a new list for it
    leaves exactly the new list. *)
Lemma chunks_replaced (s : DocStore.t) (id : str) (cs : list Chunk) :
  Forall (fun c => chunk_doc_id c = id) cs ->
  NoDup (map chunk_id cs) ->
  map index cs = map Z.of_nat (seq 0 (List.length cs)) ->
  forall doc,
    DocStore.get_chunks_for_doc
      (DocStore.upsert_chunks
         (DocStore.upsert_document (DocStore.delete_doc_chunks s id) doc) cs)
      id
    = cs.
Proof.
  intros Hid Hnd Hidx doc.
  unfold DocStore.get_chunks_for_doc, DocStore.upsert_chunks,
    DocStore.upsert_document, DocStore.delete_doc_chunks. simpl.
  rewrite (upsert_chunks_filter id cs Hid _ []); [| |exact Hnd].
  - simpl. now apply (order_by_idx_counted cs 0%nat).
  - apply filter_none. intros x Hx. apply filter_In in Hx.
    destruct Hx as [_ Hx]. now apply negb_true_iff in Hx.
Qed.

(** ** Points *)

Lemma upsert_points_in (news : list Point) :
  forall (points : VectorStore.t) (pt : Point),
    In pt (fold_left VectorStore.upsert_point news points) ->
    In pt points \/ In pt news.
Proof.
  induction news as [|p news IH]; intros points pt H; simpl in *.
  - now left.
  - apply IH in H. destruct H as [H|H]; [|now right; right].
    unfold VectorStore.upsert_point in H. apply in_app_or in H.
    destruct H as [H|[H|[]]].
    + apply filter_In in H. now left.
    + right. now left.
Qed.

(** After the vectors of a document are deleted and new ones upserted,
    every point of the document belongs to a chunk of the new list. *)
Lemma points_replaced (points : VectorStore.t) (id : str)
    (cs : list Chunk) (embeddings : list (list float)) (pt : Point) :
  In pt (VectorStore.upsert_chunks (VectorStore.delete_by_doc_id points id)
           cs embeddings) ->
  p_doc_id pt = id ->
  In (point_id pt) (map chunk_id cs).
Proof.
  intros H Hid. unfold VectorStore.upsert_chunks in H.
  apply upsert_points_in in H. destruct H as [H|H].
  - unfold VectorStore.delete_by_doc_id in H. apply filter_In in H.
    destruct H as [_ H]. apply negb_true_iff, str_eqb_neq in H.
    contradiction.
  - apply in_map_iff in H. destruct H as [[c e] [<- Hce]].
    simpl. apply in_map. now apply in_combine_l in Hce.
Qed.

End StoreFacts.

(* ===================================================================== *)
(** * The ingestion pipeline *)
(* ===================================================================== *)

Module PipelineFacts.
Import PyStr Models Spec Pipeline StoreFacts.

(** ** Sequencing *)

Lemma bind_ok {A B} (m : M A) (k : A -> M B) s b s2 :
  bind m k s = (Ok b, s2) ->
  exists a s1, m s = (Ok a, s1) /\ k a s1 = (Ok b, s2).
Proof.
  unfold bind. destruct (m s) as [[a|e] s1]; intros H.
  - now exists a, s1.
  - discriminate.
Qed.

Lemma bind_raise {A B} (m : M A) (k : A -> M B) s e s1 :
  m s = (Raise e, s1) -> bind m k s = (Raise e, s1).
Proof. unfold bind. now intros ->. Qed.

Lemma bind_step {A B} (m : M A) (k : A -> M B) s a s1 :
  m s = (Ok a, s1) -> bind m k s = k a s1.
Proof. unfold bind. now intros ->. Qed.

(** ** What each step touches *)

Lemma same_stores_refl s : same_stores s s.
Proof. now repeat split. Qed.

Lemma same_stores_trans s1 s2 s3 :
  same_stores s1 s2 -> same_stores s2 s3 -> same_stores s1 s3.
Proof.
  intros [A [B C]] [D [E F]]. repeat split; congruence.
Qed.

Lemma check_unchanged_state w fs path force s r s' :
  check_unchanged w fs path force s = (r, s') -> s' = s.
Proof.
  unfold check_unchanged, bind, read_bytes, get_docstore, ret.
  destruct force; [now intros [= _ <-]|].
  destruct (fs_lookup fs path); now intros [= _ <-].
Qed.

Lemma aembedding_call_stores w input s r s' :
  aembedding_call w input s = (r, s') -> same_stores s s'.
Proof.
  unfold aembedding_call.
  destruct (aembedding w (history s) input); intros [= _ <-];
    now repeat split.
Qed.

Lemma embed_batches_stores w batches :
  forall acc s r s',
    embed_batches w batches acc s = (r, s') -> same_stores s s'.
Proof.
  induction batches as [|b rest IH]; intros acc s r s'; simpl.
  - intros [= _ <-]. apply same_stores_refl.
  - unfold bind.
    destruct (aembedding_call w b s) as [[v|e] s1] eqn:Ec.
    + intros H. eapply same_stores_trans.
      * eapply aembedding_call_stores; eauto.
      * eapply IH; eauto.
    + intros [= _ <-]. eapply aembedding_call_stores; eauto.
Qed.

(** Embedding talks to the service and touches neither store. *)
Lemma embed_stores w texts s r s' :
  embed w texts s = (r, s') -> same_stores s s'.
Proof.
  unfold embed. destruct (len texts <=? batch_size).
  - apply aembedding_call_stores.
  - destruct (range 0 (len texts) batch_size).
    + apply embed_batches_stores.
    + intros [= _ <-]. apply same_stores_refl.
Qed.

(** Graph extraction never raises and touches neither store. *)
Lemma graph_step_ok w cfg graph_client doc s :
  exists s', graph_step w cfg graph_client doc s = (Ok tt, s')
             /\ same_stores s s'.
Proof.
  unfold graph_step. destruct graph_client as [g|].
  - destruct (GraphClient.is_initialized g).
    + destruct (GraphClient.add_document w cfg g doc None (history s))
        as [[sm|e] h]; eexists; split; try reflexivity; now repeat split.
    + eexists; split; [reflexivity|apply same_stores_refl].
  - eexists; split; [reflexivity|apply same_stores_refl].
Qed.

(** ** The steps of one ingestion *)

(** What a successful run of the steps has done. *)
Lemma ingest_steps_ok w cfg fs n path s doc chunks s' :
  ingest_steps w cfg fs n path s = (Ok (doc, chunks), s') ->
  source_path doc = path_str path
  /\ (forall f, fs_lookup fs path = Some f ->
                content_hash doc = sha256 w (content f))
  /\ (forall existing,
         DocStore.get_document_by_path (docstore s) (path_str path)
         = Some existing -> doc_id doc = doc_id existing)
  /\ Chunker.chunk_document (fun i => uuid4 w (drawn s + 1 + i))
       (doc_id doc) (text doc) (chunk_size (chunker cfg))
       (chunk_overlap (chunker cfg))
       (Some [ (of_string "source_path", source_path doc);
               (of_string "doc_type", doc_type_value (doc_type doc)) ])
     = Some chunks
  /\ docstore s'
     = DocStore.upsert_chunks
         (DocStore.upsert_document (cleaned_docstore s path) doc) chunks
  /\ drawn s' = (drawn s + 1 + List.length chunks)%nat
  /\ (vectorstore s' = cleaned_vectorstore s path
      \/ exists v embeddings,
           cleaned_vectorstore s path = Some v
           /\ vectorstore s'
              = Some (VectorStore.upsert_chunks v chunks embeddings)).
Proof.
  unfold ingest_steps. intros H.
  apply bind_ok in H. destruct H as [d0 [sA [Hnorm H]]].
  apply bind_ok in H. destruct H as [d [sB [Hreuse H]]].
  apply bind_ok in H. destruct H as [cs [sC [Hchunk H]]].
  apply bind_ok in H. destruct H as [[] [sD [Hpersist H]]].
  apply bind_ok in H. destruct H as [[] [sE [Hembed H]]].
  unfold ret in H. injection H as <- <- <-.
  (* the normalizer *)
  unfold run_normalizer in Hnorm.
  destruct (extract w (history s) n fs path) as [ex|e]; [|discriminate].
  injection Hnorm as <- <-.
  set (d00 := mkDocument (uuid4 w (drawn s)) (path_str path) (doc_type_of n)
                (ex_title ex) (ex_text ex) (ex_metadata ex) [] 0%float
                (now w (history (record (EvExtract n path) s)))) in *.
  assert (Hd0path : source_path (compute_hash w fs path d00) = path_str path).
  { unfold compute_hash. destruct (fs_lookup fs path); reflexivity. }
  assert (Hd0hash : forall f, fs_lookup fs path = Some f ->
                      content_hash (compute_hash w fs path d00)
                      = sha256 w (content f)).
  { intros f Hf. unfold compute_hash. rewrite Hf. reflexivity. }
  (* the previous document, when there is one *)
  unfold reuse_existing, bind, get_docstore, update_docstore,
    update_vectorstore, ret in Hreuse.
  cbn [docstore vectorstore history drawn draw record] in Hreuse.
  assert (Hre :
            source_path d = path_str path
            /\ content_hash d = content_hash (compute_hash w fs path d00)
            /\ (forall existing,
                   DocStore.get_document_by_path (docstore s) (path_str path)
                   = Some existing -> doc_id d = doc_id existing)
            /\ docstore sB = cleaned_docstore s path
            /\ vectorstore sB = cleaned_vectorstore s path
            /\ drawn sB = (drawn s + 1)%nat).
  { unfold cleaned_docstore, cleaned_vectorstore.
    destruct (DocStore.get_document_by_path (docstore s) (path_str path))
      as [existing|]; injection Hreuse as <- <-; simpl; repeat split; auto.
    - now intros ? [= <-].
    - intros ? [=]. }
  destruct Hre as [Hpath [Hhash [Hid [HdsB [HvsB HdrB]]]]].
  (* chunking *)
  unfold chunk_step in Hchunk.
  destruct (Chunker.chunk_document _ _ _ _ _ _) as [cs'|] eqn:Hcd;
    [|discriminate].
  injection Hchunk as <- <-.
  rewrite HdrB in Hcd.
  (* the writes *)
  unfold persist_step, bind, update_docstore in Hpersist.
  injection Hpersist as <-.
  cbn [docstore vectorstore history drawn draw] in Hembed.
  unfold embed_step in Hembed.
  cbn [docstore vectorstore history drawn draw] in Hembed.
  split; [exact Hpath|]. split; [intros f Hf; rewrite Hhash; auto|].
  split; [exact Hid|]. split; [exact Hcd|].
  destruct (vectorstore sB) as [v|] eqn:Ev.
  - destruct cs' as [|c0 cs0] eqn:Ecs.
    + injection Hembed as <-. simpl. rewrite HdsB, HdrB.
      repeat split; try lia. left. exact HvsB.
    + rewrite <- Ecs in *.
      apply bind_ok in Hembed. destruct Hembed as [embs [sF [Hemb Hup]]].
      apply embed_stores in Hemb. destruct Hemb as [Hd [Hv Hn]].
      simpl in Hd, Hv, Hn.
      unfold update_vectorstore in Hup. injection Hup as <-. simpl.
      rewrite Hd, Hv, Hn, HdsB, HdrB. repeat split; try lia.
      right. exists v, embs. split; [now rewrite <- HvsB|reflexivity].
  - injection Hembed as <-. simpl. rewrite HdsB, HdrB.
    repeat split; try lia. left. exact HvsB.
Qed.

(** A run of [ingest_file] that returned a document went through the
    steps and then through graph extraction. *)
Lemma ingest_file_ok w cfg fs path graph_client force s doc s1 :
  ingest_file w cfg fs path graph_client force s = (Ok (Some doc), s1) ->
  exists n chunks s',
    get_normalizer path = Some n
    /\ check_unchanged w fs path force s = (Ok false, s)
    /\ ingest_steps w cfg fs n path s = (Ok (doc, chunks), s')
    /\ graph_step w (graph cfg) graph_client doc s' = (Ok tt, s1)
    /\ same_stores s' s1.
Proof.
  unfold ingest_file. destruct (get_normalizer path) as [n|];
    [|intros [=]].
  intros H. apply bind_ok in H. destruct H as [u [s0 [Hcheck H]]].
  pose proof (check_unchanged_state _ _ _ _ _ _ _ Hcheck). subst s0.
  destruct u; [discriminate|].
  apply bind_ok in H. destruct H as [[d chunks] [s' [Hsteps H]]].
  apply bind_ok in H. destruct H as [[] [s2 [Hgraph H]]].
  unfold ret in H. injection H as <- <-. simpl in Hgraph.
  exists n, chunks, s'. repeat split; auto.
  all: destruct (graph_step_ok w (graph cfg) graph_client d s')
    as [s3 [Hg [Ha [Hb Hc]]]]; rewrite Hg in Hgraph;
    injection Hgraph as <-; assumption.
Qed.

End PipelineFacts.

Module PipelineClaims.
Import PyStr Models Spec Pipeline StoreFacts PipelineFacts.

Lemma seq_offset (k m : nat) :
  forall a, map (fun i => (k + i)%nat) (seq a m) = seq (k + a) m.
Proof.
  induction m as [|m IH]; intros a; simpl; [reflexivity|].
  f_equal. rewrite IH. f_equal. lia.
Qed.

(** C7.  Once [ingest_file] has ingested a file, calling it again on the
    same unchanged file without the force flag returns the skip signal
    [None] and leaves the whole state as it was: no chunk, vector or
    identifier is created, nothing is asked of the outside, and the
    document stored for the path, with its [doc_id], is the one the first
    call returned. *)
Theorem ingest_file_unchanged_is_skipped :
  forall (w : World) (cfg : Settings) (fs : FS) (path : Path) (f : File)
         (g1 g2 : option GraphClient.t) (force1 : bool)
         (s s1 : State) (doc : Document),
    fs_lookup fs path = Some f ->
    ingest_file w cfg fs path g1 force1 s = (Ok (Some doc), s1) ->
    ingest_file w cfg fs path g2 false s1 = (Ok None, s1)
    /\ DocStore.get_document_by_path (docstore s1) (path_str path)
       = Some doc.
Proof.
  intros w cfg fs path f g1 g2 force1 s s1 doc Hf Hrun.
  destruct (ingest_file_ok _ _ _ _ _ _ _ _ _ Hrun)
    as [n [chunks [s' [Hn [_ [Hsteps [_ [Hds _]]]]]]]].
  destruct (ingest_steps_ok _ _ _ _ _ _ _ _ _ Hsteps)
    as [Hpath [Hhash [_ [_ [Hstore _]]]]].
  assert (Hrow : DocStore.get_document_by_path (docstore s1) (path_str path)
                 = Some doc).
  { rewrite Hds, Hstore, <- Hpath.
    apply (get_by_path_upserted (cleaned_docstore s path) doc). }
  split; [|exact Hrow].
  unfold ingest_file. rewrite Hn.
  unfold check_unchanged, bind, read_bytes, get_docstore, ret. rewrite Hf.
  unfold DocStore.is_unchanged.
  unfold DocStore.get_document_by_path in Hrow. rewrite Hrow.
  rewrite (Hhash f Hf), str_eqb_refl. reflexivity.
Qed.

(** C3.  When a document is already stored for the path, a run of
    [ingest_file] that ingests the file again (the identifiers it draws
    being distinct) returns a document with the prior [doc_id]; afterwards
    the chunks stored for that [doc_id] are exactly the chunks of the new
    chunking, in order, and every vector stored for that [doc_id] belongs
    to one of them. *)
Theorem reingest_replaces_chunks :
  forall (w : World) (cfg : Settings) (fs : FS) (path : Path)
         (g : option GraphClient.t) (force : bool) (s s1 : State)
         (existing doc : Document),
    DocStore.get_document_by_path (docstore s) (path_str path)
    = Some existing ->
    ingest_file w cfg fs path g force s = (Ok (Some doc), s1) ->
    NoDup (map (uuid4 w) (seq (drawn s) (drawn s1 - drawn s))) ->
    doc_id doc = doc_id existing
    /\ exists chunks,
         Chunker.chunk_document (fun i => uuid4 w (drawn s + 1 + i))
           (doc_id existing) (text doc) (chunk_size (chunker cfg))
           (chunk_overlap (chunker cfg))
           (Some [ (of_string "source_path", source_path doc);
                   (of_string "doc_type", doc_type_value (doc_type doc)) ])
         = Some chunks
         /\ DocStore.get_chunks_for_doc (docstore s1) (doc_id existing)
            = chunks
         /\ (forall points pt,
                vectorstore s1 = Some points -> In pt points ->
                p_doc_id pt = doc_id existing ->
                In (point_id pt) (map chunk_id chunks)).
Proof.
  intros w cfg fs path g force s s1 existing doc Hex Hrun Hfresh.
  destruct (ingest_file_ok _ _ _ _ _ _ _ _ _ Hrun)
    as [n [chunks [s' [Hn [_ [Hsteps [_ [Hds [Hvs Hdr]]]]]]]]].
  destruct (ingest_steps_ok _ _ _ _ _ _ _ _ _ Hsteps)
    as [_ [_ [Hid [Hcd [Hstore [Hdrawn Hvec]]]]]].
  specialize (Hid existing Hex).
  split; [exact Hid|]. rewrite Hid in Hcd.
  exists chunks. split; [exact Hcd|].
  destruct (ChunkDocument.chunk_document_ids _ _ _ _ _ _ _ Hcd)
    as [Hdoc Hids].
  assert (Hidx : map index chunks
                 = map Z.of_nat (seq 0 (List.length chunks))).
  { revert Hcd. unfold Chunker.chunk_document.
    destruct (negb (truthy (strip (text doc)))).
    - now intros [= <-].
    - destruct (Chunker._split_recursive _ _ _); [|discriminate].
      intros [= <-].
      rewrite ChunkDocument.locate_index, ChunkDocument.locate_length.
      reflexivity. }
  assert (Hnd : NoDup (map chunk_id chunks)).
  { rewrite Hids.
    replace (drawn s1 - drawn s)%nat with (S (List.length chunks))
      in Hfresh by lia.
    simpl in Hfresh. apply NoDup_cons_iff in Hfresh.
    destruct Hfresh as [_ Hfresh].
    rewrite <- (map_map (fun i => (drawn s + 1 + i)%nat) (uuid4 w)).
    replace (map (fun i => (drawn s + 1 + i)%nat)
               (seq 0 (List.length chunks)))
      with (seq (S (drawn s)) (List.length chunks)); [exact Hfresh|].
    rewrite seq_offset. f_equal. lia. }
  unfold cleaned_docstore, cleaned_vectorstore in *. rewrite Hex in *.
  split.
  - rewrite Hds, Hstore. now apply chunks_replaced.
  - intros points pt Hpoints Hin Hpt. rewrite Hvs in Hpoints.
    destruct Hvec as [Hsame|[v [embs [Hclean Hnew]]]].
    + rewrite Hsame in Hpoints.
      destruct (vectorstore s) as [v0|]; [|discriminate].
      injection Hpoints as <-.
      unfold VectorStore.delete_by_doc_id in Hin. apply filter_In in Hin.
      destruct Hin as [_ Hin]. apply negb_true_iff, str_eqb_neq in Hin.
      contradiction.
    + rewrite Hnew in Hpoints. injection Hpoints as <-.
      destruct (vectorstore s) as [v0|]; [|discriminate].
      injection Hclean as <-.
      now apply (points_replaced v0 (doc_id existing) chunks embs).
Qed.


Lemma ingest_file_unchanged_is_skipped_witness :
  Pipeline.ingest_file Examples.quiet_world (Examples.settings 5 100)
    Examples.two_files Examples.b_txt None false Examples.once
  = (Ok None, Examples.once)
  /\ DocStore.get_document_by_path (docstore Examples.once)
       (path_str Examples.b_txt)
     = Some Examples.b_doc.
Proof.
  apply (ingest_file_unchanged_is_skipped Examples.quiet_world
           (Examples.settings 5 100) Examples.two_files Examples.b_txt
           (Examples.file_of "beta beta") None None false Examples.start
           Examples.once Examples.b_doc).
  - vm_compute. reflexivity.
  - vm_compute. reflexivity.
Defined.

Lemma reingest_replaces_chunks_witness :
  exists doc s1 chunks,
    Pipeline.ingest_file Examples.quiet_world (Examples.settings 5 100)
      Examples.two_files_edited Examples.b_txt None false Examples.once
    = (Ok (Some doc), s1)
    /\ doc_id doc = of_string "0"
    /\ DocStore.get_chunks_for_doc (docstore s1) (of_string "0") = chunks
    /\ map chunk_text chunks
       = [of_string "gamma"; of_string "delta"; of_string "epsil";
          of_string "on"].
Proof.
  destruct (Pipeline.ingest_file Examples.quiet_world
              (Examples.settings 5 100) Examples.two_files_edited
              Examples.b_txt None false Examples.once) as [r s1] eqn:Hrun.
  assert (Hr : r = Ok (Some (mkDocument (of_string "0")
                               (of_string "/notes/b.txt") TEXT
                               (of_string "b.txt")
                               (of_string "gamma delta epsilon") []
                               (of_string "gamma delta epsilon") 0%float
                               (mkDatetime 0 true)))
               /\ drawn s1 = 8%nat).
  { vm_compute in Hrun. injection Hrun as <- <-. split; reflexivity. }
  destruct Hr as [-> Hdrawn].
  destruct (reingest_replaces_chunks Examples.quiet_world
              (Examples.settings 5 100) Examples.two_files_edited
              Examples.b_txt None false Examples.once s1 Examples.b_doc _
              eq_refl Hrun) as [Hid [chunks [Hcd [Hget _]]]].
  - rewrite Hdrawn. vm_compute.
    repeat (constructor; [simpl; intuition discriminate|]). constructor.
  - eexists. exists s1, chunks. split; [reflexivity|].
    split; [reflexivity|]. split; [exact Hget|].
    vm_compute in Hcd. injection Hcd as <-. reflexivity.
Defined.

(** C8.  Take a run of [ingest_file] without graph extraction that returns
    a document, and so commits the documents, chunks and vectors of the
    state it ends in.  The same run with an initialized graph client whose
    [add_document] raises on that document returns the same document, and
    ends with the same document store and the same vector store: the
    exception is dropped. *)
Theorem graph_failure_keeps_stores :
  forall (w : World) (cfg : Settings) (fs : FS) (path : Path)
         (g : GraphClient.t) (force : bool) (s s1 : State)
         (doc : Document) (e : exn) (h : list event),
    ingest_file w cfg fs path None force s = (Ok (Some doc), s1) ->
    GraphClient.is_initialized g = true ->
    GraphClient.add_document w (graph cfg) g doc None (history s1)
    = (Raise e, h) ->
    exists s2,
      ingest_file w cfg fs path (Some g) force s = (Ok (Some doc), s2)
      /\ docstore s2 = docstore s1
      /\ vectorstore s2 = vectorstore s1
      /\ history s2 = h.
Proof.
  intros w cfg fs path g force s s1 doc e h Hrun Hinit Hraise.
  destruct (ingest_file_ok _ _ _ _ _ _ _ _ _ Hrun)
    as [n [chunks [s' [Hn [Hcheck [Hsteps [Hgraph _]]]]]]].
  unfold graph_step in Hgraph. injection Hgraph as <-.
  exists (set_history h s'). split; [|now repeat split].
  unfold ingest_file. rewrite Hn.
  rewrite (bind_step _ _ _ _ _ Hcheck).
  rewrite (bind_step _ _ _ _ _ Hsteps). simpl fst.
  unfold bind, graph_step, ret. rewrite Hinit, Hraise. reflexivity.
Qed.

Lemma graph_failure_keeps_stores_witness :
  exists s2,
    Pipeline.ingest_file Examples.quiet_world (Examples.settings 5 0)
      Examples.two_files Examples.b_txt (Some Examples.ready) false
      Examples.start
    = (Ok (Some Examples.b_doc), s2)
    /\ docstore s2 = docstore Examples.once
    /\ vectorstore s2 = vectorstore Examples.once
    /\ history s2 = history Examples.once.
Proof.
  apply (graph_failure_keeps_stores Examples.quiet_world
           (Examples.settings 5 0) Examples.two_files Examples.b_txt
           Examples.ready false Examples.start Examples.once Examples.b_doc
           ValueError (history Examples.once)).
  - vm_compute. reflexivity.
  - reflexivity.
  - vm_compute. reflexivity.
Defined.

(** ** Folders *)

Lemma ingest_files_app w cfg fs g force pre :
  forall rest docs s,
    ingest_files w cfg fs g force (pre ++ rest) docs s
    = bind (ingest_files w cfg fs g force pre docs)
        (fun docs' => ingest_files w cfg fs g force rest docs') s.
Proof.
  induction pre as [|p pre IH]; intros rest docs s; simpl.
  - reflexivity.
  - unfold bind in *.
    destruct (ingest_file w cfg fs p g force s) as [[d|e] s1].
    + apply IH.
    + reflexivity.
Qed.

(** C2, as the code has it.  When [ingest_file] raises for one file of the
    folder (a failure of normalization, chunking or embedding: graph
    failures are dropped inside [ingest_file]), [ingest_folder] raises the
    same exception and stops there: the state is the one that file's
    ingestion left, the files after it are not visited, and no list of
    documents is returned. *)
Theorem ingest_folder_stops_at_failure :
  forall (w : World) (cfg : Settings) (fs : FS) (folder : Path)
         (g : option GraphClient.t) (force : bool) (s s1 s2 : State)
         (pre post : list Path) (path : Path) (docs : list Document)
         (e : exn),
    supported_files fs folder = pre ++ path :: post ->
    ingest_files w cfg fs g force pre [] s = (Ok docs, s1) ->
    ingest_file w cfg fs path g force s1 = (Raise e, s2) ->
    ingest_folder w cfg fs folder g force s = (Raise e, s2).
Proof.
  intros w cfg fs folder g force s s1 s2 pre post path docs e Hfiles Hpre
    Hfail.
  unfold ingest_folder. rewrite Hfiles, ingest_files_app.
  rewrite (bind_step _ _ _ _ _ Hpre). simpl.
  now apply bind_raise.
Qed.

Lemma ingest_folder_stops_at_failure_witness :
  Pipeline.ingest_folder Examples.failing_world (Examples.settings 5 100)
    Examples.two_files [of_string "notes"] None false Examples.start
  = (Raise (ServiceError (of_string "cannot decode")),
     record (EvExtract normalize_text Examples.a_txt) Examples.start).
Proof.
  apply (ingest_folder_stops_at_failure Examples.failing_world
           (Examples.settings 5 100) Examples.two_files
           [of_string "notes"] None false Examples.start Examples.start _
           [] [Examples.b_txt] Examples.a_txt []).
  - vm_compute. reflexivity.
  - reflexivity.
  - vm_compute. reflexivity.
Defined.

(** C2 as stated fails: in a folder holding [a.txt] and [b.txt], where the
    extraction of [a.txt] raises, [ingest_folder] returns no list, and
    [b.txt], which [ingest_file] alone would ingest, is not stored. *)
Lemma ingest_folder_failure_aborts_batch :
  (forall docs s',
      Pipeline.ingest_folder Examples.failing_world
        (Examples.settings 5 100) Examples.two_files [of_string "notes"]
        None false Examples.start
      <> (Ok docs, s'))
  /\ DocStore.get_document_by_path
       (docstore
          (snd (Pipeline.ingest_folder Examples.failing_world
                  (Examples.settings 5 100) Examples.two_files
                  [of_string "notes"] None false Examples.start)))
       (path_str Examples.b_txt)
     = None
  /\ fst (Pipeline.ingest_file Examples.failing_world
            (Examples.settings 5 100) Examples.two_files Examples.b_txt
            None false Examples.start)
     = Ok (Some Examples.b_doc).
Proof.
  split; [|split].
  - intros docs s'. vm_compute. discriminate.
  - vm_compute. reflexivity.
  - vm_compute. reflexivity.
Qed.

End PipelineClaims.

(* ===================================================================== *)
(** * Retrieval *)
(* ===================================================================== *)

Module RetrieverClaims.
Import PyStr Models Spec Retriever.

(** When the query embeds, the citations are built from the hits one by
    one. *)
Lemma retrieve_chunks_embedded (w : World) (cfg : Settings) (query : str)
    (points : VectorStore.t) (store : DocStore.t) (top_k_arg : option Z)
    (h : list event) (query_emb : list float) (others : list (list float)) :
  aembedding w h [query] = Ok (query_emb :: others) ->
  exists citations,
    retrieve_chunks w cfg query points store top_k_arg h
    = (Ok citations, h ++ [EvEmbedding [query]])
    /\ List.length citations
       = List.length
           (VectorStore.search w points query_emb
              (match top_k_arg with
               | Some k => k
               | None => top_k (chat cfg)
               end))
    /\ forall i hit,
         nth_error
           (VectorStore.search w points query_emb
              (match top_k_arg with
               | Some k => k
               | None => top_k (chat cfg)
               end)) i = Some hit ->
         exists c,
           nth_error citations i = Some c
           /\ cit_doc_id c = VectorStore.hit_doc_id hit
           /\ cit_chunk_id c = VectorStore.hit_chunk_id hit
           /\ cit_source_path c
              = match DocStore.get_document store (VectorStore.hit_doc_id hit)
                with Some d => source_path d | None => [] end
           /\ cit_title c
              = match DocStore.get_document store (VectorStore.hit_doc_id hit)
                with Some d => title d | None => [] end.
Proof.
  intros Hemb. unfold retrieve_chunks. rewrite Hemb.
  eexists. split; [reflexivity|]. split; [apply length_map|].
  intros i hit Hi. eexists. split.
  - rewrite nth_error_map, Hi. reflexivity.
  - simpl. now repeat split.
Qed.

(** C10.  When the query embeds, [retrieve_chunks] returns one citation
    per hit of the vector search, in the order of the hits; for a hit whose
    [doc_id] has no document in the document store, the citation is still
    built: it carries the hit's [doc_id] and [chunk_id], and its
    [source_path] and [title] are empty. *)
Theorem retrieve_chunks_orphan_hit :
  forall (w : World) (cfg : Settings) (query : str)
         (points : VectorStore.t) (store : DocStore.t)
         (top_k_arg : option Z) (h : list event)
         (query_emb : list float) (others : list (list float)),
    aembedding w h [query] = Ok (query_emb :: others) ->
    let hits :=
      VectorStore.search w points query_emb
        (match top_k_arg with Some k => k | None => top_k (chat cfg) end) in
    exists citations,
      retrieve_chunks w cfg query points store top_k_arg h
      = (Ok citations, h ++ [EvEmbedding [query]])
      /\ List.length citations = List.length hits
      /\ forall i hit,
           nth_error hits i = Some hit ->
           DocStore.get_document store (VectorStore.hit_doc_id hit) = None ->
           exists c,
             nth_error citations i = Some c
             /\ cit_doc_id c = VectorStore.hit_doc_id hit
             /\ cit_chunk_id c = VectorStore.hit_chunk_id hit
             /\ cit_source_path c = []
             /\ cit_title c = [].
Proof.
  intros w cfg query points store top_k_arg h query_emb others Hemb hits.
  destruct (retrieve_chunks_embedded w cfg query points store top_k_arg h
              query_emb others Hemb) as [citations [Hrun [Hlen Hcit]]].
  exists citations. split; [exact Hrun|]. split; [exact Hlen|].
  intros i hit Hi Hnone.
  destruct (Hcit i hit Hi) as [c [Hc [Hd [Hk [Hp Ht]]]]].
  rewrite Hnone in Hp, Ht.
  exists c. now repeat split.
Qed.

Lemma retrieve_chunks_orphan_hit_witness :
  exists c,
    fst (retrieve_chunks Examples.quiet_world (Examples.settings 5 100)
           (of_string "what is left") [Examples.orphan_point]
           DocStore.empty None [])
    = Ok [c]
    /\ cit_doc_id c = of_string "ghost"
    /\ cit_chunk_id c = of_string "c-9"
    /\ cit_source_path c = []
    /\ cit_title c = [].
Proof.
  destruct (retrieve_chunks_orphan_hit Examples.quiet_world
              (Examples.settings 5 100) (of_string "what is left")
              [Examples.orphan_point] DocStore.empty None []
              [0%float] [] eq_refl)
    as [citations [Hrun [Hlen Hhit]]].
  destruct (Hhit 0%nat _ eq_refl eq_refl) as [c [Hc Hfields]].
  exists c. split; [|exact Hfields].
  rewrite Hrun. simpl fst.
  destruct citations as [|c0 [|c1 rest]]; try discriminate.
  simpl in Hc. now injection Hc as ->.
Defined.

(** C9.  When the graph backend is not initialized, [retrieve_fusion]
    returns what [retrieve_chunks] returns, with an empty list of graph
    facts, and asks nothing of the graph; in particular, when the query
    embeds, it does not raise and returns one citation per hit of the
    vector search. *)
Theorem retrieve_fusion_without_graph :
  forall (w : World) (cfg : Settings) (query : str)
         (points : VectorStore.t) (store : DocStore.t)
         (g : GraphClient.t) (top_k_arg graph_results_arg : option Z)
         (h : list event),
    GraphClient.is_initialized g = false ->
    retrieve_fusion w cfg query points store g top_k_arg graph_results_arg h
    = (match retrieve_chunks w cfg query points store top_k_arg h with
       | (Ok citations, h1) => (Ok (citations, []), h1)
       | (Raise e, h1) => (Raise e, h1)
       end)
    /\ forall query_emb others,
         aembedding w h [query] = Ok (query_emb :: others) ->
         exists citations,
           retrieve_fusion w cfg query points store g top_k_arg
             graph_results_arg h
           = (Ok (citations, []), h ++ [EvEmbedding [query]])
           /\ List.length citations
              = List.length
                  (VectorStore.search w points query_emb
                     (match top_k_arg with
                      | Some k => k
                      | None => top_k (chat cfg)
                      end)).
Proof.
  intros w cfg query points store g top_k_arg graph_results_arg h Hinit.
  unfold retrieve_fusion. rewrite Hinit. split.
  - destruct (retrieve_chunks w cfg query points store top_k_arg h)
      as [[citations|e] h1]; reflexivity.
  - intros query_emb others Hemb.
    destruct (retrieve_chunks_embedded w cfg query points store top_k_arg
                h query_emb others Hemb) as [citations [Hrun [Hlen _]]].
    rewrite Hrun. exists citations. split; [reflexivity|exact Hlen].
Qed.

Lemma retrieve_fusion_without_graph_witness :
  exists c,
    retrieve_fusion Examples.quiet_world (Examples.settings 5 100)
      (of_string "what is left") [Examples.orphan_point] DocStore.empty
      Examples.not_ready None None []
    = (Ok ([c], []), [EvEmbedding [of_string "what is left"]]).
Proof.
  destruct (retrieve_fusion_without_graph Examples.quiet_world
              (Examples.settings 5 100) (of_string "what is left")
              [Examples.orphan_point] DocStore.empty Examples.not_ready
              None None [] eq_refl) as [Heq _].
  rewrite Heq. eexists. vm_compute. reflexivity.
Defined.

End RetrieverClaims.

(* ===================================================================== *)
(** * Overlap between chunks *)
(* ===================================================================== *)

Module OverlapClaims.
Import PyStr Models Chunker.

(** C4 does not hold of the code.  The text ["aa bb"] is longer than
    [chunk_size = 2] and is split into two chunks with [chunk_overlap = 1],
    yet the second chunk begins at 3, after the end, 2, of the first: the
    two spans share no character. *)
Theorem chunk_document_spans_do_not_overlap :
  option_map Examples.spans
    (chunk_document (fun _ => []) [] (of_string "aa bb") 2 1 None)
  = Some [(0, 2); (3, 5)].
Proof. vm_compute. reflexivity. Qed.

Lemma locate_texts uuid4 doc_id text overlap metadata raw :
  forall i offset,
    map chunk_text (locate uuid4 doc_id text overlap metadata i offset raw)
    = raw.
Proof.
  induction raw as [|c raw IH]; intros i offset; [reflexivity|].
  simpl. f_equal. apply IH.
Qed.

(** The chunk texts never depend on [chunk_overlap]: it only moves the
    cursor from which the next chunk's text is searched. *)
Lemma chunk_texts_ignore_overlap uuid4 doc_id text chunk_size metadata
    (overlap overlap' : Z) :
  option_map (map chunk_text)
    (chunk_document uuid4 doc_id text chunk_size overlap metadata)
  = option_map (map chunk_text)
      (chunk_document uuid4 doc_id text chunk_size overlap' metadata).
Proof.
  unfold chunk_document. destruct (negb (truthy (strip text)));
    [reflexivity|].
  destruct (_split_recursive text chunk_size _SEPARATORS) as [raw|];
    [|reflexivity].
  simpl. now rewrite !locate_texts.
Qed.

End OverlapClaims.

(* ===================================================================== *)
(** * Further properties of the chunker *)
(* ===================================================================== *)

Module PyStrMore.
Import PyStr PyStrFacts.

Lemma lstrip_blank (s : str) : forallb is_space s = true -> lstrip s = [].
Proof.
  induction s as [|c r IH]; simpl; [reflexivity|].
  intros H. apply andb_prop in H. destruct H as [Hc Hr].
  rewrite Hc. now apply IH.
Qed.

Lemma strip_blank (s : str) : forallb is_space s = true -> strip s = [].
Proof. intros H. unfold strip. now rewrite lstrip_blank. Qed.

(** The result of [lstrip] is empty or begins with a character that is not
    whitespace. *)
Lemma lstrip_head (s : str) :
  lstrip s = [] \/ exists c r, lstrip s = c :: r /\ is_space c = false.
Proof.
  induction s as [|c r IH]; simpl; [now left|].
  destruct (is_space c) eqn:E; [exact IH|].
  right. now exists c, r.
Qed.

Lemma lstrip_fixed (c : char) (r : str) :
  is_space c = false -> lstrip (c :: r) = c :: r.
Proof. intros H. simpl. now rewrite H. Qed.

Lemma lstrip_idem (s : str) : lstrip (lstrip s) = lstrip s.
Proof.
  destruct (lstrip_head s) as [->|[c [r [-> Hc]]]]; [reflexivity|].
  now apply lstrip_fixed.
Qed.

Lemma lstrip_snoc (x : str) (c : char) :
  is_space c = false -> exists y, lstrip (x ++ [c]) = y ++ [c].
Proof.
  intros Hc. induction x as [|a x [y Hy]]; simpl.
  - rewrite Hc. now exists [].
  - destruct (is_space a).
    + now exists y.
    + now exists (a :: x).
Qed.

Lemma rstrip_head (c : char) (r : str) :
  is_space c = false -> exists y, rstrip (c :: r) = c :: y.
Proof.
  intros Hc. unfold rstrip. simpl rev.
  destruct (lstrip_snoc (rev r) c Hc) as [y ->].
  exists (rev y). now rewrite rev_app_distr.
Qed.

Lemma rstrip_idem (s : str) : rstrip (rstrip s) = rstrip s.
Proof. unfold rstrip. now rewrite rev_involutive, lstrip_idem. Qed.

(** Stripping twice is stripping once. *)
Lemma strip_idem (s : str) : strip (strip s) = strip s.
Proof.
  unfold strip.
  destruct (lstrip_head s) as [->|[c [r [-> Hc]]]]; [reflexivity|].
  destruct (rstrip_head c r Hc) as [y Hy].
  rewrite Hy, (lstrip_fixed c y Hc), <- Hy. apply rstrip_idem.
Qed.

Lemma strip_len (s : str) : len (strip s) <= len s.
Proof.
  destruct (strip_middle s) as [a [b H]].
  rewrite H at 2. rewrite !len_app.
  pose proof (len_nonneg a). pose proof (len_nonneg b). lia.
Qed.

Lemma find_from_sound (sub : str) :
  forall text pos r,
    find_from sub text pos = Some r ->
    (pos <= r <= pos + List.length text)%nat
    /\ is_prefix sub (skipn (r - pos) text) = true.
Proof.
  induction text as [|c t IH]; intros pos r.
  - simpl. destruct (is_prefix sub []) eqn:E; [|discriminate].
    intros [= <-]. rewrite Nat.sub_diag. split; [lia|exact E].
  - simpl find_from. destruct (is_prefix sub (c :: t)) eqn:E.
    + intros [= <-]. rewrite Nat.sub_diag. split; [simpl; lia|exact E].
    + intros H. apply IH in H. destruct H as [Hle Hp].
      split; [simpl; lia|].
      replace (r - pos)%nat with (S (r - S pos)) by lia. exact Hp.
Qed.

(** What [find] returns, when it is not [-1], is a place where the string
    occurs, at or after the cursor. *)
Lemma find_found (text sub : str) (start : Z) :
  0 <= start -> find text sub start <> -1 ->
  start <= find text sub start
  /\ find text sub start + len sub <= len text
  /\ slice text (find text sub start) (find text sub start + len sub) = sub.
Proof.
  intros H0. unfold find. test_is (start <? 0) false.
  destruct (len text <? start) eqn:En; [congruence|].
  apply Z.ltb_ge in En.
  destruct (find_from sub (skipn (Z.to_nat start) text) (Z.to_nat start))
    as [r|] eqn:Ef; [|congruence].
  intros _. apply find_from_sound in Ef. destruct Ef as [Hle Hp].
  rewrite length_skipn in Hle. unfold len in En.
  rewrite skipn_add in Hp.
  replace (Z.to_nat start + (r - Z.to_nat start))%nat with r in Hp by lia.
  apply is_prefix_true in Hp.
  assert (Hlen : (r + List.length sub <= List.length text)%nat).
  { assert (H : List.length (skipn r text)
                = (List.length sub
                   + List.length (skipn (List.length sub) (skipn r text)))%nat)
      by (rewrite Hp at 1; apply length_app).
    rewrite length_skipn in H. lia. }
  split; [lia|]. split; [unfold len; lia|].
  rewrite slice_window by (unfold len; lia).
  rewrite !Z.min_l by (unfold len; lia).
  replace (Z.to_nat (Z.of_nat r + len sub - Z.of_nat r))
    with (List.length sub) by (unfold len; lia).
  rewrite Nat2Z.id, Hp, firstn_app, Nat.sub_diag, firstn_all.
  simpl. apply app_nil_r.
Qed.

(** The cursor is a lower bound for what [find] returns, unless it
    returns [-1]. *)
Lemma find_at_least (text sub : str) (start : Z) :
  0 <= start -> find text sub start = -1 \/ start <= find text sub start.
Proof.
  intros H0. destruct (Z.eq_dec (find text sub start) (-1)) as [E|E].
  - now left.
  - right. now apply find_found.
Qed.

End PyStrMore.

Module ChunkerExtras.
Import PyStr Models Chunker Spec SpecMore PyStrFacts PyStrMore ChunkerFacts.

(** ** A property of every piece the cascade returns *)

Section Pieces.
Variable P : str -> Prop.
Variable chunk_size : Z.
Hypothesis P_small : forall x, len (strip x) <= chunk_size -> P (strip x).

Lemma whole_pieces_have text :
  len text <= chunk_size -> Forall P (whole text).
Proof.
  intros H. unfold whole. destruct (truthy (strip text)); [|constructor].
  constructor; [|constructor]. apply P_small.
  pose proof (strip_len text). lia.
Qed.

Lemma split_chars_pieces_have text parts :
  split_chars text chunk_size = Some parts -> Forall P parts.
Proof.
  unfold split_chars, range.
  destruct (chunk_size =? 0) eqn:E0; [discriminate|].
  apply Z.eqb_neq in E0. intros [= <-].
  apply Forall_flat_map, Forall_forall. intros i Hi.
  apply in_map_iff in Hi. destruct Hi as [k [<- Hk]].
  apply in_seq in Hk.
  cbv zeta. destruct (truthy _); [|constructor].
  constructor; [|constructor]. apply P_small.
  assert (Hpos : 0 < chunk_size).
  { destruct (Z.ltb_spec 0 chunk_size) as [H|H]; [exact H|].
    exfalso.
    assert (Hnone : range_len 0 (len text) chunk_size = 0).
    { unfold range_len. test_is (0 <? chunk_size) false.
      pose proof (len_nonneg text).
      test_is (len text <? 0) false. reflexivity. }
    rewrite Hnone in Hk. simpl in Hk. lia. }
  pose proof (strip_len (slice text (Z.of_nat k * chunk_size)
                           (Z.of_nat k * chunk_size + chunk_size))).
  pose proof (slice_length text (Z.of_nat k * chunk_size)
                (Z.of_nat k * chunk_size + chunk_size) ltac:(nia)).
  lia.
Qed.

Variable recurse : str -> option (list str).
Variable sep : str.
Hypothesis recurse_has :
  forall text parts, recurse text = Some parts -> Forall P parts.

Lemma flush_pieces_have cur res r :
  Forall P res ->
  flush recurse chunk_size sep cur res = Some r -> Forall P r.
Proof.
  intros Hres. unfold flush.
  destruct (truthy (strip (join sep cur))); [|now intros [= <-]].
  destruct (Z.ltb_spec chunk_size (len (strip (join sep cur)))) as [Hbig|Hok].
  - destruct (recurse (strip (join sep cur))) as [parts|] eqn:Er;
      [|discriminate].
    intros [= <-]. apply Forall_app. split; [exact Hres|].
    now apply (recurse_has _ _ Er).
  - intros [= <-]. apply Forall_app. split; [exact Hres|].
    constructor; [|constructor]. now apply P_small.
Qed.

Lemma loop_pieces_have pieces :
  forall a a',
    Forall P (result a) ->
    loop recurse chunk_size sep a pieces = Some a' -> Forall P (result a').
Proof.
  induction pieces as [|p ps IH]; intros a a' Ha; simpl.
  - now intros [= <-].
  - unfold step.
    destruct ((chunk_size <? current_len a + (len p + len sep))
              && match current a with [] => false | _ :: _ => true end).
    + destruct (flush recurse chunk_size sep (current a) (result a))
        as [r|] eqn:Ef; [|discriminate].
      apply IH. simpl. now apply (flush_pieces_have _ _ _ Ha Ef).
    + apply IH. exact Ha.
Qed.

Lemma split_on_pieces_have text parts :
  split_on recurse chunk_size sep text = Some parts -> Forall P parts.
Proof.
  unfold split_on.
  destruct (loop recurse chunk_size sep (mkAcc [] [] 0) (split text sep))
    as [a|] eqn:El; [|discriminate].
  assert (Ha : Forall P (result a)).
  { apply (loop_pieces_have (split text sep) (mkAcc [] [] 0) a);
      [constructor|exact El]. }
  destruct (current a); [now intros [= <-]|].
  now apply flush_pieces_have.
Qed.

End Pieces.

(** Whatever holds of every stripped string of at most [chunk_size]
    characters holds of every piece of the cascade. *)
Lemma split_recursive_pieces_have (P : str -> Prop) (chunk_size : Z)
    (separators : list str) :
  (forall x, len (strip x) <= chunk_size -> P (strip x)) ->
  forall text parts,
    _split_recursive text chunk_size separators = Some parts ->
    Forall P parts.
Proof.
  intros HP text.
  apply (_split_recursive_elim
           (fun text cs _ r =>
              (forall x, len (strip x) <= cs -> P (strip x)) ->
              forall parts, r = Some parts -> Forall P parts));
    [| | | | |exact HP].
  - intros t cs seps Hfit H parts [= <-].
    apply (whole_pieces_have P cs H). now apply Z.leb_le.
  - intros t cs seps _ _ H parts. now apply split_chars_pieces_have.
  - intros t cs seps l _ _ H parts. now apply split_chars_pieces_have.
  - intros t cs seps c s IH _ _ H parts.
    apply (split_on_pieces_have P cs H). intros m ps. now apply IH.
  - intros t cs seps c s s' rest IH _ _ H parts.
    apply (split_on_pieces_have P cs H). intros m ps. now apply IH.
Qed.

(** ** The chunks *)

(** The chunk texts are the raw chunks of the cascade. *)
Lemma chunk_document_texts uuid4 doc_id text chunk_size chunk_overlap
    metadata chunks :
  chunk_document uuid4 doc_id text chunk_size chunk_overlap metadata
  = Some chunks ->
  chunks = []
  \/ _split_recursive text chunk_size _SEPARATORS
     = Some (map chunk_text chunks).
Proof.
  unfold chunk_document. destruct (negb (truthy (strip text))).
  - intros [= <-]. now left.
  - destruct (_split_recursive text chunk_size _SEPARATORS) as [raw|];
      [|discriminate].
    intros [= <-]. right. now rewrite OverlapClaims.locate_texts.
Qed.

Lemma locate_widths uuid4 doc_id text overlap metadata raw :
  forall i offset,
    Forall (fun c => end_char c - start_char c = len (chunk_text c))
      (locate uuid4 doc_id text overlap metadata i offset raw).
Proof.
  induction raw as [|c raw IH]; intros i offset; simpl; constructor.
  - simpl. lia.
  - apply IH.
Qed.


(** X1.  A text that is empty or holds only whitespace gives no chunk,
    whatever the chunk size and the overlap (a zero chunk size included). *)
Theorem chunk_document_blank :
  forall uuid4 doc_id text chunk_size chunk_overlap metadata,
    forallb is_space text = true ->
    chunk_document uuid4 doc_id text chunk_size chunk_overlap metadata
    = Some [].
Proof.
  intros uuid4 doc_id text chunk_size chunk_overlap metadata Hblank.
  unfold chunk_document. now rewrite (strip_blank text Hblank).
Qed.

Lemma chunk_document_blank_witness :
  chunk_document (fun _ => []) [] (of_string "   
  ") 0 64 None = Some [].
Proof.
  apply chunk_document_blank. vm_compute. reflexivity.
Defined.

(** X2.  No chunk is empty and no chunk begins or ends with whitespace:
    the text of every chunk is its own [strip()]. *)
Theorem chunk_texts_trimmed :
  forall uuid4 doc_id text chunk_size chunk_overlap metadata chunks,
    chunk_document uuid4 doc_id text chunk_size chunk_overlap metadata
    = Some chunks ->
    Forall (fun c => chunk_text c <> [] /\ trimmed (chunk_text c)) chunks.
Proof.
  intros uuid4 doc_id text chunk_size chunk_overlap metadata chunks H.
  destruct (chunk_document_texts _ _ _ _ _ _ _ H) as [->|Hraw];
    [constructor|].
  pose proof (ChunkDocument.split_recursive_sound _ _ _ _ Hraw)
    as [_ Hne].
  pose proof (split_recursive_pieces_have trimmed chunk_size _SEPARATORS
                (fun x _ => strip_idem x) _ _ Hraw) as Htrim.
  rewrite Forall_map in Hne, Htrim.
  rewrite Forall_forall in *. intros c Hc. split.
  - specialize (Hne c Hc). destruct (chunk_text c); [discriminate|].
    discriminate.
  - now apply Htrim.
Qed.

Lemma chunk_texts_trimmed_witness :
  Forall (fun c => chunk_text c <> [] /\ trimmed (chunk_text c))
    ExamplesMore.two_paragraph_chunks.
Proof.
  apply (chunk_texts_trimmed (fun n => str_of_Z (Z.of_nat n))
           (of_string "doc-1") ExamplesMore.two_paragraphs 20 0 None).
  vm_compute. reflexivity.
Defined.

(** X3.  No chunk is longer than [chunk_size]: the text of every chunk has
    at most [chunk_size] characters, and so has its span. *)
Theorem chunk_texts_bounded :
  forall uuid4 doc_id text chunk_size chunk_overlap metadata chunks,
    chunk_document uuid4 doc_id text chunk_size chunk_overlap metadata
    = Some chunks ->
    Forall (fun c => len (chunk_text c) <= chunk_size
                     /\ end_char c - start_char c <= chunk_size) chunks.
Proof.
  intros uuid4 doc_id text chunk_size chunk_overlap metadata chunks H.
  assert (Hw : Forall (fun c => end_char c - start_char c
                               = len (chunk_text c)) chunks).
  { revert H. unfold chunk_document.
    destruct (negb (truthy (strip text))); [intros [= <-]; constructor|].
    destruct (_split_recursive text chunk_size _SEPARATORS);
      [|discriminate].
    intros [= <-]. apply locate_widths. }
  destruct (chunk_document_texts _ _ _ _ _ _ _ H) as [->|Hraw];
    [constructor|].
  pose proof (split_recursive_pieces_have (fun p => len p <= chunk_size)
                chunk_size _SEPARATORS (fun x Hx => Hx) _ _ Hraw) as Hb.
  rewrite Forall_map in Hb. rewrite Forall_forall in *.
  intros c Hc. specialize (Hb c Hc). specialize (Hw c Hc). lia.
Qed.

Lemma chunk_texts_bounded_witness :
  Forall (fun c => len (chunk_text c) <= 20
                   /\ end_char c - start_char c <= 20)
    ExamplesMore.two_paragraph_chunks.
Proof.
  apply (chunk_texts_bounded (fun n => str_of_Z (Z.of_nat n))
           (of_string "doc-1") ExamplesMore.two_paragraphs 20 0 None).
  vm_compute. reflexivity.
Defined.

(** X4.  The chunk texts are pieces of the document that follow one
    another without overlapping: the text can be cut into gaps and chunk
    texts, in the order of the chunks. *)
Theorem chunk_texts_scattered :
  forall uuid4 doc_id text chunk_size chunk_overlap metadata chunks,
    chunk_document uuid4 doc_id text chunk_size chunk_overlap metadata
    = Some chunks ->
    scattered (map chunk_text chunks) text.
Proof.
  intros uuid4 doc_id text chunk_size chunk_overlap metadata chunks H.
  destruct (chunk_document_texts _ _ _ _ _ _ _ H) as [->|Hraw];
    [constructor|].
  now destruct (ChunkDocument.split_recursive_sound _ _ _ _ Hraw).
Qed.

Lemma chunk_texts_scattered_witness :
  scattered (map chunk_text ExamplesMore.two_paragraph_chunks)
    ExamplesMore.two_paragraphs.
Proof.
  apply (chunk_texts_scattered (fun n => str_of_Z (Z.of_nat n))
           (of_string "doc-1") ExamplesMore.two_paragraphs 20 0 None).
  vm_compute. reflexivity.
Defined.


(** ** Offsets *)

Section Offsets.
Variable uuid4 : nat -> str.
Variable doc_id : str.
Variable text : str.
Variable chunk_overlap : Z.
Variable metadata : metadata_t.

(** With a cursor that has not passed the next raw chunk, every chunk is
    found where its text really is. *)
Lemma locate_exact raw rest :
  0 <= chunk_overlap ->
  scattered raw rest ->
  Forall (fun p => truthy p = true) raw ->
  forall A i offset,
    text = A ++ rest -> 0 <= offset <= len A ->
    Forall (span_exact text)
      (locate uuid4 doc_id text chunk_overlap metadata i offset raw).
Proof.
  intros Hov. induction 1 as [t|gap c cs t Hsc IH];
    intros Hne A i offset Htext Hoff.
  - constructor.
  - apply Forall_cons_iff in Hne. destruct Hne as [Hc Hcs].
    apply truthy_len in Hc. simpl locate.
    assert (Hocc : text = (A ++ gap) ++ c ++ t)
      by (rewrite Htext; now rewrite <- app_assoc).
    assert (Hcur : 0 <= offset <= len (A ++ gap)).
    { rewrite len_app. pose proof (len_nonneg gap). lia. }
    pose proof (find_occurrence text c (A ++ gap) t offset Hocc Hcur)
      as Hfind.
    assert (Hnot : find text c offset <> -1) by lia.
    destruct (find_found text c offset ltac:(lia) Hnot) as [_ [_ Hslice]].
    set (found := find text c offset) in *.
    test_is (found =? -1) false.
    constructor.
    + exact Hslice.
    + apply (IH Hcs ((A ++ gap) ++ c)).
      * rewrite Hocc. now rewrite <- !app_assoc.
      * rewrite len_app. lia.
Qed.

(** The cursor only moves forward: every chunk starts at or after the
    cursor it was searched from, and after the chunk before it. *)
Lemma locate_sorted raw :
  forall i offset,
    0 <= offset ->
    Sorted starts_before
      (locate uuid4 doc_id text chunk_overlap metadata i offset raw)
    /\ Forall (fun c => offset <= start_char c)
         (locate uuid4 doc_id text chunk_overlap metadata i offset raw).
Proof.
  induction raw as [|c raw IH]; intros i offset H0; simpl.
  - split; constructor.
  - set (start := if find text c offset =? -1 then offset
                  else find text c offset).
    assert (Hstart : offset <= start).
    { unfold start. destruct (find_at_least text c offset H0) as [E|E].
      - rewrite E. simpl. lia.
      - destruct (find text c offset =? -1); lia. }
    destruct (IH (S i) (Z.max (start + 1) (start + len c - chunk_overlap))
                ltac:(lia)) as [Hs Hall].
    split.
    + constructor; [exact Hs|].
      destruct Hall as [|c' l Hc' _]; constructor.
      unfold starts_before. simpl. fold start. lia.
    + constructor; [simpl; exact Hstart|].
      apply (Forall_impl _ (P := fun c0 =>
               Z.max (start + 1) (start + len c - chunk_overlap)
               <= start_char c0)); [intros; lia|exact Hall].
Qed.

End Offsets.

(** X5.  With [chunk_overlap >= 0], the span recorded for a chunk holds the
    chunk's text: [text[start_char:end_char] == chunk.text] for every
    chunk. *)
Theorem chunk_spans_exact :
  forall uuid4 doc_id text chunk_size chunk_overlap metadata chunks,
    0 <= chunk_overlap ->
    chunk_document uuid4 doc_id text chunk_size chunk_overlap metadata
    = Some chunks ->
    Forall (span_exact text) chunks.
Proof.
  intros uuid4 doc_id text chunk_size chunk_overlap metadata chunks Hov.
  unfold chunk_document. destruct (negb (truthy (strip text))).
  - intros [= <-]. constructor.
  - destruct (_split_recursive text chunk_size _SEPARATORS) as [raw|] eqn:Er;
      [|discriminate].
    intros [= <-].
    destruct (ChunkDocument.split_recursive_sound _ _ _ _ Er) as [Hsc Hne].
    apply (locate_exact uuid4 doc_id text chunk_overlap _ raw text Hov Hsc
             Hne [] 0%nat 0); [reflexivity|].
    unfold len; simpl; lia.
Qed.

Lemma chunk_spans_exact_witness :
  Forall (span_exact ExamplesMore.two_paragraphs)
    ExamplesMore.two_paragraph_chunks.
Proof.
  apply (chunk_spans_exact (fun n => str_of_Z (Z.of_nat n))
           (of_string "doc-1") ExamplesMore.two_paragraphs 20 0 None).
  - lia.
  - vm_compute. reflexivity.
Defined.

(** X6.  Whatever the overlap, negative or larger than the chunks, the
    chunks start at strictly increasing offsets, the first one at 0 or
    later. *)
Theorem chunk_starts_increase :
  forall uuid4 doc_id text chunk_size chunk_overlap metadata chunks,
    chunk_document uuid4 doc_id text chunk_size chunk_overlap metadata
    = Some chunks ->
    Sorted starts_before chunks
    /\ Forall (fun c => 0 <= start_char c) chunks.
Proof.
  intros uuid4 doc_id text chunk_size chunk_overlap metadata chunks.
  unfold chunk_document. destruct (negb (truthy (strip text))).
  - intros [= <-]. split; constructor.
  - destruct (_split_recursive text chunk_size _SEPARATORS) as [raw|];
      [|discriminate].
    intros [= <-].
    apply (locate_sorted uuid4 doc_id text chunk_overlap). lia.
Qed.

Lemma chunk_starts_increase_witness :
  Sorted starts_before ExamplesMore.two_paragraph_chunks
  /\ Forall (fun c => 0 <= start_char c) ExamplesMore.two_paragraph_chunks.
Proof.
  apply (chunk_starts_increase (fun n => str_of_Z (Z.of_nat n))
           (of_string "doc-1") ExamplesMore.two_paragraphs 20 0 None).
  vm_compute. reflexivity.
Defined.


(** ** A text that fits in one chunk *)

(** [lstrip] removes a run of whitespace. *)
Lemma lstrip_split (s : str) :
  exists ws, s = ws ++ lstrip s /\ forallb is_space ws = true.
Proof.
  induction s as [|c r [ws [Hs Hws]]]; simpl.
  - now exists [].
  - destruct (is_space c) eqn:E.
    + exists (c :: ws). simpl. rewrite E, Hws. split; [|reflexivity].
      now rewrite <- Hs.
    + now exists [].
Qed.

Lemma find_from_after_blank (c : char) (y rest ws : str) :
  is_space c = false -> forallb is_space ws = true ->
  forall pos,
    find_from (c :: y) (ws ++ (c :: y) ++ rest) pos
    = Some (pos + List.length ws)%nat.
Proof.
  intros Hc. induction ws as [|w ws IH]; intros Hws pos.
  - cbn [app find_from is_prefix].
    rewrite N.eqb_refl, is_prefix_app. simpl. f_equal. lia.
  - simpl in Hws. apply andb_prop in Hws. destruct Hws as [Hw Hws].
    simpl app. simpl find_from.
    assert (Hcw : (c =? w)%N = false).
    { apply N.eqb_neq. intros ->. congruence. }
    rewrite Hcw. simpl. rewrite IH by exact Hws. f_equal. simpl. lia.
Qed.

Lemma lstrip_app_blank (ws t : str) :
  forallb is_space ws = true -> lstrip (ws ++ t) = lstrip t.
Proof.
  induction ws as [|w ws IH]; intros H; [reflexivity|].
  simpl in H. apply andb_prop in H. destruct H as [Hw Hws].
  simpl. rewrite Hw. now apply IH.
Qed.

(** The stripped text is first found right after the leading whitespace. *)
Lemma find_stripped (text : str) :
  truthy (strip text) = true ->
  find text (strip text) 0 = leading_space text.
Proof.
  intros Hne.
  destruct (lstrip_split text) as [ws [Hs Hws]].
  destruct (lstrip_head text) as [E|[c [r [E Hc]]]].
  { unfold strip in Hne. rewrite E in Hne. discriminate. }
  destruct (rstrip_prefix (lstrip text)) as [b Hb].
  destruct (rstrip_head c r Hc) as [y Hy].
  assert (Hstrip : strip text = c :: y)
    by (unfold strip; rewrite E; exact Hy).
  assert (Htext : text = ws ++ (c :: y) ++ b).
  { rewrite Hs at 1. f_equal. rewrite Hb at 1. f_equal.
    rewrite E. exact Hy. }
  rewrite Hstrip. clear Hs Hb E Hy Hstrip Hne. subst text.
  unfold leading_space, find. cbv zeta.
  change (0 <? 0) with false. cbv iota.
  pose proof (len_nonneg (ws ++ (c :: y) ++ b)).
  test_is (len (ws ++ (c :: y) ++ b) <? 0) false.
  change (Z.to_nat 0) with 0%nat. cbn [skipn].
  rewrite (find_from_after_blank c y b ws Hc Hws 0%nat).
  rewrite (lstrip_app_blank ws _ Hws).
  change ((c :: y) ++ b) with (c :: y ++ b).
  rewrite (lstrip_fixed c (y ++ b) Hc).
  rewrite len_app. unfold len. simpl. lia.
Qed.

(** X7.  A text that is not blank and has at most [chunk_size] characters
    gives exactly one chunk: its text is [text.strip()], its index 0, and
    its span starts right after the leading whitespace of the text. *)
Theorem chunk_document_fits :
  forall uuid4 doc_id text chunk_size chunk_overlap metadata,
    truthy (strip text) = true ->
    len text <= chunk_size ->
    chunk_document uuid4 doc_id text chunk_size chunk_overlap metadata
    = Some [ mkChunk (uuid4 0%nat) doc_id (strip text) 0
               (leading_space text)
               (leading_space text + len (strip text))
               (match metadata with Some m => m | None => [] end) ].
Proof.
  intros uuid4 doc_id text chunk_size chunk_overlap metadata Hne Hfit.
  unfold chunk_document. rewrite Hne. simpl negb. cbv iota.
  rewrite _split_recursive_equation_1.
  unfold _split_recursive_unfold_clause_1.
  test_is (len text <=? chunk_size) true.
  unfold whole. rewrite Hne. cbn [locate].
  pose proof (find_stripped text Hne) as Hfind.
  rewrite Hfind.
  assert (Hlead : 0 <= leading_space text).
  { unfold leading_space. destruct (lstrip_split text) as [ws [Hs _]].
    rewrite Hs at 1. rewrite len_app. pose proof (len_nonneg ws). lia. }
  test_is (leading_space text =? -1) false. reflexivity.
Qed.

Lemma chunk_document_fits_witness :
  chunk_document (fun n => str_of_Z (Z.of_nat n)) (of_string "doc1")
    (of_string "  Hello world ") 512 64 None
  = Some [ mkChunk (of_string "0") (of_string "doc1")
             (of_string "Hello world") 0 2 13 [] ].
Proof.
  apply (chunk_document_fits (fun n => str_of_Z (Z.of_nat n))
           (of_string "doc1") (of_string "  Hello world ") 512 64 None).
  - reflexivity.
  - vm_compute. discriminate.
Defined.

End ChunkerExtras.

(* ===================================================================== *)
(** * Further properties of the stores *)
(* ===================================================================== *)

Module StoreExtras.
Import PyStr Models Spec SpecMore PyStrFacts StoreFacts.

(** ** Lists *)

Lemma find_filter_keep {A} (f g : A -> bool) (l : list A) :
  (forall x, f x = true -> g x = true) ->
  List.find f (filter g l) = List.find f l.
Proof.
  intros H. induction l as [|x l IH]; simpl; [reflexivity|].
  destruct (f x) eqn:Ef.
  - rewrite (H x Ef). simpl. now rewrite Ef.
  - destruct (g x); simpl; rewrite ?Ef; exact IH.
Qed.

Lemma find_app_first {A} (f : A -> bool) (l1 l2 : list A) (x : A) :
  List.find f l1 = Some x -> List.find f (l1 ++ l2) = Some x.
Proof.
  induction l1 as [|y l1 IH]; simpl; [discriminate|].
  destruct (f y); [auto|exact IH].
Qed.

Lemma NoDup_map_filter {A B} (f : A -> B) (g : A -> bool) (l : list A) :
  NoDup (map f l) -> NoDup (map f (filter g l)).
Proof.
  induction l as [|x l IH]; simpl; intros H; [constructor|].
  apply NoDup_cons_iff in H. destruct H as [Hx Hl].
  destruct (g x); [|now apply IH].
  simpl. constructor; [|now apply IH].
  intros Hin. apply Hx. apply in_map_iff in Hin.
  destruct Hin as [y [Hy Hin]]. apply filter_In in Hin.
  rewrite <- Hy. apply in_map. tauto.
Qed.

(** In a list without duplicate keys, looking a member's key up finds that
    member. *)
Lemma find_unique {A} (key : A -> str) (l : list A) (x : A) :
  NoDup (map key l) -> In x l ->
  List.find (fun y => str_eqb (key y) (key x)) l = Some x.
Proof.
  induction l as [|y l IH]; simpl; intros Hnd Hin; [contradiction|].
  apply NoDup_cons_iff in Hnd. destruct Hnd as [Hy Hl].
  destruct Hin as [->|Hin].
  - now rewrite str_eqb_refl.
  - destruct (str_eqb (key y) (key x)) eqn:E.
    + apply str_eqb_eq in E. exfalso. apply Hy. rewrite E.
      now apply in_map.
    + now apply IH.
Qed.

(** ** Documents *)

(** X8.  What [upsert_document] writes can be read back: the document is
    found under its [doc_id] and under its [source_path], and
    [is_unchanged] for that path answers whether the hash asked about is
    the document's [content_hash]. *)
Theorem upsert_document_lookup :
  forall (s : DocStore.t) (doc : Document),
    DocStore.get_document (DocStore.upsert_document s doc) (doc_id doc)
    = Some doc
    /\ DocStore.get_document_by_path (DocStore.upsert_document s doc)
         (source_path doc) = Some doc
    /\ forall hash,
         DocStore.is_unchanged (DocStore.upsert_document s doc)
           (source_path doc) hash
         = str_eqb (content_hash doc) hash.
Proof.
  intros s doc. split; [|split].
  - unfold DocStore.get_document, DocStore.upsert_document. simpl.
    rewrite find_app_skip.
    + simpl. now rewrite str_eqb_refl.
    + intros x Hx. apply filter_In in Hx. destruct Hx as [_ Hx].
      apply andb_prop in Hx. destruct Hx as [Hid _].
      now apply negb_true_iff in Hid.
  - apply get_by_path_upserted.
  - intros hash. pose proof (get_by_path_upserted s doc) as H.
    unfold DocStore.is_unchanged, DocStore.get_document_by_path in *.
    now rewrite H.
Qed.

(** X9.  [upsert_document] keeps the keys unique: if no two stored
    documents share a [doc_id] or a [source_path], that still holds after
    the write; the documents that clash with the new one on neither key
    are all kept, and each is still found under its own [doc_id]. *)
Theorem upsert_document_keeps_keys :
  forall (s : DocStore.t) (doc : Document),
    well_keyed s ->
    well_keyed (DocStore.upsert_document s doc)
    /\ forall d,
         In d (DocStore.documents s) ->
         doc_id d <> doc_id doc -> source_path d <> source_path doc ->
         DocStore.get_document (DocStore.upsert_document s doc) (doc_id d)
         = Some d.
Proof.
  intros s doc [Hid Hpath].
  set (keep := fun d => negb (str_eqb (doc_id d) (doc_id doc))
                        && negb (str_eqb (source_path d) (source_path doc))).
  assert (Hkeys : well_keyed (DocStore.upsert_document s doc)).
  { unfold well_keyed, DocStore.upsert_document. simpl. fold keep.
    rewrite !map_app. simpl. split.
    - apply NoDup_app; [now apply NoDup_map_filter|repeat constructor; auto|].
      intros k Hk [<-|[]]. apply in_map_iff in Hk.
      destruct Hk as [d [Hd Hin]]. apply filter_In in Hin.
      destruct Hin as [_ Hin]. unfold keep in Hin.
      apply andb_prop in Hin. destruct Hin as [Hin _].
      apply negb_true_iff, str_eqb_neq in Hin. contradiction.
    - apply NoDup_app; [now apply NoDup_map_filter|repeat constructor; auto|].
      intros k Hk [<-|[]]. apply in_map_iff in Hk.
      destruct Hk as [d [Hd Hin]]. apply filter_In in Hin.
      destruct Hin as [_ Hin]. unfold keep in Hin.
      apply andb_prop in Hin. destruct Hin as [_ Hin].
      apply negb_true_iff, str_eqb_neq in Hin. contradiction. }
  split; [exact Hkeys|].
  intros d Hin Hd Hp. unfold DocStore.get_document.
  apply (find_unique doc_id); [apply Hkeys|].
  unfold DocStore.upsert_document. simpl. apply in_or_app. left.
  apply filter_In. split; [exact Hin|].
  apply andb_true_intro. split; apply negb_true_iff, str_eqb_neq; assumption.
Qed.

Lemma upsert_document_keeps_keys_witness :
  well_keyed (DocStore.upsert_document (Pipeline.docstore Examples.once)
                Examples.note).
Proof.
  apply (upsert_document_keeps_keys (Pipeline.docstore Examples.once)
           Examples.note).
  split; simpl; repeat constructor; simpl; tauto.
Defined.


(** ** Chunks *)

Lemma insert_by_idx_perm (c : Chunk) (l : list Chunk) :
  Permutation (DocStore.insert_by_idx c l) (c :: l).
Proof.
  induction l as [|x l IH]; simpl; [reflexivity|].
  destruct (index c <=? index x); [reflexivity|].
  rewrite IH. apply perm_swap.
Qed.

Lemma order_by_idx_perm (l : list Chunk) :
  Permutation (DocStore.order_by_idx l) l.
Proof.
  induction l as [|c l IH]; simpl; [reflexivity|].
  rewrite insert_by_idx_perm. now constructor.
Qed.

Lemma insert_by_idx_sorted (c : Chunk) (l : list Chunk) :
  Sorted idx_le l -> Sorted idx_le (DocStore.insert_by_idx c l).
Proof.
  induction l as [|x l IH]; simpl; intros Hs.
  - repeat constructor.
  - destruct (Z.leb_spec (index c) (index x)) as [Hle|Hgt].
    + constructor; [exact Hs|]. constructor. exact Hle.
    + inversion Hs as [|? ? Hs' Hh]; subst.
      constructor; [now apply IH|].
      destruct l as [|y l]; simpl.
      * constructor. unfold idx_le. lia.
      * destruct (index c <=? index y); constructor.
        -- unfold idx_le. lia.
        -- now inversion Hh.
Qed.

Lemma order_by_idx_sorted (l : list Chunk) :
  Sorted idx_le (DocStore.order_by_idx l).
Proof.
  induction l as [|c l IH]; simpl; [constructor|].
  now apply insert_by_idx_sorted.
Qed.

(** X10.  [get_chunks_for_doc] returns the stored chunks of the document,
    all of them and nothing else, each as often as it is stored, in
    ascending [index] order. *)
Theorem get_chunks_for_doc_sorted :
  forall (s : DocStore.t) (id : str),
    Sorted idx_le (DocStore.get_chunks_for_doc s id)
    /\ Permutation (DocStore.get_chunks_for_doc s id)
         (filter (fun c => str_eqb (chunk_doc_id c) id) (DocStore.chunks s))
    /\ forall c, In c (DocStore.get_chunks_for_doc s id) <->
                 In c (DocStore.chunks s) /\ chunk_doc_id c = id.
Proof.
  intros s id. unfold DocStore.get_chunks_for_doc.
  split; [apply order_by_idx_sorted|]. split; [apply order_by_idx_perm|].
  intros c. split.
  - intros H. apply (Permutation_in _ (order_by_idx_perm _)) in H.
    apply filter_In in H. destruct H as [H E].
    now apply str_eqb_eq in E.
  - intros [H E].
    apply (Permutation_in _ (Permutation_sym (order_by_idx_perm _))).
    apply filter_In. split; [exact H|]. now apply str_eqb_eq.
Qed.

(** X11.  After [delete_doc_chunks] the document has no chunk left, the
    chunks of every other document are returned as before, and the
    documents table is untouched. *)
Theorem delete_doc_chunks_only_that_doc :
  forall (s : DocStore.t) (id : str),
    DocStore.get_chunks_for_doc (DocStore.delete_doc_chunks s id) id = []
    /\ (forall other,
          other <> id ->
          DocStore.get_chunks_for_doc (DocStore.delete_doc_chunks s id) other
          = DocStore.get_chunks_for_doc s other)
    /\ DocStore.documents (DocStore.delete_doc_chunks s id)
       = DocStore.documents s.
Proof.
  intros s id. unfold DocStore.get_chunks_for_doc, DocStore.delete_doc_chunks.
  simpl. split; [|split; [|reflexivity]].
  - rewrite filter_none; [reflexivity|].
    intros x Hx. apply filter_In in Hx. destruct Hx as [_ Hx].
    now apply negb_true_iff in Hx.
  - intros other Hother. f_equal. rewrite filter_comm.
    apply filter_all. intros x Hx.
    apply filter_In in Hx. destruct Hx as [_ Hx].
    apply str_eqb_eq in Hx. apply negb_true_iff, str_eqb_neq. congruence.
Qed.

Lemma get_chunk_kept (rows : list Chunk) (x c : Chunk) (id : str) :
  chunk_id x <> id ->
  List.find (fun r => str_eqb (chunk_id r) id) (DocStore.upsert_chunk rows x)
  = List.find (fun r => str_eqb (chunk_id r) id) rows.
Proof.
  intros Hx. unfold DocStore.upsert_chunk.
  destruct (List.find (fun r => str_eqb (chunk_id r) id) rows) as [y|] eqn:E.
  - apply find_app_first. rewrite find_filter_keep; [exact E|].
    intros r Hr. apply str_eqb_eq in Hr.
    apply negb_true_iff, str_eqb_neq. congruence.
  - rewrite find_app_skip.
    + simpl. apply str_eqb_neq in Hx. now rewrite Hx.
    + intros r Hr. apply filter_In in Hr. destruct Hr as [Hr _].
      now apply (find_none _ _ E).
Qed.

Lemma get_chunk_after_upserts (cs : list Chunk) (id : str) :
  ~ In id (map chunk_id cs) ->
  forall rows,
    List.find (fun r => str_eqb (chunk_id r) id)
      (fold_left DocStore.upsert_chunk cs rows)
    = List.find (fun r => str_eqb (chunk_id r) id) rows.
Proof.
  induction cs as [|x cs IH]; intros Hid rows; simpl; [reflexivity|].
  rewrite IH by (intros H; apply Hid; now right).
  apply (get_chunk_kept rows x x). intros E. apply Hid. now left.
Qed.

(** X12.  What [upsert_chunks] writes can be read back: when the chunks
    written have distinct ids, [get_chunk] returns each of them under its
    id; under any other id it returns what it returned before. *)
Theorem upsert_chunks_lookup :
  forall (s : DocStore.t) (cs : list Chunk),
    NoDup (map chunk_id cs) ->
    (forall c, In c cs ->
       DocStore.get_chunk (DocStore.upsert_chunks s cs) (chunk_id c)
       = Some c)
    /\ (forall id, ~ In id (map chunk_id cs) ->
          DocStore.get_chunk (DocStore.upsert_chunks s cs) id
          = DocStore.get_chunk s id).
Proof.
  intros s cs Hnd. unfold DocStore.get_chunk, DocStore.upsert_chunks. simpl.
  split; [|intros id Hid; now apply get_chunk_after_upserts].
  generalize (DocStore.chunks s). clear s.
  induction cs as [|x cs IH]; intros rows c Hin; [contradiction|].
  apply NoDup_cons_iff in Hnd. destruct Hnd as [Hx Hcs].
  simpl. destruct Hin as [->|Hin].
  - rewrite get_chunk_after_upserts by exact Hx.
    unfold DocStore.upsert_chunk. rewrite find_app_skip.
    + simpl. now rewrite str_eqb_refl.
    + intros r Hr. apply filter_In in Hr. destruct Hr as [_ Hr].
      now apply negb_true_iff in Hr.
  - now apply IH.
Qed.

Lemma upsert_chunks_lookup_witness :
  Forall (fun c =>
            DocStore.get_chunk
              (DocStore.upsert_chunks DocStore.empty
                 ExamplesMore.two_paragraph_chunks) (chunk_id c) = Some c)
    ExamplesMore.two_paragraph_chunks.
Proof.
  apply Forall_forall.
  apply (upsert_chunks_lookup DocStore.empty
           ExamplesMore.two_paragraph_chunks).
  vm_compute. repeat constructor; simpl; intuition discriminate.
Defined.


(** ** Points *)

Lemma upsert_points_fresh (news : list Point) :
  NoDup (map point_id news) ->
  forall points,
    (forall p, In p points -> ~ In (point_id p) (map point_id news)) ->
    List.length (fold_left VectorStore.upsert_point news points)
    = (List.length points + List.length news)%nat.
Proof.
  induction news as [|n news IH]; intros Hnd points Hfresh; simpl;
    [lia|].
  apply NoDup_cons_iff in Hnd. destruct Hnd as [Hn Hnews].
  assert (Hkeep : filter (fun q => negb (str_eqb (point_id q) (point_id n)))
                    points = points).
  { apply filter_all. intros x Hx. apply negb_true_iff, str_eqb_neq.
    intros E. apply (Hfresh x Hx). left. now rewrite E. }
  rewrite IH; [|exact Hnews|].
  - unfold VectorStore.upsert_point. rewrite Hkeep, length_app. simpl. lia.
  - unfold VectorStore.upsert_point. rewrite Hkeep. intros p Hp Hin.
    apply in_app_or in Hp. destruct Hp as [Hp|[<-|[]]].
    + apply (Hfresh p Hp). now right.
    + contradiction.
Qed.

Lemma zipped_point_ids (chunks : list Chunk) :
  forall embeddings : list (list float),
    map point_id
      (map (fun ce : Chunk * list float =>
              let (chunk, embedding) := ce in
              mkPoint (chunk_id chunk) embedding (chunk_id chunk)
                (chunk_doc_id chunk) (chunk_text chunk) (index chunk)
                (chunk_metadata chunk))
         (combine chunks embeddings))
    = map chunk_id (firstn (List.length embeddings) chunks).
Proof.
  induction chunks as [|c chunks IH]; intros [|e embeddings]; simpl;
    try reflexivity.
  f_equal. apply IH.
Qed.

(** X13.  [upsert_chunks] of the vector store pairs chunks and embeddings
    like [zip]: when the chunk ids are distinct and new to the collection,
    the collection grows by the smaller of the two lengths, so the chunks
    beyond the last embedding get no vector. *)
Theorem vector_upsert_counts :
  forall (points : VectorStore.t) (chunks : list Chunk)
         (embeddings : list (list float)),
    NoDup (map chunk_id chunks) ->
    (forall p, In p points -> ~ In (point_id p) (map chunk_id chunks)) ->
    VectorStore.count (VectorStore.upsert_chunks points chunks embeddings)
    = VectorStore.count points + Z.min (len chunks) (len embeddings).
Proof.
  intros points chunks embeddings Hnd Hfresh.
  unfold VectorStore.count, VectorStore.upsert_chunks, len.
  assert (Hsub : forall id,
             In id (map chunk_id (firstn (List.length embeddings) chunks)) ->
             In id (map chunk_id chunks)).
  { intros id Hin.
    rewrite <- (firstn_skipn (List.length embeddings) chunks) at 1.
    rewrite map_app. apply in_or_app. now left. }
  rewrite upsert_points_fresh.
  - rewrite !length_map, length_combine. lia.
  - rewrite zipped_point_ids.
    rewrite <- (firstn_skipn (List.length embeddings) chunks) in Hnd.
    rewrite map_app in Hnd. now apply NoDup_app_remove_r in Hnd.
  - intros p Hp Hin. rewrite zipped_point_ids in Hin.
    apply (Hfresh p Hp). now apply Hsub.
Qed.

Lemma vector_upsert_counts_witness :
  VectorStore.count
    (VectorStore.upsert_chunks [Examples.orphan_point]
       ExamplesMore.two_paragraph_chunks [[0%float]])
  = 2.
Proof.
  apply (vector_upsert_counts [Examples.orphan_point]
           ExamplesMore.two_paragraph_chunks [[0%float]]).
  - vm_compute. repeat constructor; simpl; intuition discriminate.
  - intros p [<-|[]]. vm_compute. intuition discriminate.
Defined.

End StoreExtras.

(* ===================================================================== *)
(** * Further properties of the episode controller *)
(* ===================================================================== *)

Module GraphExtras.
Import PyStr Models Spec SpecMore PyStrFacts GraphClient GraphFacts.

(** X16.  For a document with a non-empty text, a zero [episode_size]
    makes [add_document] raise [ValueError] before any call, and a
    negative one makes it return a summary of zero episodes, the text
    being sent nowhere. *)
Theorem add_document_bad_episode_size :
  forall (w : World) (cfg : GraphConfig) (g : GraphClient.t)
         (doc : Document) (group_id_arg : option str) (h : list event),
    is_initialized g = true ->
    text doc <> [] ->
    (episode_size cfg = 0 ->
     add_document w cfg g doc group_id_arg h = (Raise ValueError, h))
    /\ (episode_size cfg < 0 ->
        add_document w cfg g doc group_id_arg h
        = (Ok (mkSummary 0 0 0 0), h)).
Proof.
  intros w cfg g doc group_id_arg h Hinit Htext.
  assert (Hlen : 0 < len (text doc)).
  { destruct (text doc); [congruence|]. unfold len. simpl. lia. }
  unfold add_document, split_blocks. unfold is_initialized in Hinit.
  destruct (_graphiti g); [|discriminate].
  split; intros HE.
  - rewrite HE. test_is (len (text doc) <=? 0) false. reflexivity.
  - test_is (len (text doc) <=? episode_size cfg) false.
    unfold range, range_len.
    test_is (episode_size cfg =? 0) false.
    test_is (0 <? episode_size cfg) false.
    test_is (len (text doc) <? 0) false.
    reflexivity.
Qed.

Lemma add_document_bad_episode_size_witness :
  add_document Examples.quiet_world (Examples.graph_config 0)
    Examples.ready Examples.note None [] = (Raise ValueError, [])
  /\ add_document Examples.quiet_world (Examples.graph_config (-1))
       Examples.ready Examples.note None [] = (Ok (mkSummary 0 0 0 0), []).
Proof.
  split.
  - apply (add_document_bad_episode_size Examples.quiet_world
             (Examples.graph_config 0) Examples.ready Examples.note None
             []); [reflexivity|discriminate|reflexivity].
  - apply (add_document_bad_episode_size Examples.quiet_world
             (Examples.graph_config (-1)) Examples.ready Examples.note
             None []); [reflexivity|discriminate|reflexivity].
Defined.

End GraphExtras.

(* ===================================================================== *)
(** * Further properties of the ingestion pipeline *)
(* ===================================================================== *)

Module PipelineExtras.
Import PyStr Models Spec SpecMore Pipeline PyStrFacts StoreFacts
  PipelineFacts.

(** ** Names without a usable extension *)

Lemma rfind_dot_none (name : str) :
  existsb (N.eqb 46) name = false ->
  forall pos, rfind_dot name pos = None.
Proof.
  induction name as [|c r IH]; intros H pos; [reflexivity|].
  cbn [existsb] in H. apply orb_false_elim in H. destruct H as [Hc Hr].
  cbn [rfind_dot]. rewrite (IH Hr). rewrite N.eqb_sym in Hc. now rewrite Hc.
Qed.

Lemma suffix_without_dot (path : Path) :
  existsb (N.eqb 46) (tl (last path [])) = false -> suffix path = [].
Proof.
  intros H. unfold suffix.
  destruct (last path []) as [|c r]; [reflexivity|].
  cbn [tl] in H. cbn [rfind_dot]. rewrite (rfind_dot_none r H).
  destruct (c =? 46)%N; reflexivity.
Qed.

(** X18.  A file whose name has no dot after its first character (a name
    without extension, or a dotfile such as [.json]) has no normalizer:
    [ingest_file] returns [None] and does nothing, forced or not. *)
Theorem ingest_file_without_extension :
  forall (w : World) (cfg : Settings) (fs : FS) (path : Path)
         (g : option GraphClient.t) (force : bool) (s : State),
    existsb (N.eqb 46) (tl (last path [])) = false ->
    ingest_file w cfg fs path g force s = (Ok None, s).
Proof.
  intros w cfg fs path g force s H.
  unfold ingest_file, get_normalizer.
  rewrite (suffix_without_dot path H). reflexivity.
Qed.

Lemma ingest_file_without_extension_witness :
  ingest_file Examples.quiet_world (Examples.settings 5 100)
    Examples.two_files [of_string "notes"; of_string ".json"] None true
    Examples.start
  = (Ok None, Examples.start).
Proof.
  apply ingest_file_without_extension. reflexivity.
Defined.

(** ** The order of a folder's files *)

Lemma str_ltb_asym (a : str) :
  forall b, str_ltb a b = true -> str_ltb b a = false.
Proof.
  induction a as [|x a IH]; intros [|y b] H; simpl in *;
    try reflexivity; try discriminate.
  apply orb_true_iff in H. apply orb_false_iff.
  destruct H as [H|H].
  - apply N.ltb_lt in H. split.
    + apply N.ltb_ge. lia.
    + apply andb_false_iff. left. apply N.eqb_neq. lia.
  - apply andb_prop in H. destruct H as [Hxy Hab].
    apply N.eqb_eq in Hxy. subst y. split.
    + apply N.ltb_irrefl.
    + rewrite N.eqb_refl. simpl. now apply IH.
Qed.

Lemma str_ltb_not_eq (a b : str) : str_ltb a b = true -> str_eqb b a = false.
Proof.
  intros H. apply str_eqb_neq. intros ->.
  pose proof (str_ltb_asym a a H). congruence.
Qed.

Lemma path_ltb_asym (a : Path) :
  forall b, path_ltb a b = true -> path_ltb b a = false.
Proof.
  induction a as [|x a IH]; intros [|y b] H; simpl in *;
    try reflexivity; try discriminate.
  apply orb_true_iff in H. apply orb_false_iff.
  destruct H as [H|H].
  - split; [now apply str_ltb_asym|].
    apply andb_false_iff. left. now apply str_ltb_not_eq.
  - apply andb_prop in H. destruct H as [Hxy Hab].
    apply str_eqb_eq in Hxy. subst y. split.
    + destruct (str_ltb x x) eqn:E; [|reflexivity].
      pose proof (str_ltb_asym x x E). congruence.
    + rewrite str_eqb_refl. simpl. now apply IH.
Qed.

Lemma insert_path_perm (p : Path) (l : list Path) :
  Permutation (insert_path p l) (p :: l).
Proof.
  induction l as [|x l IH]; simpl; [reflexivity|].
  destruct (path_ltb x p); [|reflexivity].
  rewrite IH. apply perm_swap.
Qed.

Lemma sorted_perm (l : list Path) : Permutation (sorted l) l.
Proof.
  induction l as [|p l IH]; simpl; [reflexivity|].
  rewrite insert_path_perm. now constructor.
Qed.

Lemma insert_path_sorted (p : Path) (l : list Path) :
  Sorted not_after l -> Sorted not_after (insert_path p l).
Proof.
  induction l as [|x l IH]; simpl; intros Hs.
  - repeat constructor.
  - destruct (path_ltb x p) eqn:E.
    + inversion Hs as [|? ? Hs' Hh]; subst.
      constructor; [now apply IH|].
      destruct l as [|y l]; simpl.
      * constructor. unfold not_after. now apply path_ltb_asym.
      * destruct (path_ltb y p); constructor.
        -- now inversion Hh.
        -- unfold not_after. now apply path_ltb_asym.
    + constructor; [exact Hs|]. constructor. exact E.
Qed.

Lemma sorted_sorted (l : list Path) : Sorted not_after (sorted l).
Proof.
  induction l as [|p l IH]; simpl; [constructor|].
  now apply insert_path_sorted.
Qed.

(** X19.  The files [ingest_folder] visits are the files of the file
    system that lie below the folder and have a normalizer, each once per
    listing, in ascending path order: no file comes before one that is
    smaller. *)
Theorem supported_files_sorted :
  forall (fs : FS) (folder : Path),
    Sorted not_after (supported_files fs folder)
    /\ (forall p,
          In p (supported_files fs folder) <->
          In p (map fst fs) /\ is_under folder p = true
          /\ get_normalizer p <> None)
    /\ Permutation (supported_files fs folder)
         (filter supported (rglob_files fs folder)).
Proof.
  intros fs folder. unfold supported_files.
  split; [apply sorted_sorted|]. split; [|apply sorted_perm].
  intros p. unfold rglob_files, get_normalizer. split.
  - intros H. apply (Permutation_in _ (sorted_perm _)) in H.
    apply filter_In in H. destruct H as [H Hn].
    apply filter_In in H. destruct H as [H Hu].
    repeat split; auto.
    destruct (normalizers_get (lower (suffix p))); congruence.
  - intros [H [Hu Hn]].
    apply (Permutation_in _ (Permutation_sym (sorted_perm _))).
    apply filter_In. split; [apply filter_In; now split|].
    destruct (normalizers_get (lower (suffix p))); congruence.
Qed.


(** ** Batches of embedding calls *)

(** The slices of width [E] of a list longer than [E]. *)
Lemma range_slices {A} (s : list A) (E : Z) :
  0 < E -> E < len s ->
  exists starts,
    range 0 (len s) E = Some starts
    /\ List.concat (map (fun i => slice s i (i + E)) starts) = s
    /\ Forall (fun b => len b <= E) (map (fun i => slice s i (i + E)) starts)
    /\ len starts = ceil_div (len s) E.
Proof.
  intros HE Hbig. unfold range. test_is (E =? 0) false.
  eexists. split; [reflexivity|].
  assert (Hn : range_len 0 (len s) E = (len s - 1) / E + 1).
  { unfold range_len. test_is (0 <? E) true. test_is (0 <? len s) true.
    f_equal. f_equal. lia. }
  assert (Hq : 0 <= (len s - 1) / E) by (apply Z.div_pos; lia).
  repeat split.
  - rewrite (GraphFacts.concat_slices s E HE).
    assert (Hcover :
              len s <= Z.of_nat (0 + Z.to_nat (range_len 0 (len s) E)) * E).
    { rewrite Hn. simpl Nat.add. rewrite Z2Nat.id by lia.
      pose proof (Z.div_mod (len s - 1) E ltac:(lia)).
      pose proof (Z.mod_pos_bound (len s - 1) E HE). nia. }
    rewrite (Z.min_r _ (len s)) by exact Hcover.
    change (Z.of_nat 0 * E) with 0.
    rewrite (Z.min_l 0 (len s)) by lia.
    simpl skipn. rewrite Z.sub_0_r.
    apply firstn_all2. unfold len. lia.
  - apply Forall_forall. intros b Hb.
    apply in_map_iff in Hb. destruct Hb as [i [<- Hi]].
    apply in_map_iff in Hi. destruct Hi as [k [<- _]].
    pose proof (slice_length s (0 + Z.of_nat k * E)
                  (0 + Z.of_nat k * E + E) ltac:(nia)).
    lia.
  - unfold len at 1. rewrite length_map, length_seq.
    rewrite Hn. rewrite <- GraphFacts.ceil_div_range by lia. lia.
Qed.

Lemma aembedding_call_history w input s r s' :
  aembedding_call w input s = (r, s') ->
  history s' = history s ++ [EvEmbedding input].
Proof.
  unfold aembedding_call.
  destruct (aembedding w (history s) input); now intros [= _ <-].
Qed.

Section Answering.
Variable w : World.
Hypothesis one_vector_per_text :
  forall h input,
  exists reply,
    aembedding w h input = Ok reply
    /\ List.length reply = List.length input.

Lemma embed_batches_answered batches :
  forall acc s,
  exists embeddings s',
    embed_batches w batches acc s = (Ok (acc ++ embeddings), s')
    /\ List.length embeddings = List.length (List.concat batches)
    /\ same_stores s s'
    /\ history s' = history s ++ map EvEmbedding batches.
Proof.
  induction batches as [|b rest IH]; intros acc s.
  - exists [], s. simpl. unfold ret. rewrite !app_nil_r.
    repeat split.
  - simpl. unfold bind.
    destruct (one_vector_per_text (history s) b) as [reply [Hr Hl]].
    unfold aembedding_call at 1. rewrite Hr.
    destruct (IH (acc ++ reply) (record (EvEmbedding b) s))
      as [embs [s' [He [Hlen [Hst Hh]]]]].
    exists (reply ++ embs), s'. rewrite He, <- app_assoc.
    split; [reflexivity|]. split; [rewrite !length_app; lia|].
    split.
    + destruct Hst as [A [B C]]. now repeat split.
    + rewrite Hh. simpl. now rewrite <- app_assoc.
Qed.

End Answering.

(** X20.  When the embedding service returns one vector per text, [embed]
    returns one vector per text; it sends every text exactly once and in
    order, in a single call for up to 128 texts (an empty list included)
    and in [ceil(n/128)] calls of at most 128 texts otherwise; it touches
    neither store. *)
Theorem embed_sends_every_text_once :
  forall (w : World) (texts : list str) (s : State),
    (forall h input,
      exists reply,
        aembedding w h input = Ok reply
        /\ List.length reply = List.length input) ->
    exists embeddings s' batches,
      embed w texts s = (Ok embeddings, s')
      /\ List.length embeddings = List.length texts
      /\ same_stores s s'
      /\ history s' = history s ++ map EvEmbedding batches
      /\ List.concat batches = texts
      /\ Forall (fun b => len b <= batch_size) batches
      /\ len batches
         = (if batch_size <? len texts
            then ceil_div (len texts) batch_size else 1).
Proof.
  intros w texts s Hans. unfold embed.
  destruct (Z.leb_spec (len texts) batch_size) as [Hfit|Hbig].
  - destruct (Hans (history s) texts) as [reply [Hr Hl]].
    unfold aembedding_call. rewrite Hr.
    exists reply, (record (EvEmbedding texts) s), [texts].
    test_is (batch_size <? len texts) false.
    split; [reflexivity|]. split; [exact Hl|].
    split; [now repeat split|]. split; [reflexivity|].
    split; [simpl; now rewrite app_nil_r|].
    split; [|reflexivity].
    constructor; [exact Hfit|constructor].
  - destruct (range_slices texts batch_size eq_refl Hbig)
      as [starts [Hrange [Hcat [Hsize Hcount]]]].
    rewrite Hrange.
    destruct (embed_batches_answered w Hans
                (map (fun i => slice texts i (i + batch_size)) starts) [] s)
      as [embs [s' [He [Hlen [Hst Hh]]]]].
    exists embs, s'. eexists.
    test_is (batch_size <? len texts) true.
    split; [exact He|]. split; [now rewrite Hlen, Hcat|].
    split; [exact Hst|]. split; [exact Hh|]. split; [exact Hcat|].
    split; [exact Hsize|].
    unfold len at 1. rewrite length_map. exact Hcount.
Qed.

Lemma embed_sends_every_text_once_witness :
  exists embeddings s' batches,
    embed Examples.quiet_world [of_string "a"; of_string "b"] Examples.start
    = (Ok embeddings, s')
    /\ List.length embeddings = 2%nat
    /\ same_stores Examples.start s'
    /\ history s' = [] ++ map EvEmbedding batches
    /\ List.concat batches = [of_string "a"; of_string "b"]
    /\ Forall (fun b => len b <= batch_size) batches
    /\ len batches = 1.
Proof.
  apply (embed_sends_every_text_once Examples.quiet_world
           [of_string "a"; of_string "b"] Examples.start).
  intros h input. eexists. split; [reflexivity|]. apply length_map.
Defined.


(** ** A failure of the embedding service *)

Lemma last_event_snoc h e : last_event (h ++ [e]) = Some e.
Proof.
  unfold last_event. rewrite map_app. simpl. apply last_last.
Qed.

Lemma embed_batches_raise w batches :
  forall acc s e s',
    embed_batches w batches acc s = (Raise e, s') ->
    exists t input, history s' = history s ++ t ++ [EvEmbedding input].
Proof.
  induction batches as [|b rest IH]; intros acc s e s'; simpl.
  - intros [=].
  - unfold bind.
    destruct (aembedding_call w b s) as [[v|e1] sA] eqn:Ec.
    + intros H. apply IH in H. destruct H as [t [input Ht]].
      apply aembedding_call_history in Ec.
      exists (EvEmbedding b :: t), input. rewrite Ht, Ec.
      now rewrite <- app_assoc.
    + intros [= _ <-]. apply aembedding_call_history in Ec.
      now exists [], b.
Qed.

Lemma embed_raise w texts s e s' :
  embed w texts s = (Raise e, s') ->
  exists t input, history s' = history s ++ t ++ [EvEmbedding input].
Proof.
  unfold embed. destruct (len texts <=? batch_size).
  - intros H. apply aembedding_call_history in H. now exists [], texts.
  - unfold range. change (batch_size =? 0) with false. cbv iota.
    apply embed_batches_raise.
Qed.

Lemma bind_fails {A B} (m : M A) (k : A -> M B) s e s2 :
  bind m k s = (Raise e, s2) ->
  m s = (Raise e, s2)
  \/ exists a s1, m s = (Ok a, s1) /\ k a s1 = (Raise e, s2).
Proof.
  unfold bind. destruct (m s) as [[a|e1] s1]; intros H.
  - right. now exists a, s1.
  - left. now injection H as <- <-.
Qed.

(** Where a run of the steps can fail, and in which state it then stops:
    in the normalizer or the chunker, after the extraction and before any
    write; or in the embedding, after the document and its chunks were
    written and before any vector was. *)
Lemma ingest_steps_raise w cfg fs n path s e s1 :
  ingest_steps w cfg fs n path s = (Raise e, s1) ->
  history s1 = history s ++ [EvExtract n path]
  \/ exists doc chunks t input,
       source_path doc = path_str path
       /\ (forall f, fs_lookup fs path = Some f ->
                     content_hash doc = sha256 w (content f))
       /\ docstore s1
          = DocStore.upsert_chunks
              (DocStore.upsert_document (cleaned_docstore s path) doc) chunks
       /\ vectorstore s1 = cleaned_vectorstore s path
       /\ history s1
          = history s ++ [EvExtract n path] ++ t ++ [EvEmbedding input].
Proof.
  unfold ingest_steps. intros H.
  apply bind_fails in H.
  destruct H as [Hnorm|[d0 [sA [Hnorm H]]]].
  { left. unfold run_normalizer in Hnorm.
    destruct (extract w (history s) n fs path); [discriminate|].
    now injection Hnorm as _ <-. }
  unfold run_normalizer in Hnorm.
  destruct (extract w (history s) n fs path) as [ex|]; [|discriminate].
  injection Hnorm as <- <-.
  set (d00 := mkDocument (uuid4 w (drawn s)) (path_str path) (doc_type_of n)
                (ex_title ex) (ex_text ex) (ex_metadata ex) [] 0%float
                (now w (history (record (EvExtract n path) s)))) in *.
  assert (Hd0hash : forall f, fs_lookup fs path = Some f ->
                      content_hash (compute_hash w fs path d00)
                      = sha256 w (content f)).
  { intros f Hf. unfold compute_hash. rewrite Hf. reflexivity. }
  assert (Hd0path : source_path (compute_hash w fs path d00) = path_str path).
  { unfold compute_hash. destruct (fs_lookup fs path); reflexivity. }
  assert (Hre : forall r sB,
            reuse_existing path (compute_hash w fs path d00)
              (draw 1 (record (EvExtract n path) s)) = (r, sB) ->
            exists d, r = Ok d
            /\ source_path d = path_str path
            /\ content_hash d = content_hash (compute_hash w fs path d00)
            /\ docstore sB = cleaned_docstore s path
            /\ vectorstore sB = cleaned_vectorstore s path
            /\ history sB = history s ++ [EvExtract n path]).
  { intros r sB.
    unfold reuse_existing, bind, get_docstore, update_docstore,
      update_vectorstore, ret.
    cbn [docstore vectorstore history drawn draw record].
    unfold cleaned_docstore, cleaned_vectorstore.
    destruct (DocStore.get_document_by_path (docstore s) (path_str path))
      as [existing|]; intros [= <- <-]; eexists; simpl; repeat split; auto. }
  apply bind_fails in H.
  destruct H as [Hreuse|[d [sB [Hreuse H]]]].
  { apply Hre in Hreuse. destruct Hreuse as [? [[=] _]]. }
  apply Hre in Hreuse.
  destruct Hreuse as [d' [[= <-] [Hpath [Hhash [HdsB [HvsB HhB]]]]]].
  apply bind_fails in H.
  destruct H as [Hchunk|[cs [sC [Hchunk H]]]].
  { left. unfold chunk_step in Hchunk.
    destruct (Chunker.chunk_document _ _ _ _ _ _); [discriminate|].
    injection Hchunk as _ <-. exact HhB. }
  unfold chunk_step in Hchunk.
  destruct (Chunker.chunk_document _ _ _ _ _ _) as [cs'|]; [|discriminate].
  injection Hchunk as <- <-.
  apply bind_fails in H.
  destruct H as [Hpersist|[[] [sD [Hpersist H]]]].
  { unfold persist_step, bind, update_docstore in Hpersist. discriminate. }
  unfold persist_step, bind, update_docstore in Hpersist.
  injection Hpersist as <-.
  apply bind_fails in H.
  destruct H as [Hembed|[[] [sE [_ H]]]]; [|discriminate].
  unfold embed_step in Hembed.
  cbn [docstore vectorstore history drawn draw] in Hembed.
  destruct (vectorstore sB) as [v|] eqn:Ev; [|discriminate].
  destruct cs' as [|c0 cs0] eqn:Ecs; [discriminate|].
  rewrite <- Ecs in *.
  apply bind_fails in Hembed.
  destruct Hembed as [Hemb|[embs [sF [_ Hup]]]]; [|discriminate].
  right.
  pose proof (embed_stores _ _ _ _ _ Hemb) as [Hd [Hv _]].
  apply embed_raise in Hemb. destruct Hemb as [t [input Ht]].
  cbn [docstore vectorstore history drawn] in Hd, Hv, Ht.
  exists d, cs', t, input.
  split; [exact Hpath|].
  split; [intros f Hf; rewrite Hhash; auto|].
  split; [now rewrite Hd, HdsB|].
  split; [now rewrite Hv, <- HvsB|].
  rewrite Ht, HhB. now rewrite <- app_assoc.
Qed.

(** X21.  When [ingest_file] fails in the embedding call (the run raises
    and the last thing asked of the outside is an embedding), the document
    and its chunks are already written: the document stored for the path
    carries the hash of the file, the vector store holds no vector of the
    new chunks (it is the store cleaned of the path's old vectors), and a
    second call without the force flag skips the file, so the missing
    vectors are not produced by retrying. *)
Theorem embedding_failure_is_not_retried :
  forall (w : World) (cfg : Settings) (fs : FS) (path : Path) (f : File)
         (g g' : option GraphClient.t) (force : bool) (s s1 : State)
         (e : exn) (input : list str),
    fs_lookup fs path = Some f ->
    ingest_file w cfg fs path g force s = (Raise e, s1) ->
    last_event (history s1) = Some (EvEmbedding input) ->
    (exists doc,
        DocStore.get_document_by_path (docstore s1) (path_str path)
        = Some doc
        /\ content_hash doc = sha256 w (content f))
    /\ vectorstore s1 = cleaned_vectorstore s path
    /\ ingest_file w cfg fs path g' false s1 = (Ok None, s1).
Proof.
  intros w cfg fs path f g g' force s s1 e input Hf Hrun Hlast.
  unfold ingest_file in Hrun.
  destruct (get_normalizer path) as [n|] eqn:Hn; [|discriminate].
  unfold bind at 1 in Hrun.
  destruct (check_unchanged w fs path force s) as [[b|e0] s0] eqn:Hc.
  2:{ unfold check_unchanged, bind, read_bytes, get_docstore, ret in Hc.
      rewrite Hf in Hc. destruct force; discriminate. }
  pose proof (check_unchanged_state _ _ _ _ _ _ _ Hc) as ->.
  destruct b; [discriminate|].
  unfold bind at 1 in Hrun.
  destruct (ingest_steps w cfg fs n path s) as [[dc|e1] sA] eqn:Hsteps.
  { destruct (graph_step_ok w (graph cfg) g (fst dc) sA) as [sG [HG _]].
    unfold bind in Hrun. rewrite HG in Hrun. discriminate. }
  injection Hrun as _ <-.
  apply ingest_steps_raise in Hsteps.
  destruct Hsteps as [Hh|[doc [chunks [t [i0 [Hp [Hh [Hd [Hv _]]]]]]]]].
  { rewrite Hh, last_event_snoc in Hlast. discriminate. }
  assert (Hrow : DocStore.get_document_by_path (docstore sA) (path_str path)
                 = Some doc).
  { rewrite Hd, <- Hp.
    apply (get_by_path_upserted (cleaned_docstore s path) doc). }
  split; [exists doc; split; [exact Hrow|exact (Hh f Hf)]|].
  split; [exact Hv|].
  unfold ingest_file. rewrite Hn.
  unfold check_unchanged, bind, read_bytes, get_docstore, ret. rewrite Hf.
  unfold DocStore.is_unchanged.
  unfold DocStore.get_document_by_path in Hrow. rewrite Hrow.
  rewrite (Hh f Hf), str_eqb_refl. reflexivity.
Qed.

Lemma embedding_failure_is_not_retried_witness :
  (exists doc,
      DocStore.get_document_by_path
        (docstore ExamplesMore.half_ingested) (path_str Examples.b_txt)
      = Some doc
      /\ content_hash doc
         = sha256 ExamplesMore.embedding_down_world
             (content (Examples.file_of "beta beta")))
  /\ vectorstore ExamplesMore.half_ingested
     = cleaned_vectorstore Examples.start Examples.b_txt
  /\ ingest_file ExamplesMore.embedding_down_world
       (Examples.settings 5 100) Examples.two_files Examples.b_txt
       None false ExamplesMore.half_ingested
     = (Ok None, ExamplesMore.half_ingested).
Proof.
  apply (embedding_failure_is_not_retried ExamplesMore.embedding_down_world
           (Examples.settings 5 100) Examples.two_files Examples.b_txt
           (Examples.file_of "beta beta") None None false Examples.start
           ExamplesMore.half_ingested
           (ServiceError (of_string "embedding service down"))
           [of_string "beta"; of_string "beta"]).
  - reflexivity.
  - vm_compute. reflexivity.
  - vm_compute. reflexivity.
Defined.


(** ** Graph extraction inside [ingest_file] *)

(** The graph step changes nothing: [add_document] asks nothing of the
    outside, and what it raises is dropped. *)
Lemma graph_step_inert w cfg graph_client doc s :
  graph_step w cfg graph_client doc s = (Ok tt, s).
Proof.
  unfold graph_step. destruct graph_client as [g|]; [|reflexivity].
  destruct (GraphClient.is_initialized g); [|reflexivity].
  pose proof (GraphFacts.add_document_history w cfg g doc None (history s))
    as Hh.
  destruct (GraphClient.add_document w cfg g doc None (history s))
    as [[summary|e] h']; simpl in Hh; subst h'; now destruct s.
Qed.

(** X14.  Passing a graph client to [ingest_file] changes nothing:
    whatever the client, initialized or not, the call returns what it
    returns without a graph client and ends in the same state, stores,
    external requests and identifiers drawn alike.  No episode reaches the
    graph backend: [add_document] raises before its first call
    ([AttributeError] on the undeclared retry setting, [ValueError] for a
    zero [episode_size]) or has no block to send, and [ingest_file] drops
    what it raises. *)
Theorem ingest_file_graph_inert :
  forall (w : World) (cfg : Settings) (fs : FS) (path : Path)
         (g : GraphClient.t) (force : bool) (s : State),
    ingest_file w cfg fs path (Some g) force s
    = ingest_file w cfg fs path None force s.
Proof.
  intros w cfg fs path g force s. unfold ingest_file.
  destruct (get_normalizer path) as [n|]; [|reflexivity].
  unfold bind.
  destruct (check_unchanged w fs path force s) as [[[|]|e] s0];
    try reflexivity.
  destruct (ingest_steps w cfg fs n path s0) as [[dc|e] sA];
    [|reflexivity].
  now rewrite !graph_step_inert.
Qed.

End PipelineExtras.

(* ===================================================================== *)
(** * Retrieval with a graph *)
(* ===================================================================== *)

Module RetrieverExtras.
Import PyStr Models Spec Retriever PyStrFacts.

(** What [retrieve_chunks] returns when the query embeds. *)
Lemma retrieve_chunks_runs (w : World) (cfg : Settings) (query : str)
    (points : VectorStore.t) (store : DocStore.t) (top_k_arg : option Z)
    (h : list event) (query_emb : list float) (others : list (list float)) :
  aembedding w h [query] = Ok (query_emb :: others) ->
  exists citations,
    retrieve_chunks w cfg query points store top_k_arg h
    = (Ok citations, h ++ [EvEmbedding [query]]).
Proof.
  intros Hemb. unfold retrieve_chunks. rewrite Hemb.
  eexists. reflexivity.
Qed.

(** X22.  With an initialized graph client, [retrieve_fusion] returns the
    citations of [retrieve_chunks] and one fact per edge of the graph
    search, in order; the graph is searched once, after the embedding,
    in the group [graph.group_id], and the number of results asked for is
    the argument or [chat.graph_results], never [graph.num_results]. *)
Theorem retrieve_fusion_with_graph :
  forall (w : World) (cfg : Settings) (query : str)
         (points : VectorStore.t) (store : DocStore.t)
         (g : GraphClient.t) (top_k_arg graph_results_arg : option Z)
         (h : list event) (query_emb : list float)
         (others : list (list float)) (edges : list EntityEdge),
    let n := match graph_results_arg with
             | Some n => n
             | None => graph_results (chat cfg)
             end in
    let h1 := h ++ [EvEmbedding [query]] in
    aembedding w h [query] = Ok (query_emb :: others) ->
    GraphClient.is_initialized g = true ->
    graphiti_search w h1 query [group_id (graph cfg)] n = Ok edges ->
    exists citations facts,
      retrieve_fusion w cfg query points store g top_k_arg
        graph_results_arg h
      = (Ok (citations, facts),
         h1 ++ [EvGraphSearch query [group_id (graph cfg)] n])
      /\ retrieve_chunks w cfg query points store top_k_arg h
         = (Ok citations, h1)
      /\ map GraphClient.fact facts = map edge_fact edges
      /\ map GraphClient.source_node facts = map source_node_name edges
      /\ map GraphClient.target_node facts = map target_node_name edges
      /\ map GraphClient.fact_uuid facts = map edge_uuid edges.
Proof.
  intros w cfg query points store g top_k_arg graph_results_arg h
    query_emb others edges n h1 Hemb Hinit Hsearch.
  destruct (retrieve_chunks_runs w cfg query points store top_k_arg h
              query_emb others Hemb) as [citations Hrun].
  unfold retrieve_fusion. rewrite Hrun, Hinit.
  unfold GraphClient.search.
  unfold GraphClient.is_initialized in Hinit.
  destruct (GraphClient._graphiti g); [|discriminate].
  fold n. fold h1. rewrite Hsearch.
  eexists. eexists. split; [reflexivity|]. split; [reflexivity|].
  rewrite !map_map. now repeat split.
Qed.

Lemma retrieve_fusion_with_graph_witness :
  exists citations facts,
    retrieve_fusion Examples.quiet_world (Examples.settings 5 100)
      (of_string "what is left") [Examples.orphan_point] DocStore.empty
      Examples.ready None (Some 7) []
    = (Ok (citations, facts),
       [EvEmbedding [of_string "what is left"]]
       ++ [EvGraphSearch (of_string "what is left") [of_string "brain"] 7])
    /\ retrieve_chunks Examples.quiet_world (Examples.settings 5 100)
         (of_string "what is left") [Examples.orphan_point] DocStore.empty
         None []
       = (Ok citations, [EvEmbedding [of_string "what is left"]])
    /\ map GraphClient.fact facts = []
    /\ map GraphClient.source_node facts = []
    /\ map GraphClient.target_node facts = []
    /\ map GraphClient.fact_uuid facts = [].
Proof.
  apply (retrieve_fusion_with_graph Examples.quiet_world
           (Examples.settings 5 100) (of_string "what is left")
           [Examples.orphan_point] DocStore.empty Examples.ready None
           (Some 7) [] [0%float] [] []);
    reflexivity.
Defined.

(** X23.  A failure of the graph search is not tolerated by
    [retrieve_fusion]: with an initialized graph client, when the query
    embeds and the graph search raises, the retrieval raises the same
    exception and the citations already built are lost. *)
Theorem retrieve_fusion_graph_failure :
  forall (w : World) (cfg : Settings) (query : str)
         (points : VectorStore.t) (store : DocStore.t)
         (g : GraphClient.t) (top_k_arg graph_results_arg : option Z)
         (h : list event) (query_emb : list float)
         (others : list (list float)) (e : exn),
    let n := match graph_results_arg with
             | Some n => n
             | None => graph_results (chat cfg)
             end in
    let h1 := h ++ [EvEmbedding [query]] in
    aembedding w h [query] = Ok (query_emb :: others) ->
    GraphClient.is_initialized g = true ->
    graphiti_search w h1 query [group_id (graph cfg)] n = Raise e ->
    retrieve_fusion w cfg query points store g top_k_arg
      graph_results_arg h
    = (Raise e, h1 ++ [EvGraphSearch query [group_id (graph cfg)] n]).
Proof.
  intros w cfg query points store g top_k_arg graph_results_arg h
    query_emb others e n h1 Hemb Hinit Hsearch.
  destruct (retrieve_chunks_runs w cfg query points store top_k_arg h
              query_emb others Hemb) as [citations Hrun].
  unfold retrieve_fusion. rewrite Hrun, Hinit.
  unfold GraphClient.search.
  unfold GraphClient.is_initialized in Hinit.
  destruct (GraphClient._graphiti g); [|discriminate].
  fold n. fold h1. rewrite Hsearch. reflexivity.
Qed.

Lemma retrieve_fusion_graph_failure_witness :
  retrieve_fusion ExamplesMore.graph_down_world (Examples.settings 5 100)
    (of_string "what is left") [Examples.orphan_point] DocStore.empty
    Examples.ready None None []
  = (Raise (ServiceError (of_string "graph down")),
     [EvEmbedding [of_string "what is left"]]
     ++ [EvGraphSearch (of_string "what is left") [of_string "brain"] 10]).
Proof.
  apply (retrieve_fusion_graph_failure ExamplesMore.graph_down_world
           (Examples.settings 5 100) (of_string "what is left")
           [Examples.orphan_point] DocStore.empty Examples.ready None
           None [] [0%float] []);
    reflexivity.
Defined.

(** X24.  When the query embeds and [chat.snippet_length] is not
    negative, the snippet of every citation is the prefix of its hit's text
    of [min(snippet_length, len(text))] characters, and the citation keeps
    the hit's index and score. *)
Theorem retrieve_chunks_snippets :
  forall (w : World) (cfg : Settings) (query : str)
         (points : VectorStore.t) (store : DocStore.t)
         (top_k_arg : option Z) (h : list event)
         (query_emb : list float) (others : list (list float)),
    aembedding w h [query] = Ok (query_emb :: others) ->
    0 <= snippet_length (chat cfg) ->
    let hits :=
      VectorStore.search w points query_emb
        (match top_k_arg with Some k => k | None => top_k (chat cfg) end) in
    exists citations,
      retrieve_chunks w cfg query points store top_k_arg h
      = (Ok citations, h ++ [EvEmbedding [query]])
      /\ forall i hit,
           nth_error hits i = Some hit ->
           exists c,
             nth_error citations i = Some c
             /\ snippet c
                = firstn (Z.to_nat (snippet_length (chat cfg)))
                    (VectorStore.hit_text hit)
             /\ len (snippet c)
                = Z.min (snippet_length (chat cfg))
                    (len (VectorStore.hit_text hit))
             /\ chunk_index c = VectorStore.hit_index hit
             /\ score c = VectorStore.hit_score hit.
Proof.
  intros w cfg query points store top_k_arg h query_emb others Hemb Hlen
    hits.
  unfold retrieve_chunks. rewrite Hemb.
  eexists. split; [reflexivity|].
  intros i hit Hi. eexists. split.
  - rewrite nth_error_map. fold hits. rewrite Hi. reflexivity.
  - cbn [snippet chunk_index score].
    assert (Hs : slice (VectorStore.hit_text hit) 0
                   (snippet_length (chat cfg))
                 = firstn (Z.to_nat (snippet_length (chat cfg)))
                     (VectorStore.hit_text hit)).
    { rewrite slice_window by lia.
      pose proof (len_nonneg (VectorStore.hit_text hit)) as Hn.
      rewrite (Z.min_l 0) by lia. rewrite Z.sub_0_r. simpl skipn.
      destruct (Z.le_ge_cases (snippet_length (chat cfg))
                  (len (VectorStore.hit_text hit))) as [Hle|Hge].
      - now rewrite Z.min_l by lia.
      - rewrite Z.min_r by lia.
        rewrite !firstn_all2; unfold len in *; try lia. reflexivity. }
    rewrite Hs. repeat split.
    unfold len. rewrite length_firstn. lia.
Qed.

Lemma retrieve_chunks_snippets_witness :
  exists citations,
    retrieve_chunks Examples.quiet_world
      (mkSettings (mkChunkerConfig 5 0) (mkChatConfig 5 10 4)
         (Examples.graph_config 100))
      (of_string "what is left") [Examples.orphan_point] DocStore.empty
      None []
    = (Ok citations, [] ++ [EvEmbedding [of_string "what is left"]])
    /\ exists c,
         nth_error citations 0 = Some c
         /\ snippet c = of_string "left"
         /\ len (snippet c) = 4
         /\ chunk_index c = 0
         /\ score c = 1%float.
Proof.
  destruct (retrieve_chunks_snippets Examples.quiet_world
              (mkSettings (mkChunkerConfig 5 0) (mkChatConfig 5 10 4)
                 (Examples.graph_config 100))
              (of_string "what is left") [Examples.orphan_point]
              DocStore.empty None [] [0%float] [] eq_refl
              ltac:(simpl; lia))
    as [citations [Hrun Hhit]].
  exists citations. split; [exact Hrun|].
  exact (Hhit 0%nat _ eq_refl).
Defined.

End RetrieverExtras.

(* ===================================================================== *)
(** * The chat engine *)
(* ===================================================================== *)

Module EngineExtras.
Import PyStr Models Spec SpecMore Config Retriever Engine PyStrFacts.

(** Joined parts of which the first is not empty are not empty. *)
Lemma join_nonempty (sep p : str) (rest : list str) :
  p <> [] -> join sep (p :: rest) <> [].
Proof.
  intros Hp. destruct rest as [|q rest]; simpl; [exact Hp|].
  destruct p; [contradiction|discriminate].
Qed.

Lemma document_part_nonempty ic : document_part ic <> [].
Proof. destruct ic as [i c]. discriminate. Qed.

Lemma graph_part_nonempty igf : graph_part igf <> [].
Proof. destruct igf as [i gf]. discriminate. Qed.

(** An empty list of graph facts counts as none. *)
Lemma build_context_no_facts citations :
  _build_context citations (Some []) = _build_context citations None.
Proof. reflexivity. Qed.

Lemma past_messages_truthy history_arg :
  match history_arg with
  | Some ((_ :: _) as past) => past
  | _ => []
  end = past_messages history_arg.
Proof. now destruct history_arg as [[|m past]|]. Qed.

(** X25.  Without a graph client, or with one that is not initialized,
    [chat] retrieves with [retrieve_chunks] alone and, when the query
    embeds, sends exactly one completion request: the plain system prompt,
    then the past messages, then the user's message with the context block
    of the citations (no graph part) above the question; the request
    carries the chat model, temperature and token limit of the profile.
    The outcome is the outcome of that request, with the citations and an
    empty list of graph facts. *)
Theorem chat_without_graph :
  forall (w : World) (service : LLM) (cfg : Settings)
         (prompts : PromptsConfig) (profile : LLMProfile) (query : str)
         (points : VectorStore.t) (store : DocStore.t)
         (graph_client : option GraphClient.t)
         (history_arg : option (list Message)) (top_k_arg : option Z)
         (stream : bool) (h : list event) (sent : list CompletionRequest)
         (query_emb : list float) (others : list (list float)),
    match graph_client with
    | Some g => GraphClient.is_initialized g
    | None => false
    end = false ->
    aembedding w h [query] = Ok (query_emb :: others) ->
    let h1 := h ++ [EvEmbedding [query]] in
    exists citations,
      retrieve_chunks w cfg query points store top_k_arg h
      = (Ok citations, h1)
      /\ let messages :=
           chat_messages (system_prompt prompts) (past_messages history_arg)
             (_build_context citations None) query in
         chat w service cfg prompts profile query points store graph_client
           history_arg top_k_arg stream h sent
         = (match complete service profile messages stream h1 sent with
            | (Ok answer, sent1) => (Ok (answer, citations, []), h1, sent1)
            | (Raise e, sent1) => (Raise e, h1, sent1)
            end)
         /\ snd (complete service profile messages stream h1 sent)
            = sent ++ [mkCompletionRequest (chat_model profile) messages
                         (temperature profile) (max_tokens profile) stream].
Proof.
  intros w service cfg prompts profile query points store graph_client
    history_arg top_k_arg stream h sent query_emb others Hgraph Hemb h1.
  destruct (RetrieverExtras.retrieve_chunks_runs w cfg query points store
              top_k_arg h query_emb others Hemb) as [citations Hrun].
  exists citations. split; [exact Hrun|]. cbv zeta. split.
  - unfold chat.
    assert (Husable :
              match graph_client with
              | Some g => if GraphClient.is_initialized g then Some g
                          else None
              | None => None
              end = None).
    { destruct graph_client as [g|]; [now rewrite Hgraph|reflexivity]. }
    rewrite Husable. cbv zeta. rewrite Hrun.
    rewrite past_messages_truthy, build_context_no_facts.
    unfold chat_messages. fold h1.
    destruct (complete service profile _ stream h1 sent) as [[a|e] s1];
      reflexivity.
  - unfold complete.
    destruct stream.
    + destruct (acompletion_stream service h1 sent _); reflexivity.
    + destruct (acompletion service h1 sent _); reflexivity.
Qed.

Lemma chat_without_graph_witness :
  exists citations,
    retrieve_chunks Examples.quiet_world (Examples.settings 5 100)
      (of_string "what is left") [Examples.orphan_point] DocStore.empty
      None []
    = (Ok citations, [EvEmbedding [of_string "what is left"]])
    /\ chat Examples.quiet_world ExamplesMore.laconic
         (Examples.settings 5 100) ExamplesMore.prompts
         ExamplesMore.profile (of_string "what is left")
         [Examples.orphan_point] DocStore.empty (Some Examples.not_ready)
         None None false [] []
       = (Ok (Text (of_string "yes"), citations, []),
          [EvEmbedding [of_string "what is left"]],
          [mkCompletionRequest (of_string "anthropic/claude-sonnet")
             (chat_messages (of_string "Answer from the excerpts.") []
                (_build_context citations None) (of_string "what is left"))
             0%float 4096 false]).
Proof.
  destruct (chat_without_graph Examples.quiet_world ExamplesMore.laconic
              (Examples.settings 5 100) ExamplesMore.prompts
              ExamplesMore.profile (of_string "what is left")
              [Examples.orphan_point] DocStore.empty
              (Some Examples.not_ready) None None false [] []
              [0%float] [] eq_refl eq_refl)
    as [citations [Hrun [Hchat _]]].
  exists citations. split; [exact Hrun|]. rewrite Hchat. reflexivity.
Defined.

(** X26.  When the query cannot be embedded (the embedding call raises, or
    returns no vector, which makes the indexing raise [IndexError]),
    [chat] raises the same exception whatever the graph client is: the
    graph is not searched and no completion request is sent. *)
Theorem chat_retrieval_failure :
  forall (w : World) (service : LLM) (cfg : Settings)
         (prompts : PromptsConfig) (profile : LLMProfile) (query : str)
         (points : VectorStore.t) (store : DocStore.t)
         (graph_client : option GraphClient.t)
         (history_arg : option (list Message)) (top_k_arg : option Z)
         (stream : bool) (h : list event) (sent : list CompletionRequest)
         (e : exn),
    aembedding w h [query] = Raise e
    \/ (aembedding w h [query] = Ok [] /\ e = IndexError) ->
    chat w service cfg prompts profile query points store graph_client
      history_arg top_k_arg stream h sent
    = (Raise e, h ++ [EvEmbedding [query]], sent).
Proof.
  intros w service cfg prompts profile query points store graph_client
    history_arg top_k_arg stream h sent e Hemb.
  assert (Hrun : retrieve_chunks w cfg query points store top_k_arg h
                 = (Raise e, h ++ [EvEmbedding [query]])).
  { unfold retrieve_chunks.
    destruct Hemb as [->|[-> ->]]; reflexivity. }
  unfold chat.
  destruct graph_client as [g|].
  - destruct (GraphClient.is_initialized g); cbv zeta.
    + unfold retrieve_fusion. rewrite Hrun. reflexivity.
    + rewrite Hrun. reflexivity.
  - cbv zeta. rewrite Hrun. reflexivity.
Qed.

Lemma chat_retrieval_failure_witness :
  chat ExamplesMore.embedding_down_world ExamplesMore.laconic
    (Examples.settings 5 100) ExamplesMore.prompts ExamplesMore.profile
    (of_string "what is left") [Examples.orphan_point] DocStore.empty
    (Some Examples.ready) None None true [] []
  = (Raise (ServiceError (of_string "embedding service down")),
     [] ++ [EvEmbedding [of_string "what is left"]], []).
Proof.
  apply (chat_retrieval_failure ExamplesMore.embedding_down_world
           ExamplesMore.laconic (Examples.settings 5 100)
           ExamplesMore.prompts ExamplesMore.profile
           (of_string "what is left") [Examples.orphan_point]
           DocStore.empty (Some Examples.ready) None None true [] []).
  left. reflexivity.
Defined.

(** X27.  The context block is empty exactly when there is no citation
    and no graph fact; the graph facts may then be absent or an empty
    list. *)
Theorem build_context_empty_iff :
  forall (citations : list Citation)
         (graph_facts : option (list GraphClient.GraphFact)),
    _build_context citations graph_facts = []
    <-> citations = [] /\ (graph_facts = None \/ graph_facts = Some []).
Proof.
  intros citations graph_facts. split.
  - intros H. destruct citations as [|c cs].
    + split; [reflexivity|].
      destruct graph_facts as [[|gf gfs]|]; [now right| |now left].
      exfalso. revert H. unfold _build_context.
      cbn [enumerate map app]. apply join_nonempty, graph_part_nonempty.
    + exfalso. revert H. unfold _build_context.
      destruct graph_facts as [[|gf gfs]|]; cbn [enumerate map app];
        apply join_nonempty, document_part_nonempty.
  - intros [-> [->| ->]]; reflexivity.
Qed.

End EngineExtras.

(* ===================================================================== *)
(** * The bridge to Graphiti's clients *)
(* ===================================================================== *)

Module BridgeExtras.
Import PyStr Models Spec SpecMore Config Bridge StoreFacts.

Lemma find_from_char (c : char) (text : str) :
  forall pos,
    (In c text -> exists r, find_from [c] text pos = Some r)
    /\ (~ In c text -> find_from [c] text pos = None).
Proof.
  induction text as [|b t IH]; intros pos.
  - split; [intros []|reflexivity].
  - cbn [find_from is_prefix].
    destruct (N.eqb_spec c b) as [->|Hcb]; cbn [andb].
    + split; [now exists pos|]. intros H. exfalso. apply H. now left.
    + destruct (IH (S pos)) as [Hin Hout]. split.
      * intros [E|H]; [congruence|now apply Hin].
      * intros H. apply Hout. intros H1. apply H. now right.
Qed.

Lemma contains_char (c : char) (text : str) :
  contains text [c] = true <-> In c text.
Proof.
  unfold contains. destruct (find_from_char c text 0) as [Hin Hout].
  split.
  - intros H. destruct (in_dec N.eq_dec c text) as [Hc|Hc]; [exact Hc|].
    rewrite (Hout Hc) in H. discriminate.
  - intros H. destruct (Hin H) as [r ->]. reflexivity.
Qed.

(** Cutting at the leftmost occurrence of a character. *)
Lemma split_once_char (c : char) (text : str) :
  forall cur,
    In c text ->
    exists a b,
      text = a ++ c :: b
      /\ ~ In c a
      /\ split_once [c] cur text = [rev cur ++ a; b].
Proof.
  induction text as [|x t IH]; intros cur Hin; [destruct Hin|].
  cbn [split_once is_prefix].
  destruct (N.eqb_spec c x) as [->|Hcx]; cbn [andb].
  - exists [], t. rewrite app_nil_r. now repeat split.
  - destruct Hin as [E|Hin]; [congruence|].
    destruct (IH (x :: cur) Hin) as [a [b [Ht [Ha Hs]]]].
    exists (x :: a), b. split; [now rewrite Ht|]. split.
    + intros [E|H]; [congruence|contradiction].
    + rewrite Hs. simpl rev. now rewrite <- app_assoc.
Qed.

(** The unpacking in [_parse_provider_model] never fails. *)
Lemma parse_provider_model_total (str_lower : str -> str) (m : str) :
  exists provider model,
    _parse_provider_model str_lower m = Ok (provider, model).
Proof.
  unfold _parse_provider_model.
  destruct (contains m (of_string "/")) eqn:E; [|eauto].
  apply (contains_char 47%N m) in E.
  destruct (split_once_char 47%N m [] E) as [a [b [_ [_ Hs]]]].
  assert (Hs' : split_once (of_string "/") [] m = [a; b]) by exact Hs.
  rewrite Hs'. eauto.
Qed.

(** X28.  [_parse_provider_model] never raises.  A model string with a
    slash is cut at its first slash: the returned model is everything
    after it (further slashes included), the returned provider is what
    Python's [lower()] makes of the part before it, and the two parts with
    the slash give the model string back.  A model string without a slash
    is returned whole, with the provider [openai]. *)
Theorem parse_provider_model_round_trip :
  forall (str_lower : str -> str) (litellm_model : str),
    (In 47%N litellm_model ->
     exists raw model,
       _parse_provider_model str_lower litellm_model
       = Ok (str_lower raw, model)
       /\ litellm_model = raw ++ of_string "/" ++ model
       /\ ~ In 47%N raw)
    /\ (~ In 47%N litellm_model ->
        _parse_provider_model str_lower litellm_model
        = Ok (of_string "openai", litellm_model)).
Proof.
  intros str_lower m. unfold _parse_provider_model. split.
  - intros Hin.
    destruct (split_once_char 47%N m [] Hin) as [a [b [Hm [Ha Hs]]]].
    assert (Hc : contains m (of_string "/") = true)
      by (apply (contains_char 47%N m); exact Hin).
    assert (Hs' : split_once (of_string "/") [] m = [a; b]) by exact Hs.
    exists a, b. rewrite Hc, Hs'. now repeat split.
  - intros Hout.
    destruct (contains m (of_string "/")) eqn:E; [|reflexivity].
    apply (contains_char 47%N m) in E. contradiction.
Qed.

Ltac known_provider :=
  repeat match goal with
         | H : In _ (_ :: _) |- _ => destruct H as [<-|H]
         | H : In _ [] |- _ => destruct H
         end.

Ltac unknown_provider H :=
  repeat match goal with
         | |- context [str_eqb ?p ?q] =>
             replace (str_eqb p q) with false
               by (symmetry; apply str_eqb_neq; intros E; apply H;
                   rewrite E; simpl; tauto)
         end.

(** X29.  [build_graphiti_llm_client] builds a client exactly when the
    provider of [graph_extract_model] is one of anthropic, openai, ollama,
    ollama_chat and groq, and raises [ValueError] otherwise.  The client
    is configured with the model names of [graph_extract_model] and
    [graph_extract_small_model]; the provider of the small model is
    ignored. *)
Theorem build_graphiti_llm_client_providers :
  forall (str_lower : str -> str) (environ : Environ)
         (profile : LLMProfile),
    exists provider model small_provider small_model,
      _parse_provider_model str_lower (graph_extract_model profile)
      = Ok (provider, model)
      /\ _parse_provider_model str_lower (graph_extract_small_model profile)
         = Ok (small_provider, small_model)
      /\ (In provider llm_providers ->
          exists client,
            build_graphiti_llm_client str_lower environ profile = Ok client
            /\ llm_model (client_config client) = model
            /\ llm_small_model (client_config client) = small_model)
      /\ (~ In provider llm_providers ->
          build_graphiti_llm_client str_lower environ profile
          = Raise ValueError).
Proof.
  intros str_lower environ profile.
  destruct (parse_provider_model_total str_lower
              (graph_extract_model profile))
    as [provider [model Hp]].
  destruct (parse_provider_model_total str_lower
              (graph_extract_small_model profile))
    as [sp [small Hs]].
  exists provider, model, sp, small.
  split; [exact Hp|]. split; [exact Hs|].
  unfold build_graphiti_llm_client. rewrite Hp, Hs. split.
  - intros Hin. unfold llm_providers in Hin. known_provider;
      eexists; (split; [reflexivity|]); split; reflexivity.
  - intros Hout. unfold llm_providers in Hout.
    unknown_provider Hout. reflexivity.
Qed.

(** X30.  [build_graphiti_embedder] builds an embedder exactly when the
    provider of [embed_model] is one of voyage, openai, ollama and
    ollama_chat, and raises [ValueError] otherwise, in particular for
    anthropic and groq, for which an LLM client can be built.  The
    embedder gets the model name of [embed_model]; [embed_dim] is passed
    to every embedder but Voyage's. *)
Theorem build_graphiti_embedder_providers :
  forall (str_lower : str -> str) (environ : Environ)
         (profile : LLMProfile),
    exists provider model,
      _parse_provider_model str_lower (embed_model profile)
      = Ok (provider, model)
      /\ (In provider embedder_providers ->
          exists embedder,
            build_graphiti_embedder str_lower environ profile = Ok embedder
            /\ embedding_model (embedder_config embedder) = model
            /\ embedding_dim (embedder_config embedder)
               = (if str_eqb provider (of_string "voyage") then None
                  else Some (embed_dim profile)))
      /\ (~ In provider embedder_providers ->
          build_graphiti_embedder str_lower environ profile
          = Raise ValueError)
      /\ (provider = of_string "anthropic" \/ provider = of_string "groq" ->
          In provider llm_providers
          /\ build_graphiti_embedder str_lower environ profile
             = Raise ValueError).
Proof.
  intros str_lower environ profile.
  destruct (parse_provider_model_total str_lower (embed_model profile))
    as [provider [model Hp]].
  exists provider, model. split; [exact Hp|].
  unfold build_graphiti_embedder. rewrite Hp. split; [|split].
  - intros Hin. unfold embedder_providers in Hin. known_provider;
      eexists; (split; [reflexivity|]); split; reflexivity.
  - intros Hout. unfold embedder_providers in Hout.
    unknown_provider Hout. reflexivity.
  - intros [-> | ->]; (split; [simpl; tauto|reflexivity]).
Qed.

End BridgeExtras.
